(** * chatmcp: the multi-server MCP process/protocol client

    A shallow embedding of the TypeScript client family
    ([FirecrawlMCPClient] in [lib/mcp/mcp-client.ts], [MCPClient] and
    [MultiMCPClient] in [lib/mcp/multi-mcp-client.ts], [executeMCPTool] in
    [lib/mcp/mcp-integration.ts]) and the properties its design document
    states about it.

    Conventions of the embedding.
    - A JavaScript string is a [string]; one [ascii] stands for one code unit.
    - A [Map] keyed by request id is a [gmap Z _]; a [Map] that the code
      iterates ([clients], [toolsCache]) is an association list kept in
      insertion order, as [Map] iteration is.
    - Request ids are JavaScript numbers; they are modelled by [Z]
      (the counter is exact far beyond any number of requests a run issues).
    - The Node.js event loop is a sequence of events, each handled to
      completion: calls made on the wrapper, data and lifecycle events of
      its child processes, and timers that were scheduled earlier.
    - [JSON.parse] and the replies of the servers are parameters. *)

From stdpp Require Import base option list sorting gmap strings.
From Stdlib Require Import ZArith Lia Ascii Bool.

Local Open Scope Z_scope.
Local Open Scope nat_scope.
Set Warnings "-register-all,-clear-no-such-hyp".

(** ** JavaScript strings *)

Module JsString.

Definition newline : ascii := "010"%char.
Definition underscore : ascii := "_"%char.

(** [s.indexOf(c)] for a one-character needle. [None] is the source's -1. *)
Fixpoint indexOf (c : ascii) (s : string) : option nat :=
  match s with
  | EmptyString => None
  | String a s' => if Ascii.eqb a c then Some 0 else S <$> indexOf c s'
  end.

(** [s.slice(0, n)] *)
Fixpoint slice_to (n : nat) (s : string) : string :=
  match n, s with
  | S n', String a s' => String a (slice_to n' s')
  | _, _ => EmptyString
  end.

(** [s.slice(n)] *)
Fixpoint slice_from (n : nat) (s : string) : string :=
  match n, s with
  | S n', String _ s' => slice_from n' s'
  | _, _ => s
  end.

(** White space in the sense of [String.prototype.trim], on the code
    units a [string] holds: TAB, LF, VT, FF, CR, SPACE and NBSP. *)
Definition is_space (a : ascii) : bool :=
  let n := nat_of_ascii a in
  (Nat.leb 9 n && Nat.leb n 13) || Nat.eqb n 32 || Nat.eqb n 160.

Definition is_empty (s : string) : bool :=
  match s with EmptyString => true | _ => false end.

Fixpoint trimStart (s : string) : string :=
  match s with
  | String a s' => if is_space a then trimStart s' else s
  | EmptyString => EmptyString
  end.

Fixpoint trimEnd (s : string) : string :=
  match s with
  | String a s' =>
      let t := trimEnd s' in
      if is_space a && is_empty t then EmptyString else String a t
  | EmptyString => EmptyString
  end.

(** [s.trim()] *)
Definition trim (s : string) : string := trimEnd (trimStart s).

(** [s.includes(needle)] *)
Fixpoint includes (needle s : string) : bool :=
  String.prefix needle s ||
  match s with
  | String _ s' => includes needle s'
  | EmptyString => false
  end.

(** [s.split(sep)] for a one-character separator; never the empty list. *)
Fixpoint split (sep : ascii) (s : string) : list string :=
  match s with
  | EmptyString => [EmptyString]
  | String a s' =>
      if Ascii.eqb a sep then EmptyString :: split sep s'
      else match split sep s' with
           | p :: ps => String a p :: ps
           | [] => [String a EmptyString]
           end
  end.

(** [parts.join(sep)] *)
Fixpoint join (sep : string) (parts : list string) : string :=
  match parts with
  | [] => EmptyString
  | [p] => p
  | p :: ps => p +:+ sep +:+ join sep ps
  end.

(** [c] occurs in [s]. *)
Definition has_char (c : ascii) (s : string) : bool :=
  match indexOf c s with Some _ => true | None => false end.

(** The one-character string that holds a double quote. *)
Definition dq : string := String (ascii_of_nat 34) EmptyString.

End JsString.

(** ** The line protocol codec

    The body of the [data] listener that [setupMessageHandling] installs:
    [buffer += data.toString()] followed by the [while] loop that cuts the
    buffer at each newline.  A chunk is the text that [data.toString()]
    yields; [on_line] is the body of the [if (line)] block; the state [St]
    is whatever that block may change. *)

Module Codec.
Import JsString.

Section Loop.
Context {St : Type} (on_line : string → St → St).

(** One iteration of the loop per unit of fuel.  Every iteration removes
    at least the newline it found, so [String.length buffer] iterations
    are enough: see [drain_unfold]. *)
Fixpoint drain_loop (fuel : nat) (buffer : string) (st : St) : string * St :=
  match fuel with
  | 0 => (buffer, st)
  | S fuel' =>
      match indexOf newline buffer with
      | None => (buffer, st)
      | Some newlineIndex =>
          let line := trim (slice_to newlineIndex buffer) in
          let buffer' := slice_from (newlineIndex + 1) buffer in
          drain_loop fuel' buffer'
            (if is_empty line then st else on_line line st)
      end
  end.

Definition drain (buffer : string) (st : St) : string * St :=
  drain_loop (String.length buffer) buffer st.

(** The listener: the closure variable [buffer] is threaded with the
    state. *)
Definition on_data (chunk : string) (b : string * St) : string * St :=
  drain (b.1 +:+ chunk) b.2.

(** The listener run on a sequence of chunks, in order. *)
Definition feed (chunks : list string) (b : string * St) : string * St :=
  foldl (λ b chunk, on_data chunk b) b chunks.

End Loop.

(** The chunks, concatenated. *)
Fixpoint concat_chunks (chunks : list string) : string :=
  match chunks with
  | [] => EmptyString
  | c :: cs => c +:+ concat_chunks cs
  end.

(** The text of [lines], each followed by a newline. *)
Fixpoint unlines (lines : list string) : string :=
  match lines with
  | [] => EmptyString
  | l :: ls => l +:+ String newline (unlines ls)
  end.

End Codec.


(** ** JavaScript values read from the wire *)

Module Js.

(** The values [JSON.parse] returns.  Numbers are the integers of the wire
    protocol (ids, counts); other numbers do not occur in what the client
    reads. *)
Inductive json :=
| JNull
| JBool (b : bool)
| JNum (n : Z)
| JStr (s : string)
| JArr (items : list json)
| JObj (fields : list (string * json)).

(** A value as the code sees it: [None] is [undefined]. *)
Definition value := option json.

Inductive error :=
| Error (message : string)      (* [new Error("...")] *)
| ErrorOf (v : json)            (* [new Error(v)] for a [v] that is not a string *)
| TypeError (message : string).

Fixpoint assoc (key : string) (fields : list (string * json)) : value :=
  match fields with
  | [] => None
  | (k, v) :: rest => if String.eqb k key then Some v else assoc key rest
  end.

(** [v.key] for a [v] that is neither [null] nor [undefined]: only objects
    carry the properties the client reads. *)
Definition prop (v : json) (key : string) : value :=
  match v with
  | JObj fields => assoc key fields
  | _ => None
  end.

(** Truthiness, as [if (v)], [v && ...] and [v || ...] test it. *)
Definition truthy (v : value) : bool :=
  match v with
  | None => false
  | Some JNull => false
  | Some (JBool b) => b
  | Some (JNum n) => negb (Z.eqb n 0)
  | Some (JStr s) => negb (JsString.is_empty s)
  | Some (JArr _) => true
  | Some (JObj _) => true
  end.

(** [v === "text"] *)
Definition is_string (text : string) (v : value) : bool :=
  match v with
  | Some (JStr s) => String.eqb s text
  | _ => false
  end.

(** A promise is settled once; [Resolved] carries the value, [Rejected] the
    error. *)
Inductive settlement :=
| Resolved (result : value)
| Rejected (e : error).

(** The outcome of a call that may throw. *)
Inductive completion (A : Type) :=
| Normal (a : A)
| Throw (e : error).
Global Arguments Normal {A} a.
Global Arguments Throw {A} e.

(** The parts of the platform the client calls. *)
Class Platform := { JSON_parse : string → option json }.

End Js.

(** ** The transport process wrapper

    [FirecrawlMCPClient] and [MCPClient] share their fields and most of
    their methods; where the two classes differ the definitions below
    branch on the class. *)

Module Client.
Import JsString Js.

Inductive client_class := FirecrawlMCPClient | MCPClient.

(** The envelope [sendRequest] and [connect] write, before
    [JSON.stringify]; [rq_params] is [None] when the key is left out. *)
Record Request := { rq_id : Z; rq_method : string; rq_params : value }.

(** The private fields of a wrapper.  [process] names a spawned child by
    its position in the list of children; [pendingRequests] maps a request
    id to the promise of the [sendRequest] call that registered it (the
    pair of continuations the source stores). *)
Record Wrapper := {
  serverName : string;
  process : option nat;
  isConnected : bool;
  requestId : Z;
  pendingRequests : gmap Z nat }.

(** One child process, with what the [connect] call that spawned it
    closed over: the flag [initialized], the promise it returned, and the
    buffers of the [data] listeners [setupMessageHandling] installed on
    this child's stdout, in the order they were installed. *)
Record Child := {
  initialized : bool;
  connectPromise : option settlement;
  codecs : list string;
  stdin : list Request;
  killed : bool;
  closed : bool }.

Inductive Timer :=
| TInitialize (pid : nat)          (* the 1000 ms timer of [connect] *)
| TAssumeReady (pid : nat)         (* the nested 1000 ms timer, excel-mcp only *)
| THandshake (pid : nat)           (* 10000 ms or 30000 ms *)
| TRequest (id : Z) (promise : nat). (* 30000 ms or 45000 ms *)

Global Instance Timer_eq_dec : EqDecision Timer.
Proof. solve_decision. Defined.

(** What the wrapper reports while decoding: every message handed to
    [handleMessage], and every line for which the [try] block failed. *)
Inductive LogEntry :=
| Received (message : json)
| DecodeFailed (line : string).

(** The wrapper, its children, the promises of its [sendRequest] calls
    ([issued] of them so far, the settled ones in [promises]), the timers
    that are scheduled, the request ids allocated so far in order, and
    the decoding log. *)
Record World := {
  this : Wrapper;
  children : list Child;
  promises : gmap nat settlement;
  issued : nat;
  timers : list Timer;
  allocated : list Z;
  log : list LogEntry }.

Definition new_wrapper (name : string) : Wrapper :=
  {| serverName := name; process := None; isConnected := false;
     requestId := 1; pendingRequests := ∅ |}.

Definition new_world (name : string) : World :=
  {| this := new_wrapper name; children := []; promises := ∅; issued := 0;
     timers := []; allocated := []; log := [] |}.

(** *** Field updates *)

Definition set_process (p : option nat) (c : Wrapper) : Wrapper :=
  {| serverName := serverName c; process := p; isConnected := isConnected c;
     requestId := requestId c; pendingRequests := pendingRequests c |}.

Definition set_isConnected (b : bool) (c : Wrapper) : Wrapper :=
  {| serverName := serverName c; process := process c; isConnected := b;
     requestId := requestId c; pendingRequests := pendingRequests c |}.

Definition set_requestId (n : Z) (c : Wrapper) : Wrapper :=
  {| serverName := serverName c; process := process c;
     isConnected := isConnected c; requestId := n;
     pendingRequests := pendingRequests c |}.

Definition set_pendingRequests (m : gmap Z nat) (c : Wrapper) : Wrapper :=
  {| serverName := serverName c; process := process c;
     isConnected := isConnected c; requestId := requestId c;
     pendingRequests := m |}.

Definition with_this (f : Wrapper → Wrapper) (w : World) : World :=
  {| this := f (this w); children := children w; promises := promises w;
     issued := issued w; timers := timers w; allocated := allocated w;
     log := log w |}.

Definition with_children (f : list Child → list Child) (w : World) : World :=
  {| this := this w; children := f (children w); promises := promises w;
     issued := issued w; timers := timers w; allocated := allocated w;
     log := log w |}.

Definition with_child (pid : nat) (f : Child → Child) (w : World) : World :=
  with_children (alter f pid) w.

Definition with_timers (f : list Timer → list Timer) (w : World) : World :=
  {| this := this w; children := children w; promises := promises w;
     issued := issued w; timers := f (timers w); allocated := allocated w;
     log := log w |}.

Definition report (e : LogEntry) (w : World) : World :=
  {| this := this w; children := children w; promises := promises w;
     issued := issued w; timers := timers w; allocated := allocated w;
     log := log w ++ [e] |}.

(** Calling [resolve] or [reject] of promise [p]: the first call settles
    it, later calls do nothing. *)
Definition settle (p : nat) (s : settlement) (w : World) : World :=
  {| this := this w; children := children w;
     promises := match promises w !! p with
                 | Some _ => promises w
                 | None => <[p := s]> (promises w)
                 end;
     issued := issued w; timers := timers w; allocated := allocated w;
     log := log w |}.

(** A new promise for a [sendRequest] call. *)
Definition new_promise (w : World) : World :=
  {| this := this w; children := children w; promises := promises w;
     issued := S (issued w); timers := timers w; allocated := allocated w;
     log := log w |}.

(** [this.requestId++], with the id it yields. *)
Definition next_id (w : World) : Z * World :=
  let id := requestId (this w) in
  (id,
   {| this := set_requestId (id + 1)%Z (this w); children := children w;
      promises := promises w; issued := issued w; timers := timers w;
      allocated := allocated w ++ [id]; log := log w |}).

Definition set_initialized (ch : Child) : Child :=
  {| initialized := true; connectPromise := connectPromise ch;
     codecs := codecs ch; stdin := stdin ch; killed := killed ch;
     closed := closed ch |}.

Definition settle_connect (s : settlement) (ch : Child) : Child :=
  {| initialized := initialized ch;
     connectPromise := match connectPromise ch with
                       | Some s' => Some s'
                       | None => Some s
                       end;
     codecs := codecs ch; stdin := stdin ch; killed := killed ch;
     closed := closed ch |}.

Definition set_codecs (bs : list string) (ch : Child) : Child :=
  {| initialized := initialized ch; connectPromise := connectPromise ch;
     codecs := bs; stdin := stdin ch; killed := killed ch;
     closed := closed ch |}.

Definition write (r : Request) (ch : Child) : Child :=
  {| initialized := initialized ch; connectPromise := connectPromise ch;
     codecs := codecs ch; stdin := stdin ch ++ [r]; killed := killed ch;
     closed := closed ch |}.

Definition kill (ch : Child) : Child :=
  {| initialized := initialized ch; connectPromise := connectPromise ch;
     codecs := codecs ch; stdin := stdin ch; killed := true;
     closed := closed ch |}.

Definition close (ch : Child) : Child :=
  {| initialized := initialized ch; connectPromise := connectPromise ch;
     codecs := codecs ch; stdin := stdin ch; killed := killed ch;
     closed := true |}.

Definition is_initialized (pid : nat) (w : World) : bool :=
  match children w !! pid with
  | Some ch => initialized ch
  | None => false
  end.

(** *** [handleMessage] *)

(** [this.pendingRequests.get(message.id)] under the guard
    [message.id && this.pendingRequests.has(message.id)]: the keys of the
    map are numbers, so only a number can be found. *)
Definition pending_for (id : value) (c : Wrapper) : option (Z * nat) :=
  if truthy id then
    match id with
    | Some (JNum n) => (λ p, (n, p)) <$> pendingRequests c !! n
    | _ => None
    end
  else None.

(** [new Error(message.error.message || 'MCP request failed')] *)
Definition remote_error (err : json) : error :=
  let m := prop err "message" in
  if truthy m then
    match m with
    | Some (JStr s) => Error s
    | Some v => ErrorOf v
    | None => Error "MCP request failed"
    end
  else Error "MCP request failed".

(** The test of the block headed [// Handle initialization response],
    which only [MCPClient] has. *)
Definition is_initialize_response (message : json) : bool :=
  is_string "initialize" (prop message "method") ||
  (truthy (prop message "result") &&
   match prop message "result" with
   | Some r => truthy (prop r "serverInfo")
   | None => false
   end).

(** [handleMessage(message)].  Reading [message.id] of [null] throws before
    anything is changed; no other read can throw.  The result is the world
    after the call and the exception that left it, if any. *)
Definition handleMessage (cls : client_class) (message : json) (w : World)
  : World * option error :=
  match message with
  | JNull => (w, Some (TypeError "Cannot read properties of null (reading 'id')"))
  | _ =>
      let w1 :=
        match pending_for (prop message "id") (this w) with
        | Some (id, p) =>
            let w' := with_this (λ c, set_pendingRequests
                                        (delete id (pendingRequests c)) c) w in
            match prop message "error" with
            | Some err =>
                if truthy (Some err) then settle p (Rejected (remote_error err)) w'
                else settle p (Resolved (prop message "result")) w'
            | None => settle p (Resolved (prop message "result")) w'
            end
        | None => w
        end in
      match cls with
      | FirecrawlMCPClient => (w1, None)
      | MCPClient =>
          if is_initialize_response message
          then (with_this (set_isConnected true) w1, None)
          else (w1, None)
      end
  end.

(** *** [setupMessageHandling] *)

(** The body of [if (line) { try { ... } catch { console.error(...) } }]. *)
Definition on_line `{Platform} (cls : client_class) (line : string) (w : World)
  : World :=
  match JSON_parse line with
  | None => report (DecodeFailed line) w
  | Some message =>
      match handleMessage cls message (report (Received message) w) with
      | (w', None) => w'
      | (w', Some _) => report (DecodeFailed line) w'
      end
  end.

(** [setupMessageHandling()]: one more [data] listener, with its own empty
    buffer, on the stdout of the child [this.process] refers to now. *)
Definition setupMessageHandling (w : World) : World :=
  match process (this w) with
  | None => w
  | Some pid => with_child pid (λ ch, set_codecs (codecs ch ++ [EmptyString]) ch) w
  end.

(** The [i]-th listener of child [pid] receives [chunk]. *)
Definition run_codec `{Platform} (cls : client_class) (pid i : nat)
    (chunk : string) (w : World) : World :=
  match children w !! pid ≫= (λ ch, codecs ch !! i) with
  | None => w
  | Some buffer =>
      let r := Codec.on_data (on_line cls) chunk (buffer, w) in
      with_child pid (λ ch, set_codecs (<[i := r.1]> (codecs ch)) ch) r.2
  end.

(** *** [connect] *)

(** The readiness markers the [data] listeners of [connect] look for. *)
Definition has_marker (cls : client_class) (output : string) : bool :=
  match cls with
  | FirecrawlMCPClient =>
      includes "Firecrawl MCP Server initialized successfully" output
  | MCPClient =>
      includes "initialized" output || includes "Excel MCP Server" output
      || includes "Stdio mode" output
  end.

(** The listener [connect] puts on stderr (both classes) and on stdout
    ([MCPClient]); [pid] is the child of that [connect] call. *)
Definition ready_listener (cls : client_class) (pid : nat) (output : string)
    (w : World) : World :=
  if has_marker cls output && negb (is_initialized pid w) then
    let w1 := with_child pid set_initialized w in
    let w2 := setupMessageHandling w1 in
    let w3 := with_this (set_isConnected true) w2 in
    with_child pid (settle_connect (Resolved None)) w3
  else w.

Definition new_child : Child :=
  {| initialized := false; connectPromise := None; codecs := [];
     stdin := []; killed := false; closed := false |}.

Definition handshake_timeout_ms (cls : client_class) : Z :=
  match cls with FirecrawlMCPClient => 10000 | MCPClient => 30000 end.

(** [connect()]: nothing when [isConnected]; otherwise a child is spawned
    and becomes [this.process], the listeners and timers are set up, and
    [MCPClient] installs a first codec at once
    ([// Setup message handling immediately for stdio transport]). *)
Definition connect (cls : client_class) (w : World) : World :=
  if isConnected (this w) then w
  else
    let pid := length (children w) in
    let w1 := with_children (λ cs, cs ++ [new_child]) w in
    let w2 := with_this (set_process (Some pid)) w1 in
    match cls with
    | FirecrawlMCPClient => with_timers (λ ts, ts ++ [THandshake pid]) w2
    | MCPClient =>
        with_timers (λ ts, ts ++ [TInitialize pid; THandshake pid])
          (setupMessageHandling w2)
    end.

Definition initialize_params : json :=
  JObj [("protocolVersion", JStr "2024-11-05");
        ("capabilities", JObj [("tools", JObj [])]);
        ("clientInfo", JObj [("name", JStr "chatbot-ui");
                             ("version", JStr "1.0.0")])].

(** The body of the 1000 ms timer of [MCPClient.connect]. *)
Definition send_initialize (pid : nat) (w : World) : World :=
  match process (this w) with
  | None => w
  | Some cur =>
      let (id, w1) := next_id w in
      let initRequest := {| rq_id := id; rq_method := "initialize";
                            rq_params := Some initialize_params |} in
      let w2 := with_child cur (write initRequest) w1 in
      if String.eqb (serverName (this w)) "excel-mcp"
      then with_timers (λ ts, ts ++ [TAssumeReady pid]) w2
      else w2
  end.

Definition assume_ready (pid : nat) (w : World) : World :=
  if is_initialized pid w then w
  else
    let w1 := with_child pid set_initialized w in
    let w2 := with_this (set_isConnected true) w1 in
    with_child pid (settle_connect (Resolved None)) w2.

Definition handshake_timeout_error (cls : client_class) (name : string) : error :=
  match cls with
  | FirecrawlMCPClient => Error "MCP server failed to initialize within timeout"
  | MCPClient =>
      Error ("MCP server " +:+ name +:+ " failed to initialize within timeout")
  end.

Definition handshake_timeout (cls : client_class) (pid : nat) (w : World) : World :=
  if is_initialized pid w then w
  else with_child pid
         (settle_connect (Rejected (handshake_timeout_error cls (serverName (this w))))) w.

(** *** [sendRequest] *)

Definition request_timeout_ms (cls : client_class) : Z :=
  match cls with FirecrawlMCPClient => 30000 | MCPClient => 45000 end.

Definition not_connected_error (cls : client_class) (name : string) : error :=
  match cls with
  | FirecrawlMCPClient => Error "MCP client not connected"
  | MCPClient => Error ("MCP client (" +:+ name +:+ ") not connected")
  end.

Definition request_timeout_error (cls : client_class) (name : string) : error :=
  match cls with
  | FirecrawlMCPClient => Error "MCP request timeout"
  | MCPClient => Error ("MCP request timeout (" +:+ name +:+ ")")
  end.

(** [sendRequest(method, params)] up to the point where it returns its
    promise, which is promise number [issued w].  Without a process the
    promise is rejected at once and no id is taken. *)
Definition sendRequest (cls : client_class) (method : string) (params : value)
    (w : World) : World :=
  let p := issued w in
  match process (this w) with
  | None =>
      settle p (Rejected (not_connected_error cls (serverName (this w))))
        (new_promise w)
  | Some pid =>
      let (id, w1) := next_id (new_promise w) in
      let request := {| rq_id := id; rq_method := method;
                        rq_params := if truthy params then params else None |} in
      let w2 := with_this (λ c, set_pendingRequests
                                  (<[id := p]> (pendingRequests c)) c) w1 in
      let w3 := with_child pid (write request) w2 in
      with_timers (λ ts, ts ++ [TRequest id p]) w3
  end.

(** The body of the timer [sendRequest] sets. *)
Definition request_timeout (cls : client_class) (id : Z) (p : nat) (w : World)
  : World :=
  match pendingRequests (this w) !! id with
  | Some _ =>
      settle p (Rejected (request_timeout_error cls (serverName (this w))))
        (with_this (λ c, set_pendingRequests (delete id (pendingRequests c)) c) w)
  | None => w
  end.

(** *** [disconnect] *)

Definition disconnect (w : World) : World :=
  if isConnected (this w) then
    let w1 := match process (this w) with
              | Some pid => with_child pid kill w
              | None => w
              end in
    with_this (λ c, set_pendingRequests ∅
                      (set_isConnected false (set_process None c))) w1
  else w.

(** *** The event loop *)

Inductive Event :=
| CallConnect
| CallSendRequest (method : string) (params : value)
| CallDisconnect
| StderrData (pid : nat) (chunk : string)
| StdoutData (pid : nat) (chunk : string)
| ProcessError (pid : nat)
| ProcessClose (pid : nat)
| TimerFires (t : Timer).

Definition is_open (pid : nat) (w : World) : bool :=
  match children w !! pid with
  | Some ch => negb (closed ch)
  | None => false
  end.

(** The [data] event of a child's stdout: the listeners that are
    registered when the event is emitted run in the order they were added,
    the readiness listener of [MCPClient.connect] before the codecs.  A
    listener added while the event is handled does not see this chunk.  A
    stream that has no listener yet does not emit (Node.js keeps the data
    until one is attached), so for such a stream the event changes
    nothing. *)
Definition stdout_data `{Platform} (cls : client_class) (pid : nat)
    (chunk : string) (w : World) : World :=
  match children w !! pid with
  | None => w
  | Some ch =>
      let listening := seq 0 (length (codecs ch)) in
      let w1 := match cls with
                | MCPClient => ready_listener cls pid chunk w
                | FirecrawlMCPClient => w
                end in
      foldl (λ w i, run_codec cls pid i chunk w) w1 listening
  end.

Definition run_timer (cls : client_class) (t : Timer) (w : World) : World :=
  match t with
  | TInitialize pid => send_initialize pid w
  | TAssumeReady pid => assume_ready pid w
  | THandshake pid => handshake_timeout cls pid w
  | TRequest id p => request_timeout cls id p w
  end.

(** Remove the first occurrence of [t]. *)
Fixpoint cancel (t : Timer) (ts : list Timer) : list Timer :=
  match ts with
  | [] => []
  | t' :: ts' => if decide (t = t') then ts' else t' :: cancel t ts'
  end.

Definition step `{Platform} (cls : client_class) (e : Event) (w : World) : World :=
  match e with
  | CallConnect => connect cls w
  | CallSendRequest method params => sendRequest cls method params w
  | CallDisconnect => disconnect w
  | StderrData pid chunk =>
      if is_open pid w then ready_listener cls pid chunk w else w
  | StdoutData pid chunk =>
      if is_open pid w then stdout_data cls pid chunk w else w
  | ProcessError pid =>
      if is_initialized pid w then w
      else with_child pid
             (settle_connect (Rejected (Error "spawn error"))) w
  | ProcessClose pid =>
      if is_open pid w then
        with_this (λ c, set_process None (set_isConnected false c))
          (with_child pid close w)
      else w
  | TimerFires t =>
      if decide (t ∈ timers w)
      then run_timer cls t (with_timers (cancel t) w)
      else w
  end.

Definition run `{Platform} (cls : client_class) (es : list Event) (w : World)
  : World :=
  foldl (λ w e, step cls e w) w es.

(** *** Vocabulary of the properties *)

(** [w'] differs from [w] at most by pending entries that were removed,
    promises of removed entries that were settled, and by the connection
    flag, the children and the log. *)
Record settles_only (w w' : World) : Prop := {
  so_allocated : allocated w' = allocated w;
  so_requestId : requestId (this w') = requestId (this w);
  so_serverName : serverName (this w') = serverName (this w);
  so_process : process (this w') = process (this w);
  so_issued : issued w' = issued w;
  so_timers : timers w' = timers w;
  so_pending : ∀ k p, pendingRequests (this w') !! k = Some p →
                      pendingRequests (this w) !! k = Some p;
  so_promises : ∀ p, promises w' !! p = promises w !! p ∨
                     (promises w !! p = None ∧
                      ∃ k, pendingRequests (this w) !! k = Some p ∧
                           pendingRequests (this w') !! k = None) }.

(** What holds of the requests of a wrapper in every state it reaches. *)
Record Inv (w : World) : Prop := {
  inv_next : (1 ≤ requestId (this w))%Z;
  inv_sorted : StronglySorted Z.lt (allocated w);
  inv_allocated : Forall (λ id, (1 ≤ id < requestId (this w))%Z) (allocated w);
  inv_pending : ∀ id p, pendingRequests (this w) !! id = Some p →
      (id < requestId (this w))%Z ∧ p < issued w ∧
      promises w !! p = None ∧ TRequest id p ∈ timers w;
  inv_inj : ∀ id id' p, pendingRequests (this w) !! id = Some p →
      pendingRequests (this w) !! id' = Some p → id = id';
  inv_settled : ∀ p, is_Some (promises w !! p) → p < issued w;
  inv_timer_bound : ∀ id p, TRequest id p ∈ timers w →
      (id < requestId (this w))%Z ∧ p < issued w;
  inv_timer_owner : ∀ id p p0, TRequest id p ∈ timers w →
      pendingRequests (this w) !! id = Some p0 → p0 = p }.

(** What one event does to the counter and to the keys of the pending
    map: either no id is taken and no key is added, or the id taken is the
    value of the counter, which advances by one, and it is the only key
    that may be new. *)
Definition takes_no_id (w w' : World) : Prop :=
  allocated w' = allocated w ∧
  requestId (this w') = requestId (this w) ∧
  ∀ k p, pendingRequests (this w') !! k = Some p →
         pendingRequests (this w) !! k = Some p.

(** The id taken is the value of the counter. *)
Definition takes_next_id (w w' : World) : Prop :=
  allocated w' = allocated w ++ [requestId (this w)] ∧
  requestId (this w') = (requestId (this w) + 1)%Z ∧
  ∀ k p, pendingRequests (this w') !! k = Some p →
         pendingRequests (this w) !! k = Some p ∨ k = requestId (this w).

Definition is_MCPClient (cls : client_class) : bool :=
  match cls with MCPClient => true | FirecrawlMCPClient => false end.

(** An event that is neither [disconnect()], nor the timer of the request
    [id], nor data on stdout. *)
Definition leaves_request (id : Z) (p : nat) (e : Event) : Prop :=
  match e with
  | CallDisconnect => False
  | StdoutData _ _ => False
  | TimerFires t => t ≠ TRequest id p
  | _ => True
  end.

(** The children that were neither killed nor seen to exit. *)
Definition live (w : World) : list Child :=
  List.filter (λ ch, negb (killed ch) && negb (closed ch)) (children w).

End Client.

(** ** The tool registry and the dispatcher

    [listTools], [callTool], [getAllTools], [executeTool] and
    [executeMCPTool] are [async] functions that [await] one request after
    the other.  They are modelled at the level of those [await]s: a request
    is written, and what the awaiting caller gets back (the result of the
    matching response, or the error of an error envelope or of the request
    timer) is given by the servers, which are a parameter.  The wrapper is
    left with its counter advanced and its pending map as before, which is
    what [sendRequest] followed by the response or by the timer amounts to
    (see [sendRequest_then_response] and [sendRequest_then_timeout]). *)

Module Multi.
Import JsString Js Client.

(** A tool descriptor, with the [serverName] property that [getAllTools]
    adds. *)
Record Tool := {
  tool_name : string;
  tool_description : string;
  tool_inputSchema : json;
  tool_serverName : option string }.

(** The result of a [tools/list] request as [listTools] reads it. *)
Inductive ListResult :=
| NoResult                 (* the result is [null] or [undefined] *)
| NoTools                  (* [response.tools] is missing or falsy *)
| Tools (ts : list Tool).  (* [response.tools] *)

(** How a connection attempt ends for the caller awaiting [connect()]. *)
Inductive Handshake :=
| Ready
| Failed (e : error) (exited : bool).

(** Whom a request is sent to: a server of the [MultiMCPClient], or the
    process of the singleton [firecrawlMCPClient]. *)
Inductive Target :=
| Server (name : string)
| Singleton.

Class Servers := {
  list_reply : Target → Request → completion ListResult;
  call_reply : Target → Request → completion value;
  handshake : Target → nat → Handshake;
  (** the local implementations [executeExcel...Fallback] *)
  excel_fallback : string → value → completion value }.

(** What a call does to the outside, in order. *)
Inductive Effect :=
| Spawned (t : Target)
| Wrote (t : Target) (r : Request)
| CalledListTools (t : Target)
| Stamped (now : Z).    (* [this.lastToolsRefresh = now] *)

(** Computations over a state [S] that log their effects. *)
Definition M (S A : Type) : Type := S → A * S * list Effect.

Global Instance M_ret {S} : MRet (M S) := λ A a s, (a, s, []).

Global Instance M_bind {S} : MBind (M S) :=
  λ A B k m s, let '(a, s1, e1) := m s in
               let '(b, s2, e2) := k a s1 in
               (b, s2, e1 ++ e2).

Definition get {S} : M S S := λ s, (s, s, []).
Definition put {S} (s : S) : M S unit := λ _, (tt, s, []).
Definition tell {S} (e : Effect) : M S unit := λ s, (tt, s, [e]).

(** *** The wrapper's methods, awaited *)

Definition await_sendRequest {A} (cls : client_class) (t : Target)
    (reply : Target → Request → completion A)
    (method : string) (params : value) : M Wrapper (completion A) :=
  λ c,
    match process c with
    | None => (Throw (not_connected_error cls (serverName c)), c, [])
    | Some _ =>
        let id := requestId c in
        let request := {| rq_id := id; rq_method := method;
                          rq_params := if truthy params then params else None |} in
        (reply t request, set_requestId (id + 1)%Z c, [Wrote t request])
    end.

(** [response.tools || []] *)
Definition tools_or_empty (response : ListResult) : completion (list Tool) :=
  match response with
  | NoResult => Throw (TypeError "Cannot read properties of undefined (reading 'tools')")
  | NoTools => Normal []
  | Tools ts => Normal ts
  end.

Definition and_then {A B} (r : completion A) (f : A → completion B)
  : completion B :=
  match r with
  | Normal a => f a
  | Throw e => Throw e
  end.

(** [FirecrawlMCPClient.listTools]: a failure is propagated. *)
Definition Firecrawl_listTools `{Servers} (t : Target)
  : M Wrapper (completion (list Tool)) :=
  response ← await_sendRequest FirecrawlMCPClient t list_reply "tools/list" None;
  mret (and_then response tools_or_empty).

(** [MCPClient.listTools]: the request, one retry with [{}] as parameters,
    and a [catch] whose two exits both return the empty list. *)
Definition listTools `{Servers} (t : Target) : M Wrapper (completion (list Tool)) :=
  first ← await_sendRequest MCPClient t list_reply "tools/list" None;
  response ← match first with
             | Normal r => mret (Normal r)
             | Throw _ =>
                 await_sendRequest MCPClient t list_reply "tools/list"
                   (Some (JObj []))
             end;
  c ← get;
  mret (match and_then response tools_or_empty with
       | Normal tools => Normal tools
       | Throw _ =>
           if String.eqb (serverName c) "excel-mcp" then Normal []
           else Normal []
       end).

Definition call_params (name : string) (args : value) : json :=
  JObj (("name", JStr name) ::
        match args with Some a => [("arguments", a)] | None => [] end).

(** [callTool(name, args)], the same in both classes. *)
Definition callTool `{Servers} (cls : client_class) (t : Target)
    (name : string) (args : value) : M Wrapper (completion value) :=
  await_sendRequest cls t call_reply "tools/call" (Some (call_params name args)).

(** [FirecrawlMCPClient.connect()], awaited: [pid] is the child it spawns
    when it does.  ([MCPClient.connect()], which also writes an
    [initialize] request and whose [handleMessage] can set the connection
    flag, is [MCPClient_await_connect] below.) *)
Definition await_connect `{Servers} (t : Target) (pid : nat)
  : M Wrapper (completion unit) :=
  λ c,
    if isConnected c then (Normal tt, c, [])
    else
      match handshake t pid with
      | Ready =>
          (Normal tt, set_isConnected true (set_process (Some pid) c),
           [Spawned t])
      | Failed e exited =>
          (Throw e, set_process (if exited then None else Some pid) c,
           [Spawned t])
      end.

(** *** [Map]s in insertion order *)

Fixpoint map_get {V} (k : string) (m : list (string * V)) : option V :=
  match m with
  | [] => None
  | (k', v) :: m' => if String.eqb k' k then Some v else map_get k m'
  end.

Fixpoint map_set {V} (k : string) (v : V) (m : list (string * V))
  : list (string * V) :=
  match m with
  | [] => [(k, v)]
  | (k', v') :: m' =>
      if String.eqb k' k then (k', v) :: m' else (k', v') :: map_set k v m'
  end.

(** *** [MultiMCPClient] *)

Record MultiMCPClient := {
  clients : list (string * Wrapper);
  toolsCache : list (string * list Tool);
  lastToolsRefresh : Z }.

Definition TOOLS_CACHE_TTL : Z := 5 * 60 * 1000.

Definition set_clients (cs : list (string * Wrapper)) (m : MultiMCPClient) :=
  {| clients := cs; toolsCache := toolsCache m;
     lastToolsRefresh := lastToolsRefresh m |}.

Definition set_toolsCache (tc : list (string * list Tool)) (m : MultiMCPClient) :=
  {| clients := clients m; toolsCache := tc;
     lastToolsRefresh := lastToolsRefresh m |}.

Definition set_lastToolsRefresh (t : Z) (m : MultiMCPClient) :=
  {| clients := clients m; toolsCache := toolsCache m; lastToolsRefresh := t |}.

(** The registrations of [loadConfiguration]; launch commands and
    environments play no part in what follows. *)
Definition loadConfiguration : list (string * Wrapper) :=
  map_set "excel-mcp" (new_wrapper "excel-mcp")
    (map_set "columbia-lake-agents" (new_wrapper "columbia-lake-agents")
       (map_set "firecrawl" (new_wrapper "firecrawl") [])).

Definition new_MultiMCPClient : MultiMCPClient :=
  {| clients := loadConfiguration; toolsCache := []; lastToolsRefresh := 0 |}.

(** A method of the wrapper registered under [serverName], run on it. *)
Definition on_client {A} (serverName : string) (client : Wrapper)
    (m : M Wrapper A) : M MultiMCPClient A :=
  λ st, let '(a, client', e) := m client in
        (a, set_clients (map_set serverName client' (clients st)) st, e).

(** An [inputSchema] of type [object]; of each property only the name is
    kept. *)
Definition object_schema (properties required : list string) : json :=
  JObj [("type", JStr "object");
        ("properties", JObj (map (λ p, (p, JObj [])) properties));
        ("required", JArr (map JStr required))].

Definition static_tool (name description : string)
    (properties required : list string) : Tool :=
  {| tool_name := name; tool_description := description;
     tool_inputSchema := object_schema properties required;
     tool_serverName := None |}.

Definition getExcelMCPServerTools : list Tool := [
  static_tool "apply_formula"
    "Apply Excel formula to cell with verification"
    ["filepath"; "sheet_name"; "cell"; "formula"]
    ["filepath"; "sheet_name"; "cell"; "formula"];
  static_tool "validate_formula_syntax"
    "Validate Excel formula syntax without applying it"
    ["filepath"; "sheet_name"; "cell"; "formula"]
    ["filepath"; "sheet_name"; "cell"; "formula"];
  static_tool "read_data_from_excel"
    "Read data from Excel worksheet with cell metadata including validation rules"
    ["filepath"; "sheet_name"; "start_cell"; "end_cell"; "preview_only"]
    ["filepath"; "sheet_name"];
  static_tool "write_data_to_excel"
    "Write data to Excel worksheet"
    ["filepath"; "sheet_name"; "data"; "start_cell"]
    ["filepath"; "sheet_name"; "data"];
  static_tool "create_workbook"
    "Create new Excel workbook"
    ["filepath"]
    ["filepath"];
  static_tool "create_worksheet"
    "Create new worksheet in workbook"
    ["filepath"; "sheet_name"]
    ["filepath"; "sheet_name"];
  static_tool "create_chart"
    "Create charts and graphs in Excel"
    ["filepath"; "sheet_name"; "data_range"; "chart_type"; "target_cell"; "title"; "x_axis"; "y_axis"]
    ["filepath"; "sheet_name"; "data_range"; "chart_type"; "target_cell"];
  static_tool "create_pivot_table"
    "Create pivot table in Excel worksheet"
    ["filepath"; "sheet_name"; "data_range"; "rows"; "values"; "columns"; "agg_func"]
    ["filepath"; "sheet_name"; "data_range"; "rows"; "values"];
  static_tool "create_table"
    "Create Excel table"
    ["filepath"; "sheet_name"; "data_range"; "table_name"; "table_style"]
    ["filepath"; "sheet_name"; "data_range"];
  static_tool "copy_worksheet"
    "Copy worksheet"
    ["filepath"; "source_sheet"; "target_sheet"]
    ["filepath"; "source_sheet"; "target_sheet"];
  static_tool "delete_worksheet"
    "Delete worksheet"
    ["filepath"; "sheet_name"]
    ["filepath"; "sheet_name"];
  static_tool "rename_worksheet"
    "Rename worksheet"
    ["filepath"; "old_name"; "new_name"]
    ["filepath"; "old_name"; "new_name"];
  static_tool "get_workbook_metadata"
    "Get metadata about workbook including sheets and ranges"
    ["filepath"; "include_ranges"]
    ["filepath"];
  static_tool "merge_cells"
    "Merge a range of cells"
    ["filepath"; "sheet_name"; "start_cell"; "end_cell"]
    ["filepath"; "sheet_name"; "start_cell"; "end_cell"];
  static_tool "unmerge_cells"
    "Unmerge a previously merged range of cells"
    ["filepath"; "sheet_name"; "start_cell"; "end_cell"]
    ["filepath"; "sheet_name"; "start_cell"; "end_cell"];
  static_tool "get_merged_cells"
    "Get merged cells in a worksheet"
    ["filepath"; "sheet_name"]
    ["filepath"; "sheet_name"];
  static_tool "copy_range"
    "Copy cell range"
    ["filepath"; "sheet_name"; "source_start"; "source_end"; "target_start"; "target_sheet"]
    ["filepath"; "sheet_name"; "source_start"; "source_end"; "target_start"];
  static_tool "delete_range"
    "Delete cell range"
    ["filepath"; "sheet_name"; "start_cell"; "end_cell"; "shift_direction"]
    ["filepath"; "sheet_name"; "start_cell"; "end_cell"];
  static_tool "validate_excel_range"
    "Validate Excel range"
    ["filepath"; "sheet_name"; "start_cell"; "end_cell"]
    ["filepath"; "sheet_name"; "start_cell"];
  static_tool "search_excel_files"
    ("Search for Excel files on the filesystem. Use " +:+ dq +:+ "." +:+ dq +:+ " for current directory or absolute paths like " +:+ dq +:+ "/Users/username" +:+ dq +:+ " instead of " +:+ dq +:+ "~" +:+ dq +:+ ".")
    ["search_path"; "filename_pattern"; "include_subdirs"; "max_results"]
    [];
  static_tool "get_common_excel_locations"
    "Get common locations where Excel files are typically stored"
    []
    [];
  static_tool "get_data_validation_info"
    "Get all data validation rules in a worksheet"
    ["filepath"; "sheet_name"]
    ["filepath"; "sheet_name"];
  static_tool "format_range"
    "Apply formatting to a range of cells"
    ["filepath"; "sheet_name"; "start_cell"; "end_cell"; "bold"; "italic"; "underline"; "font_size"; "font_color"; "bg_color"; "border_style"; "border_color"; "number_format"; "alignment"; "wrap_text"; "merge_cells"]
    ["filepath"; "sheet_name"; "start_cell"]].

(** The object [getAllTools] builds for each tool:
    [{...tool, name: `${serverName}_${tool.name}`, serverName}]. *)
Definition prefixed (serverName : string) (tool : Tool) : Tool :=
  {| tool_name := serverName +:+ "_" +:+ tool_name tool;
     tool_description := tool_description tool;
     tool_inputSchema := tool_inputSchema tool;
     tool_serverName := Some serverName |}.

(** One turn of the [for] loop of [getAllTools]: [allTools] before and
    after. *)
Definition refresh_server `{Servers} (allTools : list Tool) (serverName : string)
  : M MultiMCPClient (list Tool) :=
  st ← get;
  match map_get serverName (clients st) with
  | None => mret allTools
  | Some client =>
      if isConnected client then
        r ← (if String.eqb serverName "excel-mcp"
             then mret (Normal getExcelMCPServerTools)
             else (tell (CalledListTools (Server serverName));;
                   on_client serverName client (listTools (Server serverName))));
        match r with
        | Throw _ =>
            if String.eqb serverName "excel-mcp" then
              let prefixedTools := map (prefixed serverName) getExcelMCPServerTools in
              st' ← get;
              (put (set_toolsCache (map_set serverName prefixedTools (toolsCache st')) st');;
               mret (allTools ++ prefixedTools))
            else mret allTools
        | Normal tools =>
            let prefixedTools := map (prefixed serverName) tools in
            st' ← get;
            (put (set_toolsCache (map_set serverName prefixedTools (toolsCache st')) st');;
             mret (allTools ++ prefixedTools))
        end
      else mret allTools
  end.

Fixpoint for_each {S A B} (f : B → A → M S B) (b : B) (xs : list A) : M S B :=
  match xs with
  | [] => mret b
  | x :: xs' => b' ← f b x; for_each f b' xs'
  end.

(** [getAllTools()], called when [Date.now()] is [now]. *)
Definition getAllTools `{Servers} (now : Z) : M MultiMCPClient (list Tool) :=
  st ← get;
  if Z.ltb (now - lastToolsRefresh st) TOOLS_CACHE_TTL
     && Nat.ltb 0 (length (toolsCache st))
  then mret (concat (map snd (toolsCache st)))
  else
    allTools ← for_each refresh_server [] (map fst (clients st));
    st' ← get;
    (put (set_lastToolsRefresh now st');;
     tell (Stamped now);;
     mret allTools).

Definition excel_fallback_tools : list string :=
  ["search_excel_files"; "get_common_excel_locations";
   "read_data_from_excel"; "get_workbook_metadata"].

(** [executeTool(toolName, args)] *)
Definition executeTool `{Servers} (toolName : string) (args : value)
  : M MultiMCPClient (completion value) :=
  let parts := split underscore toolName in
  let serverName := hd EmptyString parts in
  let actualToolName := join "_" (tail parts) in
  st ← get;
  match map_get serverName (clients st) with
  | None => mret (Throw (Error ("Unknown MCP server: " +:+ serverName)))
  | Some client =>
      if negb (isConnected client) then
        mret (Throw (Error ("MCP server " +:+ serverName +:+ " is not connected")))
      else if String.eqb serverName "excel-mcp" then
        if bool_decide (actualToolName ∈ excel_fallback_tools)
        then mret (excel_fallback actualToolName args)
        else mret (Throw (Error ("Excel MCP tool " +:+ actualToolName
                                +:+ " not implemented in fallback")))
      else
        on_client serverName client
          (callTool MCPClient (Server serverName) actualToolName args)
  end.

(** *** [executeMCPTool] of [mcp-integration.ts] *)

(** The two module-level singletons, and the number of children the
    singleton [firecrawlMCPClient] has spawned. *)
Record App := {
  multiMCPClient : MultiMCPClient;
  firecrawlMCPClient : Wrapper;
  firecrawl_children : nat }.

Definition on_multi {A} (m : M MultiMCPClient A) : M App A :=
  λ app, let '(a, mc, e) := m (multiMCPClient app) in
         (a, {| multiMCPClient := mc;
                firecrawlMCPClient := firecrawlMCPClient app;
                firecrawl_children := firecrawl_children app |}, e).

Definition is_spawn (e : Effect) : bool :=
  match e with Spawned _ => true | _ => false end.

Definition on_firecrawl {A} (m : M Wrapper A) : M App A :=
  λ app, let '(a, c, e) := m (firecrawlMCPClient app) in
         (a, {| multiMCPClient := multiMCPClient app;
                firecrawlMCPClient := c;
                firecrawl_children :=
                  firecrawl_children app
                  + length (List.filter is_spawn e) |}, e).

Definition executeMCPTool `{Servers} (toolName : string) (args : value)
  : M App (completion value) :=
  if includes "_" toolName then
    on_multi (executeTool toolName args)
  else
    app ← get;
    connected ← on_firecrawl (await_connect Singleton (firecrawl_children app));
    match connected with
    | Throw e => mret (Throw e)
    | Normal _ =>
        on_firecrawl (callTool FirecrawlMCPClient Singleton toolName args)
    end.

(** *** Vocabulary of the properties *)

(** Every effect of [executeTool] is a request written to a server of the
    [MultiMCPClient]. *)
Definition to_a_server (e : Effect) : Prop :=
  match e with
  | Wrote (Server _) _ => True
  | _ => False
  end.

(** What [executeMCPTool] may do on the singleton client: spawn its
    process and write to it. *)
Definition on_singleton (e : Effect) : Prop :=
  match e with
  | Spawned Singleton => True
  | Wrote Singleton _ => True
  | _ => False
  end.

(** A request that forwards the call: [tools/call] with the name as it
    was given. *)
Definition forwards (toolName : string) (args : value) (e : Effect) : Prop :=
  match e with
  | Wrote _ r =>
      rq_method r = "tools/call" ∧ rq_params r = Some (call_params toolName args)
  | _ => True
  end.

(** [getConnectionStatus()] of the wrapper registered under [name]. *)
Definition connected_to (st : MultiMCPClient) (name : string) : bool :=
  match map_get name (clients st) with
  | Some c => isConnected c
  | None => false
  end.

(** The servers [getAllTools] calls [listTools] on. *)
Definition polled (st : MultiMCPClient) (name : string) : bool :=
  connected_to st name && negb (String.eqb name "excel-mcp").

(** The [listTools] calls among the effects, in order. *)
Definition discovery_rounds (es : list Effect) : list Target :=
  omap (λ e, match e with CalledListTools t => Some t | _ => None end) es.

(** A request written to a process. *)
Definition is_request (e : Effect) : bool :=
  match e with Wrote _ _ => true | _ => false end.

(** The assignment to [lastToolsRefresh]. *)
Definition is_stamp (e : Effect) : bool :=
  match e with Stamped _ => true | _ => false end.

(** A [tools/list] request to [t], or the call of [listTools] on [t]. *)
Definition discovers (t : Target) (e : Effect) : Prop :=
  match e with
  | Wrote t' r => t' = t ∧ rq_method r = "tools/list"
  | CalledListTools t' => t' = t
  | _ => False
  end.

(** Where a list of tools can come from. *)
Definition reported_by `{Servers} (name : string) (tools : list Tool) : Prop :=
  tools = [] ∨
  (name = "excel-mcp" ∧ tools = getExcelMCPServerTools) ∨
  (∃ r, list_reply (Server name) r = Normal (Tools tools)).

(** A slice of the cache or of the result: the tools one server
    reported, each with the server's prefix. *)
Definition slice_of `{Servers} (entry : string * list Tool) : Prop :=
  ∃ tools, reported_by entry.1 tools ∧ entry.2 = map (prefixed entry.1) tools.

(** [toolsCache.set] for each slice, in order. *)
Definition store_slices (slices : list (string * list Tool))
    (cache : list (string * list Tool)) : list (string * list Tool) :=
  foldl (λ c entry, map_set entry.1 entry.2 c) cache slices.

(** The test that guards the cached path of [getAllTools]. *)
Definition cache_is_fresh (now : Z) (st : MultiMCPClient) : bool :=
  Z.ltb (now - lastToolsRefresh st) TOOLS_CACHE_TTL
  && Nat.ltb 0 (length (toolsCache st)).

(** A slice made of tools with distinct names, each with the prefix of
    the server it is stored under. *)
Definition distinct_slice (entry : string * list Tool) : Prop :=
  ∃ tools, entry.2 = map (prefixed entry.1) tools ∧ NoDup (map tool_name tools).





(** The cache holds one slice per server name, each under a registered
    name and made of that server's tools, prefixed. *)
Definition cache_ok (st : MultiMCPClient) : Prop :=
  NoDup (map fst (toolsCache st)) ∧
  Forall distinct_slice (toolsCache st) ∧
  Forall (λ e, e.1 ∈ map fst (clients st)) (toolsCache st).

End Multi.

(** ** Sample traffic *)

Module Sample.
Import JsString Js Client.

Definition quoted (s : string) : string := dq +:+ s +:+ dq.

Definition eol : string := String newline EmptyString.

(** The banner the Firecrawl server prints on stderr. *)
Definition firecrawl_banner : string :=
  "Firecrawl MCP Server initialized successfully" +:+ eol.

(** [{"jsonrpc":"2.0","id":2,"result":{}}] *)
Definition response_line : string :=
  "{" +:+ quoted "jsonrpc" +:+ ":" +:+ quoted "2.0" +:+ "," +:+
  quoted "id" +:+ ":2," +:+ quoted "result" +:+ ":{}}".

Definition response_message : json :=
  JObj [("jsonrpc", JStr "2.0"); ("id", JNum 2); ("result", JObj [])].

(** The response of a server to the [initialize] request, which [connect]
    sends with id 1. *)
Definition initialize_response : json :=
  JObj [("jsonrpc", JStr "2.0"); ("id", JNum 1);
        ("result", JObj [("protocolVersion", JStr "2024-11-05");
                         ("serverInfo", JObj [("name", JStr "firecrawl")])])].

(** A platform whose [JSON.parse] knows [response_line]. *)
Definition platform : Platform :=
  {| JSON_parse := λ line,
       if String.eqb line response_line then Some response_message else None |}.

End Sample.

(** ** Sample servers *)

Module SampleServers.
Import JsString Js Client Multi.

(** Servers that answer every request with an error envelope, and
    handshakes that succeed. *)
Definition failing : Servers :=
  {| list_reply := λ _ _, Throw (Error "Method not found");
     call_reply := λ _ _, Throw (Error "Method not found");
     handshake := λ _ _, Ready;
     excel_fallback := λ _ _, Throw (Error "ENOENT") |}.

Definition scrape : Tool :=
  {| tool_name := "scrape"; tool_description := "Scrape a page";
     tool_inputSchema := object_schema ["url"] ["url"];
     tool_serverName := None |}.


Definition crawl : Tool :=
  {| tool_name := "crawl"; tool_description := "Crawl a site";
     tool_inputSchema := object_schema ["url"; "limit"] ["url"];
     tool_serverName := None |}.

(** Servers that list two tools. *)
Definition listing : Servers :=
  {| list_reply := λ _ _, Normal (Tools [scrape; crawl]);
     call_reply := λ _ _, Normal None;
     handshake := λ _ _, Ready;
     excel_fallback := λ _ _, Normal None |}.

(** A wrapper after a successful [connect()]. *)
Definition connected (name : string) : Wrapper :=
  set_isConnected true (set_process (Some 0) (new_wrapper name)).

(** The [MultiMCPClient] with the servers in [names] connected. *)
Definition with_connected (names : list string) : MultiMCPClient :=
  set_clients
    (foldr (λ name, map_set name (connected name)) loadConfiguration names)
    new_MultiMCPClient.

End SampleServers.

(** ** The other methods of [MultiMCPClient]

    [connectAll], [disconnectAll], [getConnectedServers] and
    [getServerTools], at the level of the awaited calls, like
    [getAllTools] and [executeTool] above. *)

Module Fleet.
Import JsString Js Client Multi.

(** What [disconnect()] does to the fields of a wrapper ([kill()] is on
    the child, which the registry does not hold). *)
Definition disconnect_fields (c : Wrapper) : Wrapper :=
  if isConnected c
  then set_pendingRequests ∅ (set_isConnected false (set_process None c))
  else c.

(** What happened on the child of an [MCPClient] between its spawn and
    the moment [connect()] settled, besides what settled it: whether the
    1000 ms timer found the process in place and wrote the [initialize]
    request, and whether [handleMessage] took a message of the child for
    the initialization response (its method is [initialize], or its result
    carries [serverInfo]). *)
Record Attempt := {
  sent_initialize : bool;
  seen_initialization : bool }.

Class Initialization := { attempt : Target → nat → Attempt }.

(** The [initialize] request [connect()] writes when the counter is
    [id]; it is not registered in the pending map. *)
Definition initialize_request (id : Z) : Request :=
  {| rq_id := id; rq_method := "initialize";
     rq_params := Some initialize_params |}.

(** [MCPClient.connect()], awaited: [pid] is the child it spawns when it
    does.  The promise is resolved when a marker was seen (or, for
    [excel-mcp], when readiness was assumed), and rejected by an [error]
    event or by the 30000 ms timer.  When it is rejected the wrapper is
    connected all the same if the initialization response was seen,
    unless the child has exited: the [close] listener clears the flag and
    the process.  What happens after [connect()] has settled is not part
    of the call. *)
Definition MCPClient_await_connect `{Servers} `{Initialization} (t : Target)
    (pid : nat) : M Wrapper (completion unit) :=
  λ c,
    if isConnected c then (Normal tt, c, [])
    else
      let a := attempt t pid in
      let id := requestId c in
      let c1 := if sent_initialize a then set_requestId (id + 1)%Z c else c in
      let written := if sent_initialize a
                     then [Wrote t (initialize_request id)] else [] in
      match handshake t pid with
      | Ready =>
          (Normal tt, set_isConnected true (set_process (Some pid) c1),
           Spawned t :: written)
      | Failed e exited =>
          (Throw e,
           if exited then set_process None c1
           else set_isConnected (seen_initialization a)
                  (set_process (Some pid) c1),
           Spawned t :: written)
      end.

(** One of the [async] arrows of [connectAll]: [await client.connect()]
    inside a [try] whose [catch] logs the failure and drops it. *)
Definition connect_one `{Servers} `{Initialization} (next_child : string → nat)
    (_ : unit) (name : string) : M MultiMCPClient unit :=
  st ← get;
  match map_get name (clients st) with
  | None => mret tt
  | Some client =>
      on_client name client
        (MCPClient_await_connect (Server name) (next_child name));;
      mret tt
  end.

(** [connectAll()]: the arrows are started in registration order, so the
    children are spawned in that order; each arrow changes its own wrapper
    only.  [next_child name] is the child that the wrapper [name] spawns
    next. *)
Definition connectAll `{Servers} `{Initialization} (next_child : string → nat)
  : M MultiMCPClient unit :=
  st ← get;
  for_each (connect_one next_child) tt (map fst (clients st)).

(** [disconnectAll()] *)
Definition disconnectAll : M MultiMCPClient unit :=
  st ← get;
  put {| clients := map (λ entry, (entry.1, disconnect_fields entry.2))
                      (clients st);
         toolsCache := [];
         lastToolsRefresh := lastToolsRefresh st |}.

(** [getConnectedServers()] *)
Definition getConnectedServers (st : MultiMCPClient) : list string :=
  map fst (List.filter (λ entry, isConnected entry.2) (clients st)).

(** [getServerTools(serverName)] *)
Definition getServerTools `{Servers} (serverName : string)
  : M MultiMCPClient (list Tool) :=
  st ← get;
  match map_get serverName (clients st) with
  | None => mret []
  | Some client =>
      if negb (isConnected client) then mret []
      else
        r ← on_client serverName client (listTools (Server serverName));
        match r with
        | Normal tools => mret tools
        | Throw _ =>
            if String.eqb serverName "excel-mcp"
            then mret getExcelMCPServerTools
            else mret []
        end
  end.

(** The request [callTool(name, args)] writes when the counter is [id]. *)
Definition call_request (id : Z) (name : string) (args : value) : Request :=
  {| rq_id := id; rq_method := "tools/call";
     rq_params := Some (call_params name args) |}.

(** The wrapper [name] is connected when the [connect()] that spawns its
    next child has settled: the promise was resolved, or it was rejected
    after the initialization response was seen and the child has not
    exited. *)
Definition ends_connected `{Servers} `{Initialization}
    (next_child : string → nat) (name : string) : bool :=
  match handshake (Server name) (next_child name) with
  | Ready => true
  | Failed _ exited =>
      negb exited
      && seen_initialization (attempt (Server name) (next_child name))
  end.

(** What the [connect()] of the wrapper [name] does to the outside when
    the wrapper is not connected: the spawn, and the [initialize] request
    when the timer wrote it. *)
Definition attempt_effects `{Initialization} (next_child : string → nat)
    (st : MultiMCPClient) (name : string) : list Effect :=
  match map_get name (clients st) with
  | None => []
  | Some c =>
      Spawned (Server name) ::
      if sent_initialize (attempt (Server name) (next_child name))
      then [Wrote (Server name) (initialize_request (requestId c))] else []
  end.


End Fleet.

(** ** Sample handshakes *)

Module SampleHandshakes.
Import JsString Js Client Multi Fleet Sample.

(** The line that carries [initialize_response]. *)
Definition initialize_line : string :=
  "{" +:+ quoted "jsonrpc" +:+ ":" +:+ quoted "2.0" +:+ "," +:+
  quoted "id" +:+ ":1," +:+ quoted "result" +:+ ":{" +:+
  quoted "protocolVersion" +:+ ":" +:+ quoted "2024-11-05" +:+ "," +:+
  quoted "serverInfo" +:+ ":{" +:+ quoted "name" +:+ ":" +:+
  quoted "firecrawl" +:+ "}}}".

(** A platform whose [JSON.parse] knows [initialize_line]. *)
Definition initialize_platform : Platform :=
  {| JSON_parse := λ line,
       if String.eqb line initialize_line then Some initialize_response
       else None |}.

(** Servers that print no marker: [connect()] is rejected by its timer,
    and the child keeps running. *)
Definition unmarked : Servers :=
  {| list_reply := λ _ _, Normal (Tools []);
     call_reply := λ _ _, Normal None;
     handshake := λ _ _,
       Failed (Error "MCP server firecrawl failed to initialize within timeout")
         false;
     excel_fallback := λ _ _, Normal None |}.

(** Children that answer the [initialize] request. *)
Definition answering : Initialization :=
  {| attempt := λ _ _, {| sent_initialize := true;
                          seen_initialization := true |} |}.

(** Children whose [connect()] settles before the timer of the
    [initialize] request fires. *)
Definition early : Initialization :=
  {| attempt := λ _ _, {| sent_initialize := false;
                          seen_initialization := false |} |}.

End SampleHandshakes.

(** ** [mcp-integration.ts] and the chat route *)

Module Integration.
Import JsString Js Client Multi Fleet.

(** A tool in the function format of the chat APIs:
    [{ type: 'function', function: { name, description, parameters } }]. *)
Record FunctionTool := {
  fn_name : string;
  fn_description : string;
  fn_parameters : json }.

Definition to_function (tool : Tool) : FunctionTool :=
  {| fn_name := tool_name tool;
     fn_description := tool_description tool;
     fn_parameters := tool_inputSchema tool |}.

(** [getMCPTools()], called when [Date.now()] is [now].  Its [catch], the
    fallback to the singleton client, is entered when [connectAll] or
    [getAllTools] throws, which they do not on tool lists that are
    arrays of descriptors. *)
Definition getMCPTools `{Servers} `{Initialization}
    (next_child : string → nat) (now : Z) : M App (list FunctionTool) :=
  on_multi (connectAll next_child);;
  tools ← on_multi (getAllTools now);
  mret (map to_function tools).

(** [name.startsWith(prefix)] *)
Definition startsWith (prefix name : string) : bool := String.prefix prefix name.

(** The three filters of [generateSystemPrompt]. *)
Definition firecrawlTools (tools : list FunctionTool) : list FunctionTool :=
  List.filter (λ t, startsWith "firecrawl_" (fn_name t)) tools.

Definition columbiaLakeTools (tools : list FunctionTool) : list FunctionTool :=
  List.filter (λ t, startsWith "columbia-lake-agents_" (fn_name t)) tools.

Definition excelTools (tools : list FunctionTool) : list FunctionTool :=
  List.filter (λ t, startsWith "excel-mcp_" (fn_name t)) tools.

Definition nl : string := String newline EmptyString.

Definition names_of (tools : list FunctionTool) : string :=
  join ", " (map fn_name tools).

Definition prompt_head (toolNames : string) : string :=
  "You are an AI assistant with access to specialized tools. You have access to these tools: "
  +:+ toolNames +:+ "." +:+ nl +:+ nl +:+
  "IMPORTANT: When a user asks for information or actions that can be performed by your available tools, you MUST use the appropriate tool functions rather than declining or explaining limitations. Always attempt to use the relevant tool first before providing a general response."
  +:+ nl +:+ nl +:+ "Available tool categories:".

(** A section of the prompt: the title, the pattern of the names, what
    the tools are for, and the names. *)
Definition category (title pattern use : string) (tools : list FunctionTool)
  : string :=
  if Nat.ltb 0 (length tools) then
    nl +:+ nl +:+ title +:+ " (" +:+ pattern +:+ "*" +:+ "):" +:+ nl +:+
    "- Use for: " +:+ use +:+ nl +:+
    "- Examples: " +:+ names_of tools
  else EmptyString.

Definition prompt_guidelines : string :=
  nl +:+ nl +:+ "SPECIFIC GUIDELINES:" +:+ nl +:+
  "- For Excel operations: Use excel-mcp_* tools for direct Excel file manipulation" +:+ nl +:+
  "- For company data: Use columbia-lake-agents_* tools for business intelligence" +:+ nl +:+
  "- For web research: Use firecrawl_* tools for web scraping and content extraction" +:+ nl +:+
  "- Always use the most specific tool available for the task" +:+ nl +:+
  "- If multiple tools could apply, choose the one that best fits the user's intent".

(** [generateSystemPrompt(tools)] on tools in the function format.  The
    name of a tool is [tool.function?.name || tool.name]: when the
    function name is the empty string it is [undefined], and
    [name.startsWith] in the first filter throws. *)
Definition generateSystemPrompt (tools : list FunctionTool) : completion string :=
  if Nat.eqb (length tools) 0 then Normal EmptyString
  else if existsb (λ t, is_empty (fn_name t)) tools then
    Throw (TypeError "Cannot read properties of undefined (reading 'startsWith')")
  else
    Normal (prompt_head (names_of tools)
            +:+ category "WEB SCRAPING & RESEARCH TOOLS" "firecrawl_"
                  "Website cloning, content extraction, web research, data scraping"
                  (firecrawlTools tools)
            +:+ category "BUSINESS INTELLIGENCE TOOLS" "columbia-lake-agents_"
                  "Company analysis, Excel file processing, portfolio management, health monitoring"
                  (columbiaLakeTools tools)
            +:+ category "EXCEL MANIPULATION TOOLS" "excel-mcp_"
                  "Excel file operations, data reading/writing, formula application, workbook management"
                  (excelTools tools)
            +:+ prompt_guidelines).

(** The test by which the OpenRouter chat route ([route.ts]) decides
    whether a function call of the model is an MCP tool call. *)
Definition is_mcp_function (functionName : string) : bool :=
  startsWith "firecrawl_" functionName
  || startsWith "columbia-lake-agents_" functionName
  || startsWith "excel-mcp_" functionName.

(** The state has the servers of [loadConfiguration], and its cache holds
    slices of those servers only, each made of prefixed tools. *)
Definition configured (st : MultiMCPClient) : Prop :=
  map fst (clients st) = map fst loadConfiguration ∧
  Forall (λ entry, entry.1 ∈ map fst (clients st) ∧
                   ∃ tools, entry.2 = map (prefixed entry.1) tools)
    (toolsCache st).

End Integration.

(** ** Outstanding requests *)

Module Requests.
Import JsString Js Client.

(** The promise [p] was returned by a [sendRequest] call, is not settled,
    and no entry of the pending map holds its continuations. *)
Definition abandoned (p : nat) (w : World) : Prop :=
  p < issued w ∧ promises w !! p = None ∧
  ∀ id, pendingRequests (this w) !! id ≠ Some p.

(** How [handleMessage] settles the promise of a matched message. *)
Definition settlement_of (message : json) : settlement :=
  match prop message "error" with
  | Some err =>
      if truthy (Some err) then Rejected (remote_error err)
      else Resolved (prop message "result")
  | None => Resolved (prop message "result")
  end.

(** A chunk on stderr that holds the readiness marker. *)
Definition is_banner (cls : client_class) (e : Event) : bool :=
  match e with
  | StderrData _ chunk => has_marker cls chunk
  | _ => false
  end.

(** What decoding one line that is not blank adds to the log: the message
    handed to [handleMessage], or the report of the [catch] when
    [JSON.parse] throws; [handleMessage] itself throws on [null], after
    the message was logged. *)
Definition entries_of `{Platform} (line : string) : list LogEntry :=
  match JSON_parse line with
  | None => [DecodeFailed line]
  | Some JNull => [Received JNull; DecodeFailed line]
  | Some message => [Received message]
  end.

Definition is_connect (e : Event) : bool :=
  match e with CallConnect => true | _ => false end.

(** The timers [FirecrawlMCPClient] sets: the handshake timeout and the
    request timeouts. *)
Definition firecrawl_timer (t : Timer) : Prop :=
  match t with
  | THandshake _ | TRequest _ _ => True
  | _ => False
  end.

End Requests.

(** * Properties *)

(** ** Strings *)

Section StringFacts.
Import JsString.

Lemma str_app_cons a (s t : string) : String a s +:+ t = String a (s +:+ t).
Proof. reflexivity. Qed.

Lemma str_app_nil_l (t : string) : EmptyString +:+ t = t.
Proof. reflexivity. Qed.

Local Ltac string_ind s IH :=
  induction s as [|? s IH]; rewrite ?str_app_cons, ?str_app_nil_l; simpl.

Lemma str_app_nil_r (s : string) : s +:+ EmptyString = s.
Proof. string_ind s IH; [done | by f_equal]. Qed.

Lemma str_app_assoc (s t u : string) : (s +:+ t) +:+ u = s +:+ t +:+ u.
Proof. string_ind s IH; [done | by f_equal]. Qed.

Lemma indexOf_lt c s i : indexOf c s = Some i → i < String.length s.
Proof.
  revert i. induction s as [|a s IH]; intros i; simpl; [done |].
  destruct (Ascii.eqb a c).
  - intros [= <-]. lia.
  - destruct (indexOf c s) as [j|]; simpl; [|done].
    intros [= <-]. specialize (IH j eq_refl). lia.
Qed.

Lemma indexOf_app_found c s t i :
  indexOf c s = Some i → indexOf c (s +:+ t) = Some i.
Proof.
  revert i. string_ind s IH; intros i; [done |].
  destruct (Ascii.eqb _ c); [done |].
  destruct (indexOf c s) as [j|]; simpl; [|done].
  intros [= <-]. by rewrite (IH j eq_refl).
Qed.

Lemma slice_to_app c s t i :
  indexOf c s = Some i → slice_to i (s +:+ t) = slice_to i s.
Proof.
  revert i. string_ind s IH; intros i; [done |].
  destruct (Ascii.eqb _ c).
  - by intros [= <-].
  - destruct (indexOf c s) as [j|]; simpl; [|done].
    intros [= <-]. simpl. by rewrite (IH j eq_refl).
Qed.

Lemma slice_from_app c s t i :
  indexOf c s = Some i →
  slice_from (i + 1) (s +:+ t) = slice_from (i + 1) s +:+ t.
Proof.
  revert i. string_ind s IH; intros i; [done |].
  destruct (Ascii.eqb _ c).
  - by intros [= <-].
  - destruct (indexOf c s) as [j|]; simpl; [|done].
    intros [= <-]. simpl. by rewrite (IH j eq_refl).
Qed.

Lemma slice_from_shorter c s i :
  indexOf c s = Some i →
  String.length (slice_from (i + 1) s) < String.length s.
Proof.
  revert i. induction s as [|a s IH]; intros i; simpl; [done |].
  destruct (Ascii.eqb a c).
  - intros [= <-]. simpl. lia.
  - destruct (indexOf c s) as [j|]; simpl; [|done].
    intros [= <-]. specialize (IH j eq_refl). simpl. lia.
Qed.

(** A line followed by a newline and more text: the first newline is the
    one that ends the line. *)
Lemma indexOf_line c l rest :
  indexOf c l = None →
  indexOf c (l +:+ String c rest) = Some (String.length l).
Proof.
  string_ind l IH.
  - by rewrite Ascii.eqb_refl.
  - destruct (Ascii.eqb _ c); [done |].
    destruct (indexOf c l); simpl; [done |].
    intros _. by rewrite IH.
Qed.

Lemma slice_to_length l rest : slice_to (String.length l) (l +:+ rest) = l.
Proof. string_ind l IH; [by destruct rest | by rewrite IH]. Qed.

Lemma slice_from_length l c rest :
  slice_from (String.length l + 1) (l +:+ String c rest) = rest.
Proof. string_ind l IH; [done | by rewrite IH]. Qed.

End StringFacts.

(** ** The codec *)

Section CodecFacts.
Import JsString Codec.
Context {St : Type} (on_line : string → St → St).

(** More fuel than the length of the buffer changes nothing. *)
Lemma drain_loop_enough fuel buffer (st : St) :
  String.length buffer ≤ fuel →
  drain_loop on_line fuel buffer st = drain on_line buffer st.
Proof.
  unfold drain. remember (String.length buffer) as n eqn:Hn.
  revert fuel buffer st Hn.
  induction n as [n IH] using lt_wf_ind. intros fuel buffer st Hn Hle.
  destruct (indexOf newline buffer) as [i|] eqn:Hi.
  - pose proof (slice_from_shorter _ _ _ Hi) as Hlt.
    pose proof (indexOf_lt _ _ _ Hi) as Hpos.
    destruct fuel as [|fuel]; [lia |]. destruct n as [|n]; [lia |].
    simpl. rewrite Hi.
    set (rest := slice_from (i + 1) buffer) in *.
    assert (String.length rest < S n) as Hr by lia.
    rewrite (IH (String.length rest) Hr fuel rest _ eq_refl ltac:(lia)).
    by rewrite (IH (String.length rest) Hr n rest _ eq_refl ltac:(lia)).
  - destruct fuel, n; simpl; by rewrite ?Hi.
Qed.

(** The loop as the source writes it: the fuel never runs out. *)
Lemma drain_unfold buffer (st : St) :
  drain on_line buffer st =
  match indexOf newline buffer with
  | None => (buffer, st)
  | Some newlineIndex =>
      let line := trim (slice_to newlineIndex buffer) in
      drain on_line (slice_from (newlineIndex + 1) buffer)
        (if is_empty line then st else on_line line st)
  end.
Proof.
  destruct (indexOf newline buffer) as [i|] eqn:Hi.
  - pose proof (slice_from_shorter _ _ _ Hi) as Hlt.
    unfold drain at 1. destruct (String.length buffer) as [|n] eqn:Hn; [lia |].
    simpl. rewrite Hi. apply drain_loop_enough. lia.
  - unfold drain. destruct (String.length buffer); simpl; by rewrite ?Hi.
Qed.

(** What is left in the buffer holds no newline. *)
Lemma drain_rest buffer (st : St) :
  indexOf newline (drain on_line buffer st).1 = None.
Proof.
  remember (String.length buffer) as n eqn:Hn. revert buffer st Hn.
  induction n as [n IH] using lt_wf_ind. intros buffer st Hn.
  rewrite drain_unfold. destruct (indexOf newline buffer) as [i|] eqn:Hi.
  - simpl. eapply IH; [|done]. subst n. by eapply slice_from_shorter.
  - done.
Qed.

(** Text that arrives later can be appended before or after the complete
    lines already in the buffer are processed. *)
Lemma drain_app buffer more (st : St) :
  drain on_line (buffer +:+ more) st =
  drain on_line ((drain on_line buffer st).1 +:+ more) (drain on_line buffer st).2.
Proof.
  remember (String.length buffer) as n eqn:Hn. revert buffer st Hn.
  induction n as [n IH] using lt_wf_ind. intros buffer st Hn.
  rewrite (drain_unfold buffer).
  destruct (indexOf newline buffer) as [i|] eqn:Hi.
  - rewrite (drain_unfold (buffer +:+ more)).
    rewrite (indexOf_app_found _ _ more _ Hi). simpl.
    rewrite (slice_to_app _ _ more _ Hi), (slice_from_app _ _ more _ Hi).
    eapply IH; [|done]. subst n. by eapply slice_from_shorter.
  - done.
Qed.

Lemma drain_empty (st : St) : drain on_line EmptyString st = (EmptyString, st).
Proof. done. Qed.

Lemma feed_drain chunks buffer (st : St) :
  feed on_line chunks (drain on_line buffer st) =
  drain on_line (buffer +:+ concat_chunks chunks) st.
Proof.
  revert buffer st. induction chunks as [|c cs IH]; intros buffer st.
  - simpl. by rewrite str_app_nil_r.
  - change (feed on_line (c :: cs) (drain on_line buffer st))
      with (feed on_line cs (on_data on_line c (drain on_line buffer st))).
    unfold on_data. rewrite <- drain_app, IH. simpl. by rewrite str_app_assoc.
Qed.

(** Chunk boundaries do not matter: a listener that starts with an empty
    buffer ends in the same state, with the same rest in its buffer, as if
    the whole text had come in one chunk. *)
Lemma feed_chunks chunks (st : St) :
  feed on_line chunks (EmptyString, st) =
  on_data on_line (concat_chunks chunks) (EmptyString, st).
Proof. rewrite <- (drain_empty st) at 1. by rewrite feed_drain. Qed.

(** The [if (line)] block is run once for every line that is not blank,
    in order, on the trimmed line; nothing is left in the buffer. *)
Lemma drain_unlines lines (st : St) :
  Forall (λ l, indexOf newline l = None) lines →
  drain on_line (unlines lines) st =
  (EmptyString,
   foldl (λ st l, if is_empty (trim l) then st else on_line (trim l) st)
     st lines).
Proof.
  intros Hl. revert st. induction Hl as [|l ls Hnl _ IH]; intros st; [done |].
  simpl unlines. rewrite drain_unfold, (indexOf_line _ _ _ Hnl). simpl.
  by rewrite slice_to_length, slice_from_length, IH.
Qed.

End CodecFacts.

(** ** The wrapper: what decoding can change *)

Section DecodingFacts.
Import JsString Js Client.

Lemma settles_only_refl w : settles_only w w.
Proof. split; try done. by left. Qed.

Lemma settles_only_trans w1 w2 w3 :
  settles_only w1 w2 → settles_only w2 w3 → settles_only w1 w3.
Proof.
  intros H12 H23. split.
  - rewrite (so_allocated _ _ H23). apply H12.
  - rewrite (so_requestId _ _ H23). apply H12.
  - rewrite (so_serverName _ _ H23). apply H12.
  - rewrite (so_process _ _ H23). apply H12.
  - rewrite (so_issued _ _ H23). apply H12.
  - rewrite (so_timers _ _ H23). apply H12.
  - intros k p Hk. by apply H12, H23.
  - intros p.
    destruct (so_promises _ _ H12 p) as [Heq|(Hnone & k & Hk & Hk')].
    + destruct (so_promises _ _ H23 p) as [Heq'|(Hnone & k & Hk & Hk')].
      * left. congruence.
      * right. split; [congruence |]. exists k. split; [|done].
        by apply H12.
    + right. split; [done |]. exists k. split; [done |].
      destruct (pendingRequests (this w3) !! k) as [p'|] eqn:E; [|done].
      apply H23 in E. congruence.
Qed.

Lemma settles_only_same w w' :
  allocated w' = allocated w → this w' = this w → issued w' = issued w →
  timers w' = timers w → promises w' = promises w → settles_only w w'.
Proof. intros ? Ht ? ? Hp. split; rewrite ?Ht, ?Hp; try done. by left. Qed.

Lemma settles_only_flag b w : settles_only w (with_this (set_isConnected b) w).
Proof. split; try done. by left. Qed.

Lemma settles_only_child pid f w : settles_only w (with_child pid f w).
Proof. split; try done. by left. Qed.

Lemma settles_only_report e w : settles_only w (report e w).
Proof. split; try done. by left. Qed.

Lemma pending_for_Some id c k p :
  pending_for id c = Some (k, p) → pendingRequests c !! k = Some p.
Proof.
  unfold pending_for. destruct (truthy id); [|done].
  destruct id as [[]|]; try done.
  destruct (pendingRequests c !! n) eqn:E; simpl; [|done]. by intros [= <- <-].
Qed.

Lemma pending_for_id id c k p :
  pending_for id c = Some (k, p) → id = Some (JNum k).
Proof.
  unfold pending_for. destruct (truthy id); [|done].
  destruct id as [[]|]; try done.
  destruct (pendingRequests c !! n) eqn:E; simpl; [|done]. by intros [= <- <-].
Qed.

(** Removing an entry and settling its promise. *)
Lemma settles_only_settle k p s w :
  pendingRequests (this w) !! k = Some p →
  settles_only w
    (settle p s (with_this (λ c, set_pendingRequests
                                   (delete k (pendingRequests c)) c) w)).
Proof.
  intros Hk. split; try done; simpl.
  - intros k' p'. rewrite lookup_delete. case_decide; [done | done].
  - intros p'. destruct (promises w !! p) eqn:Hp; [by left |].
    destruct (decide (p' = p)) as [->|Hne].
    + right. split; [done |]. exists k. by rewrite lookup_delete_eq.
    + left. by rewrite lookup_insert_ne.
Qed.

Lemma handleMessage_settles_only cls message w :
  settles_only w (handleMessage cls message w).1.
Proof.
  assert (∀ w1, settles_only w w1 →
            settles_only w (match cls with
                            | FirecrawlMCPClient => (w1, None)
                            | MCPClient =>
                                if is_initialize_response message
                                then (with_this (set_isConnected true) w1, None)
                                else (w1, @None error)
                            end).1) as Hcls.
  { intros w1 H1. destruct cls; [done |].
    destruct (is_initialize_response message); [|done].
    eapply settles_only_trans; [done | apply settles_only_flag]. }
  unfold handleMessage.
  destruct message; try apply settles_only_refl; apply Hcls;
    (destruct (pending_for _ _) as [[k p]|] eqn:E;
     [apply pending_for_Some in E | apply settles_only_refl]);
    repeat case_match; by apply settles_only_settle.
Qed.

Lemma on_line_settles_only `{Platform} cls line w :
  settles_only w (on_line cls line w).
Proof.
  unfold on_line. destruct (JSON_parse line) as [message|];
    [|apply settles_only_report].
  pose proof (handleMessage_settles_only cls message (report (Received message) w)) as Hh.
  destruct (handleMessage _ _ _) as [w' [e|]]; simpl in Hh.
  - eapply settles_only_trans; [apply settles_only_report |].
    eapply settles_only_trans; [done | apply settles_only_report].
  - eapply settles_only_trans; [apply settles_only_report | done].
Qed.

(** Whatever the [if (line)] block preserves, the loop preserves. *)
Lemma drain_preserves {St} (on_line : string → St → St) (R : St → Prop) :
  (∀ line st, R st → R (on_line line st)) →
  ∀ buffer st, R st → R (Codec.drain on_line buffer st).2.
Proof.
  intros Hstep buffer. unfold Codec.drain.
  generalize (String.length buffer) as fuel. intros fuel. revert buffer.
  induction fuel as [|fuel IH]; intros buffer st Hst; simpl; [done |].
  destruct (indexOf newline buffer); [|done].
  apply IH. destruct (is_empty _); [done | by apply Hstep].
Qed.

Lemma run_codec_settles_only `{Platform} cls pid i chunk w :
  settles_only w (run_codec cls pid i chunk w).
Proof.
  unfold run_codec. destruct (_ ≫= _) as [buffer|]; [|apply settles_only_refl].
  eapply settles_only_trans; [|apply settles_only_child].
  unfold Codec.on_data. simpl.
  apply (drain_preserves (on_line cls) (settles_only w)); [|apply settles_only_refl].
  intros line st Hst. eapply settles_only_trans; [done | apply on_line_settles_only].
Qed.

Lemma setupMessageHandling_settles_only w :
  settles_only w (setupMessageHandling w).
Proof.
  unfold setupMessageHandling. destruct (process (this w));
    [apply settles_only_child | apply settles_only_refl].
Qed.

Lemma ready_listener_settles_only cls pid output w :
  settles_only w (ready_listener cls pid output w).
Proof.
  unfold ready_listener. destruct (_ && _); [|apply settles_only_refl].
  eapply settles_only_trans; [|apply settles_only_child].
  eapply settles_only_trans; [|apply settles_only_flag].
  eapply settles_only_trans; [|apply setupMessageHandling_settles_only].
  apply settles_only_child.
Qed.

Lemma stdout_data_settles_only `{Platform} cls pid chunk w :
  settles_only w (stdout_data cls pid chunk w).
Proof.
  unfold stdout_data. destruct (children w !! pid) as [ch|];
    [|apply settles_only_refl].
  generalize (seq 0 (length (codecs ch))) as listening. intros listening.
  assert (settles_only w (match cls with
                          | FirecrawlMCPClient => w
                          | MCPClient => ready_listener cls pid chunk w
                          end)) as H0.
  { destruct cls; [apply settles_only_refl | apply ready_listener_settles_only]. }
  revert H0. generalize (match cls with
                         | FirecrawlMCPClient => w
                         | MCPClient => ready_listener cls pid chunk w
                         end) as w1.
  induction listening as [|i rest IH]; intros w1 H1; simpl; [done |].
  apply IH. eapply settles_only_trans; [done | apply run_codec_settles_only].
Qed.

End DecodingFacts.

(** ** The wrapper: an invariant of every run *)

Section WrapperInvariant.
Import JsString Js Client.

Lemma Inv_new name : Inv (new_world name).
Proof.
  split; simpl.
  - lia.
  - constructor.
  - constructor.
  - intros id p Hl. by rewrite lookup_empty in Hl.
  - intros id id' p Hl. by rewrite lookup_empty in Hl.
  - intros p [s Hs]. by rewrite lookup_empty in Hs.
  - intros id p Hin. by apply elem_of_nil in Hin.
  - intros id p p0 Hin. by apply elem_of_nil in Hin.
Qed.

Lemma Inv_settles_only w w' : Inv w → settles_only w w' → Inv w'.
Proof.
  intros Hi Hs. split.
  - rewrite (so_requestId _ _ Hs). apply Hi.
  - rewrite (so_allocated _ _ Hs). apply Hi.
  - rewrite (so_allocated _ _ Hs), (so_requestId _ _ Hs). apply Hi.
  - intros id p Hp. pose proof (so_pending _ _ Hs _ _ Hp) as Hp0.
    destruct (inv_pending _ Hi _ _ Hp0) as (? & ? & Hnone & ?).
    rewrite (so_requestId _ _ Hs), (so_issued _ _ Hs), (so_timers _ _ Hs).
    repeat split; try done.
    destruct (so_promises _ _ Hs p) as [->|(_ & k & Hk & Hk')]; [done |].
    rewrite (inv_inj _ Hi _ _ _ Hk Hp0) in Hk'. congruence.
  - intros id id' p H1 H2. eapply (inv_inj _ Hi); by apply Hs.
  - intros p Hp. rewrite (so_issued _ _ Hs).
    destruct (so_promises _ _ Hs p) as [Heq|(_ & k & Hk & _)].
    + apply Hi. by rewrite <- Heq.
    + apply (inv_pending _ Hi) in Hk. tauto.
  - intros id p. rewrite (so_timers _ _ Hs), (so_requestId _ _ Hs),
      (so_issued _ _ Hs). apply Hi.
  - intros id p p0. rewrite (so_timers _ _ Hs). intros Hin Hp.
    eapply (inv_timer_owner _ Hi); [done | by apply Hs].
Qed.

(** Other timers come or go, nothing else that the invariant speaks of
    changes. *)
Lemma Inv_same_requests w w' :
  requestId (this w') = requestId (this w) →
  pendingRequests (this w') = pendingRequests (this w) →
  promises w' = promises w → issued w' = issued w →
  allocated w' = allocated w →
  (∀ id p, TRequest id p ∈ timers w' ↔ TRequest id p ∈ timers w) →
  Inv w → Inv w'.
Proof.
  intros Hr Hp Hpr Hi Ha Ht Hinv. split; rewrite ?Hr, ?Hp, ?Hpr, ?Hi, ?Ha.
  - apply Hinv.
  - apply Hinv.
  - apply Hinv.
  - intros id p Hl. rewrite Ht. by apply Hinv.
  - apply Hinv.
  - apply Hinv.
  - intros id p. rewrite Ht. apply Hinv.
  - intros id p p0. rewrite Ht. apply Hinv.
Qed.

Lemma elem_of_cancel t x ts : x ∈ cancel t ts → x ∈ ts.
Proof.
  induction ts as [|t' ts IH]; simpl; [done |].
  destruct (decide (t = t')); set_solver.
Qed.

Lemma elem_of_cancel_ne t x ts : x ∈ ts → x ≠ t → x ∈ cancel t ts.
Proof.
  induction ts as [|t' ts IH]; simpl; [done |].
  destruct (decide (t = t')); set_solver.
Qed.

Lemma setupMessageHandling_fields w :
  this (setupMessageHandling w) = this w ∧
  promises (setupMessageHandling w) = promises w ∧
  issued (setupMessageHandling w) = issued w ∧
  allocated (setupMessageHandling w) = allocated w ∧
  timers (setupMessageHandling w) = timers w ∧
  log (setupMessageHandling w) = log w.
Proof. unfold setupMessageHandling. by destruct (process (this w)). Qed.

Lemma Inv_connect cls w : Inv w → Inv (connect cls w).
Proof.
  intros Hinv. unfold connect. destruct (isConnected (this w)); [done |].
  destruct cls.
  - eapply Inv_same_requests; [..|exact Hinv]; try done.
    intros id p. simpl. rewrite elem_of_app, list_elem_of_singleton. naive_solver.
  - set (w2 := with_this _ _).
    destruct (setupMessageHandling_fields w2) as (Ht & Hp & Hi & Ha & Hts & _).
    eapply Inv_same_requests; [..|exact Hinv]; simpl; rewrite ?Ht, ?Hp, ?Hi, ?Ha, ?Hts;
      try done.
    intros id p. rewrite elem_of_app, !elem_of_cons, elem_of_nil. naive_solver.
Qed.

Lemma Inv_disconnect w : Inv w → Inv (disconnect w).
Proof.
  intros Hinv. unfold disconnect. destruct (isConnected (this w)); [|done].
  assert (∀ w1, Inv w1 →
     Inv (with_this (λ c, set_pendingRequests ∅
                            (set_isConnected false (set_process None c))) w1)) as Hclear.
  { intros w1 H1. split; simpl; try apply H1; done. }
  apply Hclear. destruct (process (this w)); [|done].
  eapply Inv_settles_only; [done | apply settles_only_child].
Qed.

(** Taking the next id keeps the invariant. *)
Lemma Inv_next_id w : Inv w → Inv (next_id w).2.
Proof.
  intros Hinv. split; simpl.
  - pose proof (inv_next _ Hinv). lia.
  - apply StronglySorted_app_2; [|apply Hinv | repeat constructor].
    intros x y Hx Hy. apply list_elem_of_singleton in Hy as ->.
    pose proof (inv_allocated _ Hinv) as Ha.
    rewrite Forall_forall in Ha. apply Ha in Hx. lia.
  - apply Forall_app. split.
    + eapply Forall_impl; [apply Hinv |]. simpl. intros. lia.
    + constructor; [|done]. pose proof (inv_next _ Hinv). lia.
  - intros id p Hl. destruct (inv_pending _ Hinv _ _ Hl) as (? & ? & ? & ?).
    repeat split; try done. lia.
  - apply Hinv.
  - apply Hinv.
  - intros id p Hin. destruct (inv_timer_bound _ Hinv _ _ Hin). split; [lia | done].
  - apply Hinv.
Qed.

Lemma Inv_new_promise w : Inv w → Inv (new_promise w).
Proof.
  intros Hinv. split; simpl; try apply Hinv.
  - intros id p Hl. destruct (inv_pending _ Hinv _ _ Hl) as (? & ? & ? & ?).
    repeat split; try done. lia.
  - intros p Hp. apply (inv_settled _ Hinv) in Hp. lia.
  - intros id p Hin. destruct (inv_timer_bound _ Hinv _ _ Hin). split; [done | lia].
Qed.

Lemma Inv_sendRequest cls method params w :
  Inv w → Inv (sendRequest cls method params w).
Proof.
  intros Hinv. unfold sendRequest. destruct (process (this w)) as [pid|].
  - pose proof (Inv_next_id _ (Inv_new_promise _ Hinv)) as Hid.
    destruct (next_id (new_promise w)) as [id w1] eqn:E.
    assert (id = requestId (this w) ∧ requestId (this w1) = (id + 1)%Z
            ∧ issued w1 = S (issued w) ∧ timers w1 = timers w
            ∧ promises w1 = promises w
            ∧ pendingRequests (this w1) = pendingRequests (this w))
      as (-> & Hr & Hiss & Ht & Hpr & Hpe).
    { unfold next_id in E. by injection E as <- <-. }
    simpl in Hid. split; simpl; rewrite ?Hr, ?Hiss, ?Ht, ?Hpr, ?Hpe.
    + rewrite <- Hr. apply Hid.
    + apply Hid.
    + rewrite <- Hr. apply Hid.
    + intros id p. rewrite lookup_insert. case_decide as Hd.
      * intros [= <-]. subst id. repeat split; [lia | lia | | set_solver].
        destruct (promises w !! issued w) eqn:Hp; [|done].
        assert (issued w < issued w); [|lia].
        apply (inv_settled _ Hinv). by rewrite Hp.
      * intros Hl. destruct (inv_pending _ Hinv _ _ Hl) as (? & ? & ? & ?).
        repeat split; [lia | lia | done | set_solver].
    + intros id id' p. rewrite !lookup_insert.
      repeat case_decide; try congruence.
      * intros [= <-] Hl. apply (inv_pending _ Hinv) in Hl. lia.
      * intros Hl [= <-]. apply (inv_pending _ Hinv) in Hl. lia.
      * apply Hinv.
    + intros p Hp. apply (inv_settled _ Hinv) in Hp. lia.
    + intros id p Hin. apply elem_of_app in Hin as [Hin|Hin].
      * destruct (inv_timer_bound _ Hinv _ _ Hin). lia.
      * apply list_elem_of_singleton in Hin as [= -> ->]. lia.
    + intros id p p0 Hin. rewrite lookup_insert. case_decide as Hd.
      * subst id. intros [= <-]. apply elem_of_app in Hin as [Hin|Hin].
        -- destruct (inv_timer_bound _ Hinv _ _ Hin). lia.
        -- by apply list_elem_of_singleton in Hin as [= ->].
      * intros Hl. apply elem_of_app in Hin as [Hin|Hin].
        -- by eapply (inv_timer_owner _ Hinv).
        -- apply list_elem_of_singleton in Hin as [= -> ->]. done.
  - assert (Inv (new_promise w)) as Hnew by by apply Inv_new_promise.
    assert (promises w !! issued w = None) as Hfresh.
    { destruct (promises w !! issued w) eqn:Hp; [|done].
      assert (issued w < issued w); [|lia].
      apply (inv_settled _ Hinv). by rewrite Hp. }
    split; simpl; rewrite ?Hfresh; try apply Hnew.
    + intros id p Hl. destruct (inv_pending _ Hinv _ _ Hl) as (? & ? & Hn & ?).
      repeat split; [done | lia | | done].
      rewrite lookup_insert_ne; [done | lia].
    + intros p. rewrite lookup_insert. case_decide; [lia |].
      intros Hs. apply (inv_settled _ Hinv) in Hs. lia.
Qed.

Lemma Inv_cancel_other t w :
  (∀ id p, t ≠ TRequest id p) → Inv w → Inv (with_timers (cancel t) w).
Proof.
  intros Ht Hinv. eapply Inv_same_requests; [..|exact Hinv]; try done.
  intros id p. simpl. split; [apply elem_of_cancel |].
  intros Hin. apply elem_of_cancel_ne; [done |]. intros Heq. by eapply Ht.
Qed.

Lemma Inv_send_initialize pid w : Inv w → Inv (send_initialize pid w).
Proof.
  intros Hinv. unfold send_initialize. destruct (process (this w)) as [cur|]; [|done].
  pose proof (Inv_next_id _ Hinv) as Hid.
  destruct (next_id w) as [id w1]. simpl in Hid.
  assert (Inv (with_child cur (write {| rq_id := id; rq_method := "initialize";
                                        rq_params := Some initialize_params |}) w1))
    as Hw by (eapply Inv_settles_only; [done | apply settles_only_child]).
  destruct (String.eqb _ _); [|done].
  eapply Inv_same_requests; [..|exact Hw]; try done.
  intros id' p. simpl. rewrite elem_of_app, list_elem_of_singleton. naive_solver.
Qed.

Lemma Inv_assume_ready pid w : Inv w → Inv (assume_ready pid w).
Proof.
  intros Hinv. unfold assume_ready. destruct (is_initialized pid w); [done |].
  eapply Inv_settles_only; [done |].
  eapply settles_only_trans; [|apply settles_only_child].
  eapply settles_only_trans; [|apply settles_only_flag].
  apply settles_only_child.
Qed.

Lemma Inv_handshake_timeout cls pid w : Inv w → Inv (handshake_timeout cls pid w).
Proof.
  intros Hinv. unfold handshake_timeout. destruct (is_initialized pid w); [done |].
  eapply Inv_settles_only; [done | apply settles_only_child].
Qed.

Lemma Inv_request_timeout cls id p w :
  Inv w → TRequest id p ∈ timers w →
  Inv (request_timeout cls id p (with_timers (cancel (TRequest id p)) w)).
Proof.
  intros Hinv Hin. unfold request_timeout. simpl.
  destruct (pendingRequests (this w) !! id) as [p0|] eqn:Hp0.
  - assert (p0 = p) as -> by by eapply (inv_timer_owner _ Hinv).
    destruct (inv_pending _ Hinv _ _ Hp0) as (Hlt & Hiss & Hnone & _).
    split; simpl; rewrite ?Hnone; try apply Hinv.
    + intros id' p'. rewrite lookup_delete. case_decide as Hd; [done |].
      intros Hl. destruct (inv_pending _ Hinv _ _ Hl) as (? & ? & ? & ?).
      repeat split; try done.
      * rewrite lookup_insert_ne; [done |]. intros <-.
        apply Hd. by eapply (inv_inj _ Hinv).
      * apply elem_of_cancel_ne; [done | congruence].
    + intros id1 id2 p'. rewrite !lookup_delete. repeat case_decide; try done.
      apply Hinv.
    + intros p'. rewrite lookup_insert. case_decide; [by intros _; subst |].
      apply Hinv.
    + intros id' p' Hc. apply elem_of_cancel in Hc. by apply Hinv.
    + intros id' p' p1 Hc. apply elem_of_cancel in Hc.
      rewrite lookup_delete. case_decide; [done |].
      by apply (inv_timer_owner _ Hinv).
  - split; simpl; try apply Hinv.
    + intros id' p' Hl. destruct (inv_pending _ Hinv _ _ Hl) as (? & ? & ? & ?).
      repeat split; try done.
      apply elem_of_cancel_ne; [done |]. intros [= -> ->]. congruence.
    + intros id' p' Hc. apply elem_of_cancel in Hc. by apply Hinv.
    + intros id' p' p1 Hc. apply elem_of_cancel in Hc.
      by apply (inv_timer_owner _ Hinv).
Qed.

Lemma Inv_step `{Platform} cls e w : Inv w → Inv (step cls e w).
Proof.
  intros Hinv. destruct e as [| method params | | pid chunk | pid chunk | pid | pid | t];
    simpl.
  - by apply Inv_connect.
  - by apply Inv_sendRequest.
  - by apply Inv_disconnect.
  - destruct (is_open pid w); [|done].
    eapply Inv_settles_only; [done | apply ready_listener_settles_only].
  - destruct (is_open pid w); [|done].
    eapply Inv_settles_only; [done | apply stdout_data_settles_only].
  - destruct (is_initialized pid w); [done |].
    eapply Inv_settles_only; [done | apply settles_only_child].
  - destruct (is_open pid w); [|done].
    by eapply Inv_same_requests; [..|exact Hinv].
  - case_decide as Hin; [|done]. destruct t as [pid | pid | pid | id p]; simpl.
    + apply Inv_send_initialize. by apply Inv_cancel_other.
    + apply Inv_assume_ready. by apply Inv_cancel_other.
    + apply Inv_handshake_timeout. by apply Inv_cancel_other.
    + by apply Inv_request_timeout.
Qed.

Lemma run_snoc `{Platform} cls es e w :
  run cls (es ++ [e]) w = step cls e (run cls es w).
Proof. unfold run. by rewrite foldl_app. Qed.

Lemma run_app `{Platform} cls es es' w :
  run cls (es ++ es') w = run cls es' (run cls es w).
Proof. unfold run. by rewrite foldl_app. Qed.

Lemma Inv_run `{Platform} cls es w : Inv w → Inv (run cls es w).
Proof.
  revert w. induction es as [|e es IH]; intros w Hinv; [done |].
  simpl. apply IH. by apply Inv_step.
Qed.

End WrapperInvariant.

(** ** Request ids *)

Section RequestIds.
Import JsString Js Client.
Context `{Platform} (cls : client_class).

Lemma settles_only_takes_no_id w w' : settles_only w w' → takes_no_id w w'.
Proof. intros Hs. repeat split; apply Hs. Qed.

Lemma takes_no_id_same w w' :
  allocated w' = allocated w → requestId (this w') = requestId (this w) →
  pendingRequests (this w') = pendingRequests (this w) → takes_no_id w w'.
Proof. intros ? ? Hp. repeat split; try done. by rewrite Hp. Qed.

Lemma step_ids e w :
  takes_no_id w (step cls e w) ∨ takes_next_id w (step cls e w).
Proof.
  destruct e as [| method params | | pid chunk | pid chunk | pid | pid | t]; simpl.
  - left. unfold connect. destruct (isConnected (this w));
      [by apply takes_no_id_same |].
    destruct cls; [by apply takes_no_id_same |].
    set (w2 := with_this _ _).
    destruct (setupMessageHandling_fields w2) as (Ht & _ & _ & Ha & _).
    apply takes_no_id_same; simpl; by rewrite ?Ht, ?Ha.
  - unfold sendRequest. destruct (process (this w)).
    + right. repeat split; simpl; try done.
      intros k p. rewrite lookup_insert. case_decide; [by right | by left].
    + left. by apply takes_no_id_same.
  - left. unfold disconnect. destruct (isConnected (this w));
      [|by apply takes_no_id_same].
    repeat split; simpl.
    + by destruct (process (this w)).
    + by destruct (process (this w)).
    + intros k p Hl. by rewrite lookup_empty in Hl.
  - left. destruct (is_open pid w); [|by apply takes_no_id_same].
    apply settles_only_takes_no_id, ready_listener_settles_only.
  - left. destruct (is_open pid w); [|by apply takes_no_id_same].
    apply settles_only_takes_no_id, stdout_data_settles_only.
  - left. destruct (is_initialized pid w); by apply takes_no_id_same.
  - left. destruct (is_open pid w); by apply takes_no_id_same.
  - case_decide; [|left; by apply takes_no_id_same].
    destruct t as [pid | pid | pid | id p]; simpl.
    + unfold send_initialize. simpl. destruct (process (this w)).
      * right. destruct (String.eqb _ _); by repeat split; simpl; try left.
      * left. by apply takes_no_id_same.
    + left. unfold assume_ready. destruct (is_initialized _ _);
        by apply takes_no_id_same.
    + left. unfold handshake_timeout. destruct (is_initialized _ _);
        by apply takes_no_id_same.
    + left. unfold request_timeout. simpl.
      destruct (pendingRequests (this w) !! id); [|by apply takes_no_id_same].
      repeat split; simpl; try done.
      intros k p'. rewrite lookup_delete. by case_decide.
Qed.

(** The counter never goes back. *)
Lemma run_requestId_mono es w :
  (requestId (this w) ≤ requestId (this (run cls es w)))%Z.
Proof.
  revert w. induction es as [|e es IH]; intros w; simpl; [lia |].
  etrans; [|apply IH].
  destruct (step_ids e w) as [(_ & -> & _)|(_ & -> & _)]; lia.
Qed.

(** An id below the counter that is not pending is never pending again. *)
Lemma run_never_pending_again es w id :
  (id < requestId (this w))%Z → pendingRequests (this w) !! id = None →
  pendingRequests (this (run cls es w)) !! id = None.
Proof.
  revert w. induction es as [|e es IH]; intros w Hlt Hnone; simpl; [done |].
  apply IH.
  - destruct (step_ids e w) as [(_ & -> & _)|(_ & -> & _)]; lia.
  - destruct (pendingRequests (this (step cls e w)) !! id) as [p|] eqn:E; [|done].
    destruct (step_ids e w) as [(_ & _ & Hp)|(_ & _ & Hp)].
    + apply Hp in E. congruence.
    + apply Hp in E as [E|E]; [congruence | lia].
Qed.


End RequestIds.

(** ** Decoding on a wrapper *)

Section DecodingOnWrapper.
Import JsString Js Client Sample.

Lemma on_line_parsed `{Platform} cls line message w :
  JSON_parse line = Some message →
  on_line cls line w =
  match handleMessage cls message (report (Received message) w) with
  | (w', None) => w'
  | (w', Some _) => report (DecodeFailed line) w'
  end.
Proof. intros Hp. unfold on_line. by rewrite Hp. Qed.

(** A codec with an empty buffer that receives one complete line. *)
Lemma run_codec_line `{Platform} cls pid i line w :
  children w !! pid ≫= (λ ch, codecs ch !! i) = Some EmptyString →
  indexOf newline line = None → is_empty (trim line) = false →
  run_codec cls pid i (line +:+ eol) w =
  with_child pid (λ ch, set_codecs (<[i := EmptyString]> (codecs ch)) ch)
    (on_line cls (trim line) w).
Proof.
  intros Hb Hl Ht. unfold run_codec, Codec.on_data. rewrite Hb. simpl.
  rewrite str_app_nil_l.
  pose proof (drain_unlines (on_line cls) [line] w) as Hd.
  simpl in Hd. rewrite Ht in Hd. unfold eol. rewrite Hd; [done |].
  by constructor.
Qed.

(** Evaluate the parts of the goal that do not ask [JSON.parse]. *)
Local Ltac evaluate t :=
  let v := eval vm_compute in t in change t with v.

Local Ltac split_last_event :=
  match goal with
  | |- context [run ?cls [?a; ?b; ?c; ?d; ?e] ?w] =>
      change (run cls [a; b; c; d; e] w) with (run cls ([a; b; c; d] ++ [e]) w);
      rewrite run_snoc;
      evaluate (run cls [a; b; c; d] w)
  end.

Local Ltac deliver_line cls pid i Hparse Htrim :=
  rewrite (run_codec_line cls pid i); [|by vm_compute..];
  rewrite Htrim, (on_line_parsed _ _ _ _ Hparse);
  match goal with
  | |- context [handleMessage ?c ?m ?w] => evaluate (handleMessage c m w)
  end;
  cbv iota beta.

(** C1. [MCPClient.connect] installs a codec when it spawns the child, and
    [setupMessageHandling] installs another one when the readiness marker
    is seen.  Afterwards one newline-terminated JSON object on stdout is
    handed to [handleMessage] twice: N is 1 and two parse events fire. *)
Theorem MCPClient_handles_each_line_twice (P : Platform) :
  JSON_parse response_line = Some response_message →
  log (run MCPClient
         [CallConnect; StderrData 0 firecrawl_banner;
          TimerFires (TInitialize 0); CallSendRequest "tools/list" None;
          StdoutData 0 (response_line +:+ eol)]
         (new_world "firecrawl"))
  = [Received response_message; Received response_message].
Proof.
  intros Hparse.
  assert (trim response_line = response_line) as Htrim by by vm_compute.
  split_last_event.
  unfold step, is_open, stdout_data.
  cbn [children lookup list_lookup closed negb codecs length seq foldl].
  match goal with
  | |- context [ready_listener ?c ?p ?o ?w] => evaluate (ready_listener c p o w)
  end.
  deliver_line MCPClient 0 0 Hparse Htrim.
  deliver_line MCPClient 0 1 Hparse Htrim.
  by vm_compute.
Qed.

Lemma MCPClient_handles_each_line_twice_witness :
  log (@run platform MCPClient
         [CallConnect; StderrData 0 firecrawl_banner;
          TimerFires (TInitialize 0); CallSendRequest "tools/list" None;
          StdoutData 0 (response_line +:+ eol)]
         (new_world "firecrawl"))
  = [Received response_message; Received response_message].
Proof. apply (MCPClient_handles_each_line_twice platform). reflexivity. Defined.

(** The sibling class installs its only codec when the marker is seen, and
    hands the same line to [handleMessage] once. *)
Lemma FirecrawlMCPClient_handles_each_line_once (P : Platform) :
  JSON_parse response_line = Some response_message →
  log (run FirecrawlMCPClient
         [CallConnect; StderrData 0 firecrawl_banner;
          CallSendRequest "initialize" None; CallSendRequest "tools/list" None;
          StdoutData 0 (response_line +:+ eol)]
         (new_world "firecrawl"))
  = [Received response_message].
Proof.
  intros Hparse.
  assert (trim response_line = response_line) as Htrim by by vm_compute.
  split_last_event.
  unfold step, is_open, stdout_data.
  cbn [children lookup list_lookup closed negb codecs length seq foldl].
  deliver_line FirecrawlMCPClient 0 0 Hparse Htrim.
  by vm_compute.
Qed.

End DecodingOnWrapper.

(** ** Responses that match no pending request *)

Section UnmatchedResponses.
Import JsString Js Client Sample.

(** C8, as stated, fails for [MCPClient]: the response to the [initialize]
    request of [connect] carries id 1, which was never put in the pending
    map, and [handleMessage] sets [isConnected] on it. *)
Lemma unmatched_initialize_response_connects :
  let w := send_initialize 0 (connect MCPClient (new_world "firecrawl")) in
  pending_for (prop initialize_response "id") (this w) = None ∧
  isConnected (this w) = false ∧
  (handleMessage MCPClient initialize_response w).2 = None ∧
  isConnected (this (handleMessage MCPClient initialize_response w).1) = true.
Proof. by vm_compute. Qed.

(** C8, amended.  For a message other than [null] whose id matches no
    pending entry, [handleMessage] returns normally and leaves the pending
    map, the request counter, the process handle and every promise as they
    are; the connection flag is left as it is too, except that [MCPClient]
    sets it when the message is an initialization response. *)
Theorem handleMessage_unmatched cls message w :
  message ≠ JNull →
  pending_for (prop message "id") (this w) = None →
  (handleMessage cls message w).2 = None ∧
  pendingRequests (this (handleMessage cls message w).1) = pendingRequests (this w) ∧
  requestId (this (handleMessage cls message w).1) = requestId (this w) ∧
  process (this (handleMessage cls message w).1) = process (this w) ∧
  promises (handleMessage cls message w).1 = promises w ∧
  isConnected (this (handleMessage cls message w).1) =
    isConnected (this w) || (is_MCPClient cls && is_initialize_response message) ∧
  (handleMessage FirecrawlMCPClient message w).1 = w.
Proof.
  intros Hnull Hnone. unfold handleMessage. rewrite Hnone.
  destruct message; try done; destruct cls;
    destruct (is_initialize_response _) eqn:E; try done; simpl;
    by rewrite ?orb_true_r, ?orb_false_r.
Qed.

Lemma handleMessage_unmatched_witness :
  let w := send_initialize 0 (connect MCPClient (new_world "firecrawl")) in
  let w' := (handleMessage MCPClient initialize_response w).1 in
  (handleMessage MCPClient initialize_response w).2 = None ∧
  pendingRequests (this w') = pendingRequests (this w) ∧
  requestId (this w') = requestId (this w) ∧
  process (this w') = process (this w) ∧
  promises w' = promises w ∧
  isConnected (this w') =
    isConnected (this w)
    || (is_MCPClient MCPClient && is_initialize_response initialize_response) ∧
  (handleMessage FirecrawlMCPClient initialize_response w).1 = w.
Proof.
  apply (handleMessage_unmatched MCPClient initialize_response).
  - discriminate.
  - reflexivity.
Defined.

(** [null] is the one message on which [handleMessage] throws; the [catch]
    of the codec reports the line and goes on. *)
Lemma handleMessage_null cls w :
  ∃ e, handleMessage cls JNull w = (w, Some e).
Proof. by eexists. Qed.

(** A message with another id leaves the entry of [id] alone. *)
Lemma handleMessage_other_id cls message w id p :
  prop message "id" ≠ Some (JNum id) →
  pendingRequests (this w) !! id = Some p →
  pendingRequests (this (handleMessage cls message w).1) !! id = Some p.
Proof.
  intros Hid Hp.
  assert (∀ w1, pendingRequests (this w1) !! id = Some p →
     pendingRequests (this (match cls with
        | FirecrawlMCPClient => (w1, None)
        | MCPClient =>
            if is_initialize_response message
            then (with_this (set_isConnected true) w1, None)
            else (w1, @None error)
        end).1) !! id = Some p) as Hcls.
  { intros w1 H1. destruct cls; [done |]. by destruct (is_initialize_response _). }
  unfold handleMessage. destruct message; try done; apply Hcls;
    (destruct (pending_for _ _) as [[k q]|] eqn:E; [|done]);
    (assert (k ≠ id) as Hne;
     [ intros ->; apply Hid; by apply pending_for_id in E
     | repeat case_match; simpl; by rewrite lookup_delete_ne ]).
Qed.

End UnmatchedResponses.

(** ** Connecting *)

Section Connecting.
Import JsString Js Client Sample.

(** C6, as stated, fails in both classes: [connect] tests [isConnected]
    only, so a second call during the handshake of the first spawns a second
    child, and both are alive. *)
Lemma second_connect_spawns_second_child :
  let first cls := connect cls (new_world "firecrawl") in
  let second cls := connect cls (first cls) in
  (isConnected (this (first MCPClient)) = false ∧
   process (this (first MCPClient)) = Some 0 ∧
   length (live (first MCPClient)) = 1 ∧
   length (live (second MCPClient)) = 2) ∧
  (isConnected (this (first FirecrawlMCPClient)) = false ∧
   process (this (first FirecrawlMCPClient)) = Some 0 ∧
   length (live (first FirecrawlMCPClient)) = 1 ∧
   length (live (second FirecrawlMCPClient)) = 2).
Proof. by vm_compute. Qed.

(** C6, amended.  [connect()] does nothing when the wrapper is connected.
    When it is not, whether or not an earlier attempt is still in flight,
    it spawns one more child, which is alive, and makes it the wrapper's
    process; the children spawned before are left as they are. *)
Theorem connect_spawns_unless_connected cls w :
  if isConnected (this w) then connect cls w = w
  else ∃ ch, children (connect cls w) = children w ++ [ch] ∧
             killed ch = false ∧ closed ch = false ∧
             process (this (connect cls w)) = Some (length (children w)) ∧
             length (live (connect cls w)) = S (length (live w)).
Proof.
  unfold connect. destruct (isConnected (this w)); [done |].
  assert (∀ ch, killed ch = false → closed ch = false →
            length (List.filter (λ ch, negb (killed ch) && negb (closed ch))
                      (children w ++ [ch])) = S (length (live w))) as Hlive.
  { intros ch Hk Hc. rewrite List.filter_app, length_app. simpl.
    rewrite Hk, Hc. simpl. unfold live. lia. }
  destruct cls.
  - exists new_child. repeat split. by apply Hlive.
  - exists (set_codecs [EmptyString] new_child). unfold setupMessageHandling, live.
    simpl. unfold with_child, with_children. simpl.
    assert (alter (λ ch, set_codecs (codecs ch ++ [EmptyString]) ch)
              (length (children w)) (children w ++ [new_child])
            = children w ++ [set_codecs [EmptyString] new_child]) as ->.
    { clear. induction (children w) as [|c cs IH]; simpl; [done |].
      f_equal. apply IH. }
    repeat split. by apply Hlive.
Qed.

End Connecting.

(** ** Request timeouts *)

Section RequestTimeouts.
Import JsString Js Client Sample.
Context `{Platform} (cls : client_class).

Lemma step_serverName e w :
  serverName (this (step cls e w)) = serverName (this w).
Proof.
  destruct e as [| method params | | pid chunk | pid chunk | pid | pid | t]; simpl.
  - unfold connect. destruct (isConnected (this w)); [done |].
    by destruct cls.
  - unfold sendRequest. by destruct (process (this w)).
  - unfold disconnect. destruct (isConnected (this w)); [|done].
    by destruct (process (this w)).
  - destruct (is_open pid w); [|done]. apply ready_listener_settles_only.
  - destruct (is_open pid w); [|done]. apply stdout_data_settles_only.
  - by destruct (is_initialized pid w).
  - by destruct (is_open pid w).
  - case_decide; [|done]. destruct t as [pid | pid | pid | id p]; simpl.
    + unfold send_initialize. simpl. destruct (process (this w)); [|done].
      by destruct (String.eqb _ _).
    + unfold assume_ready. by destruct (is_initialized _ _).
    + unfold handshake_timeout. by destruct (is_initialized _ _).
    + unfold request_timeout. simpl. by destruct (pendingRequests (this w) !! id).
Qed.

Lemma run_serverName es w :
  serverName (this (run cls es w)) = serverName (this w).
Proof.
  revert w. induction es as [|e es IH]; intros w; [done |].
  simpl. by rewrite IH, step_serverName.
Qed.

Lemma settle_keeps p s q s' w :
  promises w !! q = Some s' → promises (settle p s w) !! q = Some s'.
Proof.
  intros Hq. simpl. destruct (promises w !! p) eqn:Hp; [done |].
  rewrite lookup_insert_ne; [done | congruence].
Qed.

(** A settled promise stays as it was settled. *)
Lemma step_keeps_settled e w q s :
  promises w !! q = Some s → promises (step cls e w) !! q = Some s.
Proof.
  intros Hq.
  assert (∀ w', settles_only w w' → promises w' !! q = Some s) as Hso.
  { intros w' Hs. destruct (so_promises _ _ Hs q) as [->|[Hn _]]; congruence. }
  destruct e as [| method params | | pid chunk | pid chunk | pid | pid | t]; simpl.
  - unfold connect. destruct (isConnected (this w)); [done |].
    by destruct cls.
  - unfold sendRequest. destruct (process (this w)); [done |].
    by apply settle_keeps.
  - unfold disconnect. destruct (isConnected (this w)); [|done].
    by destruct (process (this w)).
  - destruct (is_open pid w); [|done]. apply Hso, ready_listener_settles_only.
  - destruct (is_open pid w); [|done]. apply Hso, stdout_data_settles_only.
  - by destruct (is_initialized pid w).
  - by destruct (is_open pid w).
  - case_decide; [|done]. destruct t as [pid | pid | pid | id p]; simpl.
    + unfold send_initialize. simpl. destruct (process (this w)); [|done].
      by destruct (String.eqb _ _).
    + unfold assume_ready. by destruct (is_initialized _ _).
    + unfold handshake_timeout. by destruct (is_initialized _ _).
    + unfold request_timeout. simpl.
      destruct (pendingRequests (this w) !! id); [|done]. by apply settle_keeps.
Qed.

Lemma run_keeps_settled es w q s :
  promises w !! q = Some s → promises (run cls es w) !! q = Some s.
Proof.
  revert w. induction es as [|e es IH]; intros w Hq; [done |].
  simpl. by apply IH, step_keeps_settled.
Qed.

(** An entry leaves the pending map only by a message with its id, by its
    own timer, or by [disconnect()]. *)
Lemma pending_until_settled e w id p :
  Inv w → pendingRequests (this w) !! id = Some p →
  pendingRequests (this (step cls e w)) !! id = Some p ∨
  e = CallDisconnect ∨ e = TimerFires (TRequest id p) ∨
  ∃ pid chunk, e = StdoutData pid chunk.
Proof.
  intros Hinv Hp.
  destruct e as [| method params | | pid chunk | pid chunk | pid | pid | t];
    simpl; try by eauto 10.
  - left. unfold connect. destruct (isConnected (this w)); [done |].
    by destruct cls.
  - left. unfold sendRequest. destruct (process (this w)); [|done].
    simpl. rewrite lookup_insert_ne; [done |].
    apply (inv_pending _ Hinv) in Hp. lia.
  - left. destruct (is_open pid w); [|done].
    unfold ready_listener. destruct (_ && _); [|done].
    simpl. set (w1 := with_child _ _ _).
    destruct (setupMessageHandling_fields w1) as (Ht & _). by rewrite Ht.
  - left. by destruct (is_initialized pid w).
  - left. by destruct (is_open pid w).
  - case_decide as Hin; [|by left].
    destruct t as [pid | pid | pid | id' p']; simpl.
    + left. unfold send_initialize. simpl. destruct (process (this w)); [|done].
      by destruct (String.eqb _ _).
    + left. unfold assume_ready. by destruct (is_initialized _ _).
    + left. unfold handshake_timeout. by destruct (is_initialized _ _).
    + destruct (decide (id' = id)) as [->|Hne].
      * right. right. left. by rewrite (inv_timer_owner _ Hinv _ _ _ Hin Hp).
      * left. unfold request_timeout. simpl.
        destruct (pendingRequests (this w) !! id'); [|done].
        simpl. by rewrite lookup_delete_ne.
Qed.

(** While nothing is received, the wrapper is not disconnected and the
    timer has not fired, the entry stays. *)
Lemma run_pending_persists es w id p :
  Inv w → pendingRequests (this w) !! id = Some p →
  Forall (leaves_request id p) es →
  pendingRequests (this (run cls es w)) !! id = Some p.
Proof.
  intros Hinv Hp Hes. revert w Hinv Hp.
  induction Hes as [|e es He _ IH]; intros w Hinv Hp; [done |].
  simpl. apply IH; [by apply Inv_step |].
  destruct (pending_until_settled e w id p Hinv Hp)
    as [Hs|[->|[->|(pid & chunk & ->)]]]; try done.
Qed.

(** C7. On a wrapper of either class, in any state it can reach, when the
    timer of a request fires while the request's entry is still in the
    pending map (no response with its id has removed it), the promise of
    the caller, unsettled until then, is rejected with the timeout error
    and the entry is removed; the process handle, the connection flag and
    the children are untouched.  From then on, whatever else happens, the
    id is never pending again, a message with that id settles no promise,
    the rejection stands, and [sendRequest] on a wrapper that has a process
    takes a fresh, larger id, registers it, sets its timer and writes the
    request.  The window is 30 s or 45 s. *)
Theorem request_timeout_rejects_and_forgets name es id p :
  let w := run cls es (new_world name) in
  pendingRequests (this w) !! id = Some p →
  let w1 := step cls (TimerFires (TRequest id p)) w in
  (30000 ≤ request_timeout_ms cls ≤ 45000)%Z ∧
  promises w !! p = None ∧
  promises w1 !! p = Some (Rejected (request_timeout_error cls name)) ∧
  pendingRequests (this w1) = delete id (pendingRequests (this w)) ∧
  process (this w1) = process (this w) ∧
  isConnected (this w1) = isConnected (this w) ∧
  children w1 = children w ∧
  ∀ es', let w2 := run cls es' w1 in
    pendingRequests (this w2) !! id = None ∧
    promises w2 !! p = Some (Rejected (request_timeout_error cls name)) ∧
    (∀ message, prop message "id" = Some (JNum id) →
       promises (handleMessage cls message w2).1 = promises w2) ∧
    (∀ method params pid, process (this w2) = Some pid →
       let w3 := sendRequest cls method params w2 in
       let id' := requestId (this w2) in
       (id < id')%Z ∧
       pendingRequests (this w3) = <[id' := issued w2]> (pendingRequests (this w2)) ∧
       TRequest id' (issued w2) ∈ timers w3 ∧
       promises w3 = promises w2 ∧
       stdin <$> children w3 !! pid =
         (λ ch, stdin ch ++ [{| rq_id := id'; rq_method := method;
                                rq_params := if truthy params then params else None |}])
         <$> children w2 !! pid).
Proof.
  intros w Hp w1.
  assert (Inv w) as Hinv by apply Inv_run, Inv_new.
  assert (serverName (this w) = name) as Hname by apply run_serverName.
  destruct (inv_pending _ Hinv _ _ Hp) as (Hlt & Hiss & Hnone & Hin).
  assert (w1 = settle p (Rejected (request_timeout_error cls name))
                 (with_this (λ c, set_pendingRequests (delete id (pendingRequests c)) c)
                    (with_timers (cancel (TRequest id p)) w))) as Hw1.
  { unfold w1. simpl. case_decide; [|done].
    unfold request_timeout. simpl. by rewrite Hp, Hname. }
  assert (promises w1 !! p = Some (Rejected (request_timeout_error cls name))) as Hrej.
  { rewrite Hw1. simpl. rewrite Hnone. by rewrite lookup_insert_eq. }
  split; [destruct cls; simpl; lia |].
  split; [done |]. split; [done |].
  split; [by rewrite Hw1 |]. split; [by rewrite Hw1 |].
  split; [by rewrite Hw1 |]. split; [by rewrite Hw1 |].
  intros es' w2.
  assert (Inv w2) as Hinv2 by (apply Inv_run, Inv_step, Hinv).
  assert (pendingRequests (this w2) !! id = None) as Hgone.
  { apply run_never_pending_again.
    - rewrite Hw1. simpl. done.
    - rewrite Hw1. simpl. by rewrite lookup_delete_eq. }
  split; [done |]. split; [by apply run_keeps_settled |]. split.
  - intros message Hid. unfold handleMessage.
    assert (pending_for (prop message "id") (this w2) = None) as ->.
    { rewrite Hid. unfold pending_for. destruct (truthy _); [|done].
      by rewrite Hgone. }
    destruct message; try done; destruct cls; try done;
      by destruct (is_initialize_response _).
  - intros method params pid Hpid w3 id'.
    split.
    { unfold id'. pose proof (run_requestId_mono cls es' w1) as Hm.
      assert (requestId (this w1) = requestId (this w)) as Hr1 by by rewrite Hw1.
      fold w2 in Hm. lia. }
    unfold w3, sendRequest. rewrite Hpid. simpl.
    repeat split.
    + rewrite elem_of_app, list_elem_of_singleton. by right.
    + rewrite list_lookup_alter_eq. by destruct (children w2 !! pid).
Qed.

End RequestTimeouts.

Section RequestTimeoutScenario.
Import JsString Js Client Sample.

(** A [tools/call] that is never answered: the request with id 1 is
    pending when its timer fires, and its promise is rejected. *)
Lemma request_timeout_rejects_and_forgets_witness :
  let w := @run platform FirecrawlMCPClient
             [CallConnect; StderrData 0 firecrawl_banner;
              CallSendRequest "tools/call" None]
             (new_world "firecrawl") in
  let w1 := @step platform FirecrawlMCPClient (TimerFires (TRequest 1 0)) w in
  pendingRequests (this w) !! 1%Z = Some 0 ∧
  promises w1 !! 0 = Some (Rejected (Error "MCP request timeout")) ∧
  pendingRequests (this w1) !! 1%Z = None ∧
  process (this w1) = Some 0.
Proof.
  intros w w1.
  assert (pendingRequests (this w) !! 1%Z = Some 0) as Hp by (vm_compute; reflexivity).
  split; [exact Hp |].
  destruct (@request_timeout_rejects_and_forgets platform FirecrawlMCPClient
              "firecrawl"
              [CallConnect; StderrData 0 firecrawl_banner;
               CallSendRequest "tools/call" None] 1%Z 0 Hp)
    as (_ & _ & Hrej & Hdel & Hproc & _).
  split; [exact Hrej |]. split.
  - fold w w1 in Hdel. rewrite Hdel. apply lookup_delete_eq.
  - fold w w1 in Hproc. rewrite Hproc. vm_compute. reflexivity.
Defined.

End RequestTimeoutScenario.

(** ** [sendRequest], awaited *)

Section Awaiting.
Import JsString Js Client Sample.

(** [sendRequest] followed by its timer leaves the wrapper with its
    counter advanced and the pending map as it was. *)
Lemma sendRequest_then_timeout cls method params w pid :
  Inv w → process (this w) = Some pid →
  let w2 := request_timeout cls (requestId (this w)) (issued w)
              (sendRequest cls method params w) in
  requestId (this w2) = (requestId (this w) + 1)%Z ∧
  pendingRequests (this w2) = pendingRequests (this w) ∧
  process (this w2) = Some pid ∧
  isConnected (this w2) = isConnected (this w) ∧
  promises w2 !! issued w =
    Some (Rejected (request_timeout_error cls (serverName (this w)))).
Proof.
  intros Hinv Hpid. unfold sendRequest, request_timeout. rewrite Hpid. simpl.
  rewrite lookup_insert_eq. simpl.
  assert (pendingRequests (this w) !! requestId (this w) = None) as Hfresh.
  { destruct (pendingRequests (this w) !! requestId (this w)) eqn:E; [|done].
    apply (inv_pending _ Hinv) in E. lia. }
  assert (promises w !! issued w = None) as Hnew.
  { destruct (promises w !! issued w) eqn:E; [|done].
    assert (issued w < issued w); [|lia]. apply (inv_settled _ Hinv). by rewrite E. }
  rewrite Hnew, lookup_insert_eq. repeat split; try done.
  by rewrite delete_insert_id.
Qed.

(** [sendRequest] followed by the success response with its id resolves
    the promise with the result and leaves the wrapper the same way. *)
Lemma sendRequest_then_response cls method params w pid result :
  Inv w → process (this w) = Some pid →
  let message := JObj [("jsonrpc", JStr "2.0"); ("id", JNum (requestId (this w)));
                       ("result", result)] in
  let w2 := (handleMessage cls message (sendRequest cls method params w)).1 in
  requestId (this w2) = (requestId (this w) + 1)%Z ∧
  pendingRequests (this w2) = pendingRequests (this w) ∧
  process (this w2) = Some pid ∧
  promises w2 !! issued w = Some (Resolved (Some result)).
Proof.
  intros Hinv Hpid. unfold sendRequest. rewrite Hpid. simpl.
  assert (pendingRequests (this w) !! requestId (this w) = None) as Hfresh.
  { destruct (pendingRequests (this w) !! requestId (this w)) eqn:E; [|done].
    apply (inv_pending _ Hinv) in E. lia. }
  assert (promises w !! issued w = None) as Hnew.
  { destruct (promises w !! issued w) eqn:E; [|done].
    assert (issued w < issued w); [|lia]. apply (inv_settled _ Hinv). by rewrite E. }
  assert (negb (requestId (this w) =? 0)%Z = true) as Hpos.
  { pose proof (inv_next _ Hinv). apply negb_true_iff, Z.eqb_neq. lia. }
  unfold handleMessage, pending_for. simpl. rewrite Hpos, lookup_insert_eq. simpl.
  destruct cls; simpl; [|destruct (is_initialize_response _); simpl];
    rewrite Hnew, lookup_insert_eq, delete_insert_id; done.
Qed.

End Awaiting.

(** ** Namespaced names *)

Section Names.
Import JsString.

Lemma split_not_nil sep s : split sep s ≠ [].
Proof.
  destruct s as [|a s]; simpl; [done |].
  destruct (Ascii.eqb a sep); [done |]. by destruct (split sep s).
Qed.

Lemma join_cons sep p q qs :
  join sep (p :: q :: qs) = p +:+ sep +:+ join sep (q :: qs).
Proof. done. Qed.

(** [s.split('_').join('_')] is [s]. *)
Lemma join_split s :
  join (String underscore EmptyString) (split underscore s) = s.
Proof.
  induction s as [|a s IH]; simpl; [done |].
  destruct (Ascii.eqb a underscore) eqn:Ea.
  - apply Ascii.eqb_eq in Ea as ->.
    destruct (split underscore s) as [|q qs] eqn:Es; [by apply split_not_nil in Es |].
    rewrite join_cons, IH. done.
  - destruct (split underscore s) as [|q qs] eqn:Es; [by apply split_not_nil in Es |].
    destruct qs as [|q' qs].
    + simpl in *. by rewrite IH.
    + rewrite join_cons in *. rewrite str_app_cons. by rewrite IH.
Qed.

Lemma has_char_cons c a s :
  has_char c (String a s) = Ascii.eqb a c || has_char c s.
Proof.
  unfold has_char. simpl. destruct (Ascii.eqb a c); [done |].
  by destruct (indexOf c s).
Qed.

(** The part before the first separator is the first part, the rest is
    the other parts joined again. *)
Lemma split_prefix serverName rest :
  has_char underscore serverName = false →
  split underscore (serverName +:+ String underscore rest)
  = serverName :: split underscore rest.
Proof.
  induction serverName as [|a s IH]; rewrite ?str_app_cons, ?str_app_nil_l.
  - intros _. simpl. done.
  - rewrite has_char_cons. intros [Ha Hs]%orb_false_elim.
    simpl. rewrite Ha, (IH Hs). done.
Qed.

Lemma executeTool_parts serverName rest :
  has_char underscore serverName = false →
  hd EmptyString (split underscore (serverName +:+ String underscore rest))
    = serverName ∧
  join (String underscore EmptyString)
    (tail (split underscore (serverName +:+ String underscore rest))) = rest.
Proof. intros Hs. rewrite (split_prefix _ _ Hs). simpl. by rewrite join_split. Qed.

Lemma split_no_separator s :
  has_char underscore s = false → split underscore s = [s].
Proof.
  induction s as [|a s IH]; [done |].
  rewrite has_char_cons. intros [Ha Hs]%orb_false_elim.
  simpl. by rewrite Ha, (IH Hs).
Qed.

Lemma prefix_empty s : String.prefix EmptyString s = true.
Proof. by destruct s. Qed.

(** [toolName.includes('_')] tests for the separator character. *)
Lemma includes_cons needle a s :
  includes needle (String a s)
  = String.prefix needle (String a s) || includes needle s.
Proof. done. Qed.

Lemma prefix_one c a s :
  String.prefix (String c EmptyString) (String a s)
  = if Ascii.ascii_dec c a then true else false.
Proof.
  change (String.prefix (String c EmptyString) (String a s))
    with (if Ascii.ascii_dec c a then String.prefix EmptyString s else false).
  by rewrite prefix_empty.
Qed.

Lemma includes_underscore s :
  includes (String underscore EmptyString) s = has_char underscore s.
Proof.
  induction s as [|a s IH]; [done |].
  rewrite has_char_cons, includes_cons, prefix_one, IH.
  destruct (Ascii.ascii_dec underscore a) as [<-|Hne].
  - by rewrite Ascii.eqb_refl.
  - assert (Ascii.eqb a underscore = false) as ->; [|done].
    apply Ascii.eqb_neq. congruence.
Qed.


End Names.

(** ** The dispatcher *)

Section Dispatcher.
Import JsString Js Client Multi SampleServers.
Context `{Servers}.

Local Ltac run_M :=
  unfold mbind, M_bind, mret, M_ret, get, put, tell, on_client, on_multi,
    on_firecrawl in *; simpl in *.

(** C5. When the first part of the name (what precedes the first
    separator) is not a registered server, or is one whose wrapper is not
    connected, [executeTool] fails: with the unknown-server error in the
    first case and the not-connected error in the second.  Nothing is
    written to any process, nothing is spawned, and the state is as
    before. *)
Theorem executeTool_unknown_or_disconnected toolName args st :
  let serverName := hd EmptyString (split underscore toolName) in
  (∀ client, map_get serverName (clients st) = Some client →
             isConnected client = false) →
  executeTool toolName args st =
    (Throw (Error (match map_get serverName (clients st) with
                   | None => "Unknown MCP server: " +:+ serverName
                   | Some _ => "MCP server " +:+ serverName +:+ " is not connected"
                   end)), st, []).
Proof.
  intros serverName Hnc. unfold executeTool. fold serverName. run_M.
  destruct (map_get serverName (clients st)) as [client|]; [|done].
  by rewrite (Hnc client eq_refl).
Qed.

Lemma executeTool_effects toolName args st :
  Forall to_a_server (executeTool toolName args st).2.
Proof.
  unfold executeTool. run_M.
  destruct (map_get _ (clients st)) as [client|]; [|done].
  destruct (isConnected client); [|done]. simpl.
  destruct (String.eqb _ "excel-mcp").
  - by case_bool_decide.
  - unfold callTool, await_sendRequest. destruct (process client); simpl.
    + by repeat constructor.
    + done.
Qed.

End Dispatcher.

Section DispatcherScenarios.
Import JsString Js Client Multi SampleServers.

(** The two scenarios of the design document. *)
Lemma executeTool_unknown_or_disconnected_witness :
  @executeTool failing "unknownserver_foo" (Some (JObj [])) new_MultiMCPClient
    = (Throw (Error "Unknown MCP server: unknownserver"), new_MultiMCPClient, []) ∧
  @executeTool failing "realserver_foo" (Some (JObj []))
     (set_clients [("realserver", new_wrapper "realserver")] new_MultiMCPClient)
    = (Throw (Error "MCP server realserver is not connected"),
       set_clients [("realserver", new_wrapper "realserver")] new_MultiMCPClient, []).
Proof.
  split.
  - apply (@executeTool_unknown_or_disconnected failing "unknownserver_foo").
    intros client. vm_compute. discriminate.
  - apply (@executeTool_unknown_or_disconnected failing "realserver_foo").
    intros client. vm_compute. intros [= <-]. reflexivity.
Defined.

End DispatcherScenarios.

Section TopLevelDispatch.
Import JsString Js Client Multi SampleServers.
Context `{Servers}.

Local Ltac run_M :=
  unfold mbind, M_bind, mret, M_ret, get, put, tell, on_client, on_multi,
    on_firecrawl in *; simpl in *.

(** C10. A name that holds a separator is dispatched by
    [multiMCPClient.executeTool] and the singleton client is neither used
    nor changed.  A name that holds none never reaches the
    [MultiMCPClient]: [executeMCPTool] awaits [connect()] of the singleton
    client and, unless that throws, calls its [callTool] with the name
    unchanged; every request it writes goes to the singleton's process and
    is that [tools/call]. *)
Theorem executeMCPTool_routes toolName args app :
  let r := executeMCPTool toolName args app in
  if has_char underscore toolName then
    r = on_multi (executeTool toolName args) app ∧
    firecrawlMCPClient r.1.2 = firecrawlMCPClient app ∧
    firecrawl_children r.1.2 = firecrawl_children app ∧
    Forall to_a_server r.2
  else
    multiMCPClient r.1.2 = multiMCPClient app ∧
    Forall on_singleton r.2 ∧
    Forall (forwards toolName args) r.2 ∧
    let c := await_connect Singleton (firecrawl_children app)
               (firecrawlMCPClient app) in
    match c.1.1 with
    | Throw e => r.1.1 = Throw e ∧ r.2 = c.2
    | Normal _ =>
        let k := callTool FirecrawlMCPClient Singleton toolName args c.1.2 in
        r.1.1 = k.1.1 ∧ r.2 = c.2 ++ k.2 ∧ firecrawlMCPClient r.1.2 = k.1.2
    end.
Proof.
  intros r. unfold r, executeMCPTool.
  change "_" with (String underscore EmptyString).
  rewrite includes_underscore. destruct (has_char underscore toolName).
  - pose proof (executeTool_effects toolName args (multiMCPClient app)) as He.
    run_M. destruct (executeTool toolName args (multiMCPClient app)) as [[a mc] e].
    done.
  - run_M. unfold await_connect, callTool, await_sendRequest.
    destruct (isConnected (firecrawlMCPClient app)); simpl.
    + destruct (process (firecrawlMCPClient app)); simpl; repeat split;
        by repeat constructor.
    + destruct (handshake _ _) as [|e exited]; simpl.
      * repeat split; by repeat constructor.
      * repeat split; by repeat constructor.
Qed.

End TopLevelDispatch.

(** ** Discovery failures *)

Section DiscoveryFailures.
Import JsString Js Client Multi SampleServers.

Local Ltac run_M :=
  unfold mbind, M_bind, mret, M_ret, get, put, tell, on_client, on_multi,
    on_firecrawl in *; simpl in *.

(** C9, as stated, fails: [MCPClient.listTools] returns the empty list
    for a failing [firecrawl] server as well, which is not the server known
    to lack discovery; both exits of its [catch] return the empty list.
    ([FirecrawlMCPClient.listTools] propagates the failure.) *)
Lemma listTools_empty_for_any_server :
  String.eqb "firecrawl" "excel-mcp" = false ∧
  (@listTools failing (Server "firecrawl") (connected "firecrawl")).1.1 = Normal [] ∧
  (@Firecrawl_listTools failing Singleton (connected "firecrawl")).1.1
    = Throw (Error "Method not found").
Proof. by vm_compute. Qed.

(** [MCPClient.listTools] never throws. *)
Lemma listTools_returns `{Servers} t c :
  ∃ tools, (listTools t c).1.1 = Normal tools.
Proof.
  unfold listTools, await_sendRequest. run_M.
  destruct (process c); simpl; repeat case_match; simplify_eq/=; eauto.
Qed.

(** C9, amended.  When the [tools/list] requests of a server fail,
    [MCPClient.listTools] returns the empty list rather than propagating
    the failure, whatever the server is.  In [getAllTools] such a server,
    when connected, adds nothing to the result and no error reaches the
    caller; for [excel-mcp] the statically declared list is used. *)
Theorem listTools_failure_yields_empty `{Servers} name c :
  (∀ r, ∃ e, list_reply (Server name) r = Throw e) →
  (listTools (Server name) c).1.1 = Normal [] ∧
  ∀ acc st, map_get name (clients st) = Some c → isConnected c = true →
    (refresh_server acc name st).1.1 =
      acc ++ (if String.eqb name "excel-mcp"
              then map (prefixed name) getExcelMCPServerTools else []).
Proof.
  intros Hfail.
  assert ((listTools (Server name) c).1.1 = Normal []) as Hl.
  { destruct (Hfail {| rq_id := requestId c; rq_method := "tools/list";
                       rq_params := None |}) as [e1 He1].
    destruct (Hfail {| rq_id := (requestId c + 1)%Z; rq_method := "tools/list";
                       rq_params := Some (JObj []) |}) as [e2 He2].
    unfold listTools, await_sendRequest. run_M.
    destruct (process c) eqn:Hp; simpl; rewrite ?He1; simpl; rewrite ?Hp; simpl;
      rewrite ?He2; simpl; by repeat case_match. }
  split; [done |].
  intros acc st Hc Hconn. unfold refresh_server. run_M. rewrite Hc, Hconn.
  destruct (String.eqb name "excel-mcp"); [done |]. simpl.
  destruct (listTools (Server name) c) as [[r c'] e]. simpl in Hl. subst r.
  simpl. by rewrite app_nil_r.
Qed.

Lemma listTools_failure_yields_empty_witness :
  (@listTools failing (Server "firecrawl") (connected "firecrawl")).1.1 = Normal [].
Proof.
  apply (@listTools_failure_yields_empty failing "firecrawl").
  intros r. exists (Error "Method not found"). reflexivity.
Defined.

End DiscoveryFailures.

(** ** The registry: one turn of the refresh loop *)

Section RefreshLoop.
Import JsString Js Client Multi SampleServers.
Context `{Servers}.

Local Ltac run_M :=
  unfold mbind, M_bind, mret, M_ret, get, put, tell, on_client, on_multi,
    on_firecrawl in *; simpl in *.

Lemma listTools_spec t c :
  ∃ tools c' es,
    listTools t c = (Normal tools, c', es) ∧
    isConnected c' = isConnected c ∧ serverName c' = serverName c ∧
    process c' = process c ∧
    (tools = [] ∨ ∃ r, list_reply t r = Normal (Tools tools)) ∧
    Forall (discovers t) es ∧ length es ≤ 2 ∧ discovery_rounds es = [].
Proof.
  assert (∀ (b : bool) (x : completion (list Tool)),
            (if b then x else x) = x) as Hsame by by intros [].
  unfold listTools, await_sendRequest. run_M.
  destruct (process c) eqn:Hp; simpl; rewrite ?Hp; simpl.
  - match goal with
    | |- context [list_reply t ?r] =>
        destruct (list_reply t r) as [[| |ts]|e] eqn:E1
    end; simpl; rewrite ?Hp, ?Hsame; simpl.
    + do 3 eexists. split; [done |]. repeat split; eauto; by repeat constructor.
    + do 3 eexists. split; [done |]. repeat split; eauto; by repeat constructor.
    + do 3 eexists. split; [done |]. repeat split; eauto; by repeat constructor.
    + match goal with
      | |- context [list_reply t ?r] =>
          destruct (list_reply t r) as [[| |ts]|e'] eqn:E2
      end; simpl; rewrite ?Hsame;
        (do 3 eexists; split; [done |]; repeat split; eauto; by repeat constructor).
  - rewrite Hsame. do 3 eexists. split; [done |].
    repeat split; eauto; by repeat constructor.
Qed.

Lemma map_get_set_eq {V} k (v : V) m :
  is_Some (map_get k m) → map_get k (map_set k v m) = Some v.
Proof.
  induction m as [|[k' v'] m IH]; simpl; [by intros [? ?] |].
  destruct (String.eqb k' k) eqn:E; simpl; rewrite E; [done | apply IH].
Qed.

Lemma map_get_set_ne {V} k k' (v : V) m :
  k ≠ k' → map_get k' (map_set k v m) = map_get k' m.
Proof.
  intros Hne. induction m as [|[k0 v0] m IH]; simpl.
  - destruct (String.eqb k k') eqn:E; [|done]. by apply String.eqb_eq in E.
  - destruct (String.eqb k0 k) eqn:E; simpl.
    + apply String.eqb_eq in E as ->.
      destruct (String.eqb k k') eqn:E'; [|done]. by apply String.eqb_eq in E'.
    + by rewrite IH.
Qed.

Lemma map_set_keys_present {V} k (v : V) m :
  is_Some (map_get k m) → map fst (map_set k v m) = map fst m.
Proof.
  induction m as [|[k' v'] m IH]; simpl; [by intros [? ?] |].
  destruct (String.eqb k' k) eqn:E; simpl; [done |].
  intros Hs. by rewrite IH.
Qed.

(** What one turn of the loop does. *)
Lemma refresh_server_spec acc name st :
  ∃ slice st' es,
    refresh_server acc name st = (acc ++ slice, st', es) ∧
    map fst (clients st') = map fst (clients st) ∧
    (∀ n, connected_to st' n = connected_to st n) ∧
    lastToolsRefresh st' = lastToolsRefresh st ∧
    discovery_rounds es = (if polled st name then [Server name] else []) ∧
    Forall (discovers (Server name)) es ∧
    length (List.filter is_request es) ≤ 2 * length (discovery_rounds es) ∧
    ((slice = [] ∧ toolsCache st' = toolsCache st) ∨
     (∃ tools, reported_by name tools ∧
               slice = map (prefixed name) tools ∧
               toolsCache st' = map_set name slice (toolsCache st))).
Proof.
  unfold refresh_server, polled, connected_to, reported_by.
  remember getExcelMCPServerTools as static eqn:Hstatic. run_M.
  destruct (map_get name (clients st)) as [client|] eqn:Hc.
  2:{ exists [], st, []. rewrite app_nil_r. repeat split; try done. by left. }
  destruct (isConnected client) eqn:Hconn.
  2:{ exists [], st, []. rewrite app_nil_r. repeat split; try done. by left. }
  destruct (String.eqb name "excel-mcp") eqn:Hx; simpl.
  - apply String.eqb_eq in Hx as ->.
    eexists _, _, []. split; [done |]. simpl. repeat split; try done.
    right. eexists. split; [|done]. right. by left.
  - destruct (listTools_spec (Server name) client)
      as (tools & c' & es & -> & Hc' & _ & _ & Htools & Hes & Hlen & Hrounds).
    simpl. eexists _, _, _. split; [done |]. simpl.
    assert (∀ n, match map_get n (map_set name c' (clients st)) with
                 | Some c => isConnected c
                 | None => false
                 end = match map_get n (clients st) with
                       | Some c => isConnected c
                       | None => false
                       end) as Hconn'.
    { intros n. destruct (decide (name = n)) as [<-|Hne].
      - rewrite map_get_set_eq, Hc; [congruence | by rewrite Hc].
      - by rewrite map_get_set_ne. }
    repeat split; try done.
    + apply map_set_keys_present. by rewrite Hc.
    + by rewrite app_nil_r, Hrounds.
    + rewrite app_nil_r. constructor; [done |]. done.
    + rewrite app_nil_r, Hrounds. simpl.
      etrans; [apply List.filter_length_le | lia].
    + right. exists tools. split; [|done].
      destruct Htools as [->|[r Hr]]; [by left | right; right; eauto].
Qed.

(** What the whole loop does. *)
Lemma for_each_refresh_spec names acc st :
  ∃ slices st' es,
    for_each refresh_server acc names st
      = (acc ++ concat (map snd slices), st', es) ∧
    map fst (clients st') = map fst (clients st) ∧
    (∀ n, connected_to st' n = connected_to st n) ∧
    lastToolsRefresh st' = lastToolsRefresh st ∧
    discovery_rounds es = map Server (List.filter (polled st) names) ∧
    Forall (λ e, is_stamp e = false) es ∧
    length (List.filter is_request es) ≤ 2 * length (discovery_rounds es) ∧
    map fst slices `sublist_of` names ∧
    Forall slice_of slices ∧
    toolsCache st' = store_slices slices (toolsCache st).
Proof.
  revert acc st. induction names as [|name names IH]; intros acc st.
  - exists [], st, []. simpl. rewrite app_nil_r. by repeat split.
  - simpl. unfold mbind, M_bind.
    destruct (refresh_server_spec acc name st)
      as (slice & st1 & es1 & -> & Hk1 & Hc1 & Hl1 & Hr1 & Hd1 & Hn1 & Hs1).
    destruct (IH (acc ++ slice) st1)
      as (slices & st2 & es2 & -> & Hk2 & Hc2 & Hl2 & Hr2 & Hd2 & Hn2 & Hsub & Hsl & Hcache).
    assert (Forall (λ e, is_stamp e = false) es1) as Hst1.
    { eapply Forall_impl; [exact Hd1 |]. by intros []. }
    assert (List.filter (polled st1) names = List.filter (polled st) names) as Hf.
    { apply List.filter_ext. intros n. unfold polled. by rewrite Hc1. }
    destruct Hs1 as [[-> Hs1]|(tools & Hrep & -> & Hs1)].
    + exists slices, st2, (es1 ++ es2). rewrite app_nil_r. split; [done |].
      split; [congruence |]. split; [intros n; by rewrite Hc2 |].
      split; [congruence |]. split.
      { unfold discovery_rounds in *. rewrite omap_app, Hr1, Hr2, Hf.
        by destruct (polled st name). }
      split; [by apply Forall_app |]. split.
      { unfold discovery_rounds in *. rewrite List.filter_app, omap_app, !length_app.
        lia. }
      split; [by apply sublist_cons |]. split; [done |]. by rewrite Hcache, Hs1.
    + exists ((name, map (prefixed name) tools) :: slices), st2, (es1 ++ es2).
      split; [simpl; by rewrite <- app_assoc |].
      split; [congruence |]. split; [intros n; by rewrite Hc2 |].
      split; [congruence |]. split.
      { unfold discovery_rounds in *. rewrite omap_app, Hr1, Hr2, Hf.
        by destruct (polled st name). }
      split; [by apply Forall_app |]. split.
      { unfold discovery_rounds in *. rewrite List.filter_app, omap_app, !length_app.
        lia. }
      split; [by apply sublist_skip |]. split.
      { constructor; [by exists tools | done]. }
      by rewrite Hcache, Hs1.
Qed.

(** A turn of the loop of [getAllTools] on a server that is not
    connected does nothing. *)
Lemma refresh_server_skips acc name st :
  connected_to st name = false → refresh_server acc name st = (acc, st, []).
Proof.
  unfold connected_to, refresh_server. run_M.
  destruct (map_get name (clients st)) as [c|]; [|done]. by intros ->.
Qed.





End RefreshLoop.

(** ** The registry: the cache and the names *)

Section Registry.
Import JsString Js Client Multi SampleServers.

Local Ltac run_M :=
  unfold mbind, M_bind, mret, M_ret, get, put, tell, on_client, on_multi,
    on_firecrawl in *; simpl in *.






Lemma map_set_Forall {V} (P : string * V → Prop) k v m :
  P (k, v) → Forall P m → Forall P (map_set k v m).
Proof.
  intros Hkv Hm. induction Hm as [|[k' v'] m Hh Hm IH]; simpl.
  - by repeat constructor.
  - destruct (String.eqb k' k) eqn:E.
    + apply String.eqb_eq in E as ->. by constructor.
    + by constructor.
Qed.




Lemma cache_ok_new : cache_ok new_MultiMCPClient.
Proof. repeat split; constructor. Qed.



(** A separator inside a server name makes two names coincide as well:
    tool [b_c] of server [a] and tool [c] of server [a_b]. *)
Lemma separator_in_server_name_collides :
  tool_name (prefixed "a" (static_tool "b_c" "first" [] []))
  = tool_name (prefixed "a_b" (static_tool "c" "second" [] [])).
Proof. reflexivity. Qed.

(** Two calls: the first, with nothing cached, polls the connected server;
    the second, one second later, returns the same list from the cache and
    writes nothing. *)
Lemma second_call_is_served_from_the_cache :
  let st := with_connected ["firecrawl"] in
  let first := @getAllTools listing 1000000 st in
  let second := @getAllTools listing 1001000 first.1.2 in
  discovery_rounds first.2 = [Server "firecrawl"] ∧
  second = (first.1.1, first.1.2, []).
Proof. by vm_compute. Qed.


End Registry.

(** ** The codec on any chunking *)

Section CodecChunks.
Import JsString Codec.
Context {St : Type} (on_line : string → St → St).

(** What the listener does to text that ends in an unfinished line. *)
Lemma drain_lines_partial lines partial (st : St) :
  Forall (λ l, indexOf newline l = None) lines →
  indexOf newline partial = None →
  drain on_line (unlines lines +:+ partial) st =
  (partial,
   foldl (λ st l, if is_empty (trim l) then st else on_line (trim l) st)
     st lines).
Proof.
  intros Hl Hp. rewrite drain_app, (drain_unlines _ _ _ Hl). simpl.
  rewrite str_app_nil_l, drain_unfold. by rewrite Hp.
Qed.

(** X1. Two ways of cutting the same text into chunks leave a listener
    that starts with an empty buffer in the same state, with the same
    text in its buffer. *)
Theorem codec_chunking_independent chunks chunks' (st : St) :
  concat_chunks chunks = concat_chunks chunks' →
  feed on_line chunks (EmptyString, st) = feed on_line chunks' (EmptyString, st).
Proof. intros Heq. by rewrite !feed_chunks, Heq. Qed.

(** X2. When the chunks, concatenated, are the lines [lines], each ended
    by a newline, followed by text without a newline, the [if (line)]
    block has run once on every line that is not blank, trimmed and in
    order, and exactly the unfinished text waits in the buffer. *)
Theorem codec_handles_complete_lines chunks lines partial (st : St) :
  Forall (λ l, indexOf newline l = None) lines →
  indexOf newline partial = None →
  concat_chunks chunks = unlines lines +:+ partial →
  feed on_line chunks (EmptyString, st) =
  (partial,
   foldl (λ st l, if is_empty (trim l) then st else on_line (trim l) st)
     st lines).
Proof.
  intros Hl Hp Heq. rewrite feed_chunks. unfold on_data. simpl.
  rewrite str_app_nil_l, Heq. by apply drain_lines_partial.
Qed.

(** X3. Between two [data] events the buffer of a listener holds no
    newline: no complete line is ever left waiting. *)
Theorem codec_buffer_holds_no_line chunks (st : St) :
  indexOf newline (feed on_line chunks (EmptyString, st)).1 = None.
Proof. rewrite feed_chunks. apply drain_rest. Qed.

End CodecChunks.

Section CodecScenarios.
Import JsString Codec.

Lemma codec_chunking_independent_witness :
  feed (λ line seen, seen ++ [line])
    ["{" +:+ dq +:+ "id"; dq +:+ ":1}" +:+ String newline "{}"] (EmptyString, [])
  = feed (λ line seen, seen ++ [line])
      ["{" +:+ dq +:+ "id" +:+ dq +:+ ":1}" +:+ String newline "{"; "}"]
      (EmptyString, []).
Proof.
  apply (codec_chunking_independent (λ line seen, seen ++ [line])).
  reflexivity.
Defined.

Lemma codec_handles_complete_lines_witness :
  feed (λ line seen, seen ++ [line])
    ["  {}" +:+ String newline (String newline "{"); "}" +:+ String newline "{" +:+ dq]
    (EmptyString, [])
  = ("{" +:+ dq, ["{}"; "{}"]).
Proof.
  apply (codec_handles_complete_lines (λ line seen, seen ++ [line]) _
           ["  {}"; EmptyString; "{}"] ("{" +:+ dq)).
  - repeat constructor.
  - reflexivity.
  - reflexivity.
Defined.

End CodecScenarios.

(** ** Outstanding requests: settled once, or abandoned *)

Section OutstandingRequests.
Import JsString Js Client Requests Sample.
Context `{Platform} (cls : client_class).

Lemma abandoned_settles_only p w w' :
  settles_only w w' → abandoned p w → abandoned p w'.
Proof.
  intros Hs (Hlt & Hnone & Hnp). repeat split.
  - by rewrite (so_issued _ _ Hs).
  - destruct (so_promises _ _ Hs p) as [->|(_ & k & Hk & _)]; [done |].
    by apply Hnp in Hk.
  - intros id Hid. apply (so_pending _ _ Hs) in Hid. by apply Hnp in Hid.
Qed.

Lemma abandoned_same p w w' :
  issued w' = issued w → promises w' = promises w →
  pendingRequests (this w') = pendingRequests (this w) →
  abandoned p w → abandoned p w'.
Proof. intros Hi Hp Hq (? & ? & ?). unfold abandoned. by rewrite Hi, Hp, Hq. Qed.

(** No event settles an abandoned promise or registers it again. *)
Lemma abandoned_step p e w :
  Inv w → abandoned p w → abandoned p (step cls e w).
Proof.
  intros Hinv Hab.
  destruct e as [| method params | | pid chunk | pid chunk | pid | pid | t]; simpl.
  - unfold connect. destruct (isConnected (this w)); [done |].
    destruct cls; [by eapply abandoned_same |].
    match goal with
    | |- context [setupMessageHandling ?x] =>
        destruct (setupMessageHandling_fields x) as (Ht & Hp & Hi & _)
    end.
    eapply abandoned_same; [..|exact Hab]; simpl; by rewrite ?Ht, ?Hp, ?Hi.
  - destruct Hab as (Hlt & Hnone & Hnp). unfold sendRequest.
    destruct (process (this w)) as [pid|]; simpl.
    + repeat split; simpl; [lia | done |].
      intros id. destruct (decide (id = requestId (this w))) as [->|Hne].
      * rewrite lookup_insert_eq. intros [= Heq]. lia.
      * rewrite lookup_insert_ne; [apply Hnp | done].
    + repeat split; simpl; [lia | | done].
      destruct (promises w !! issued w); [done |].
      rewrite lookup_insert_ne; [done | lia].
  - unfold disconnect. destruct (isConnected (this w)); [|done].
    destruct Hab as (Hlt & Hnone & Hnp).
    destruct (process (this w)); repeat split; simpl; try done;
      intros id; by rewrite lookup_empty.
  - destruct (is_open pid w); [|done].
    eapply abandoned_settles_only; [apply ready_listener_settles_only | done].
  - destruct (is_open pid w); [|done].
    eapply abandoned_settles_only; [apply stdout_data_settles_only | done].
  - destruct (is_initialized pid w); [done |]. by eapply abandoned_same.
  - destruct (is_open pid w); [|done]. by eapply abandoned_same.
  - case_decide as Hin; [|done].
    destruct t as [pid | pid | pid | id' p']; simpl.
    + unfold send_initialize. simpl. destruct (process (this w)); [|done].
      destruct (String.eqb _ _); by eapply abandoned_same.
    + unfold assume_ready. simpl. destruct (is_initialized _ _); [done |].
      by eapply abandoned_same.
    + unfold handshake_timeout. destruct (is_initialized _ _); [done |].
      by eapply abandoned_same.
    + unfold request_timeout. simpl.
      destruct (pendingRequests (this w) !! id') as [p0|] eqn:Hp0; [|done].
      assert (p0 = p') as -> by by eapply (inv_timer_owner _ Hinv).
      destruct Hab as (Hlt & Hnone & Hnp).
      assert (p' ≠ p) as Hne by (intros ->; by apply Hnp in Hp0).
      repeat split; simpl; [done | |].
      * destruct (promises w !! p'); [done |]. by rewrite lookup_insert_ne.
      * intros id. rewrite lookup_delete. case_decide; [done | apply Hnp].
Qed.

Lemma abandoned_run p es w :
  Inv w → abandoned p w → abandoned p (run cls es w).
Proof.
  revert w. induction es as [|e es IH]; intros w Hinv Hab; [done |].
  simpl. apply IH; [by apply Inv_step | by apply abandoned_step].
Qed.

(** X4. [disconnect()] on a connected wrapper empties the pending map
    without settling anything: the promise of a request that was
    outstanding is neither resolved nor rejected by any later event, not
    by its own timer and not by a late response, and no entry holds it
    again. *)
Theorem disconnect_abandons_outstanding_requests name es id p es' :
  let w := run cls es (new_world name) in
  isConnected (this w) = true →
  pendingRequests (this w) !! id = Some p →
  let w1 := step cls CallDisconnect w in
  pendingRequests (this w1) = ∅ ∧
  process (this w1) = None ∧
  isConnected (this w1) = false ∧
  promises (run cls es' w1) !! p = None ∧
  ∀ id', pendingRequests (this (run cls es' w1)) !! id' ≠ Some p.
Proof.
  intros w Hconn Hp w1.
  assert (Inv w) as Hinv by apply Inv_run, Inv_new.
  destruct (inv_pending _ Hinv _ _ Hp) as (_ & Hlt & Hnone & _).
  assert (pendingRequests (this w1) = ∅ ∧ process (this w1) = None ∧
          isConnected (this w1) = false ∧ promises w1 = promises w ∧
          issued w1 = issued w) as (Hq & Hpr & Hc & Hpm & Hi).
  { unfold w1. simpl. unfold disconnect. rewrite Hconn.
    by destruct (process (this w)). }
  assert (abandoned p w1) as Hab.
  { repeat split; [by rewrite Hi | by rewrite Hpm |].
    intros id'. by rewrite Hq, lookup_empty. }
  pose proof (abandoned_run p es' w1 (Inv_step cls _ _ Hinv) Hab) as (_ & Hn & Hnp).
  done.
Qed.

Lemma handleMessage_no_match message w :
  pending_for (prop message "id") (this w) = None →
  promises (handleMessage cls message w).1 = promises w ∧
  pendingRequests (this (handleMessage cls message w).1) = pendingRequests (this w).
Proof.
  intros Hnone. unfold handleMessage. rewrite Hnone.
  destruct message; try done;
    (destruct cls; [done |]); by destruct (is_initialize_response _).
Qed.

(** X5. A response is matched to the request that was sent with its id:
    after [sendRequest] on a wrapper that has a process, a message whose
    id is the id just taken settles the promise of that call, rejected with
    the error of the message when it carries one and resolved with its
    result otherwise; every other promise and the rest of the pending map
    are as before, and a second copy of the message settles nothing. *)
Theorem response_settles_its_request name es method params message :
  let w := run cls es (new_world name) in
  is_Some (process (this w)) →
  prop message "id" = Some (JNum (requestId (this w))) →
  let w1 := sendRequest cls method params w in
  let w2 := (handleMessage cls message w1).1 in
  pendingRequests (this w1) !! requestId (this w) = Some (issued w) ∧
  promises w1 !! issued w = None ∧
  (handleMessage cls message w1).2 = None ∧
  promises w2 !! issued w = Some (settlement_of message) ∧
  (∀ q, q ≠ issued w → promises w2 !! q = promises w !! q) ∧
  pendingRequests (this w2) = pendingRequests (this w) ∧
  promises (handleMessage cls message w2).1 = promises w2 ∧
  pendingRequests (this (handleMessage cls message w2).1) = pendingRequests (this w2).
Proof.
  intros w [pid Hpid] Hid w1 w2.
  assert (Inv w) as Hinv by apply Inv_run, Inv_new.
  assert (pendingRequests (this w) !! requestId (this w) = None) as Hfresh.
  { destruct (pendingRequests (this w) !! requestId (this w)) eqn:E; [|done].
    apply (inv_pending _ Hinv) in E. lia. }
  assert (promises w !! issued w = None) as Hnew.
  { destruct (promises w !! issued w) eqn:E; [|done].
    assert (issued w < issued w); [|lia]. apply (inv_settled _ Hinv). by rewrite E. }
  assert (negb (requestId (this w) =? 0)%Z = true) as Hpos.
  { pose proof (inv_next _ Hinv). apply negb_true_iff, Z.eqb_neq. lia. }
  assert (pendingRequests (this w1) = <[requestId (this w) := issued w]> (pendingRequests (this w))
          ∧ promises w1 = promises w) as [Hq1 Hp1].
  { unfold w1, sendRequest. by rewrite Hpid. }
  assert (pending_for (prop message "id") (this w1)
          = Some (requestId (this w), issued w)) as Hfound.
  { unfold pending_for. rewrite Hid. simpl. by rewrite Hpos, Hq1, lookup_insert_eq. }
  assert (message ≠ JNull) as Hnn by (intros ->; done).
  (* the state after the matched message, whatever the class *)
  set (w' := with_this (λ c, set_pendingRequests
                               (delete (requestId (this w)) (pendingRequests c)) c) w1).
  assert (∃ wm, (handleMessage cls message w1) = (wm, None) ∧
                promises wm = promises (settle (issued w) (settlement_of message) w') ∧
                pendingRequests (this wm) = pendingRequests (this w')) as (wm & Hh & Hpm & Hqm).
  { unfold handleMessage. rewrite Hfound. fold w'.
    assert (match prop message "error" with
            | Some err => if truthy (Some err)
                          then settle (issued w) (Rejected (remote_error err)) w'
                          else settle (issued w) (Resolved (prop message "result")) w'
            | None => settle (issued w) (Resolved (prop message "result")) w'
            end = settle (issued w) (settlement_of message) w') as ->.
    { unfold settlement_of. destruct (prop message "error") as [err|]; [|done].
      by destruct (truthy (Some err)). }
    destruct message; try done;
      (destruct cls; [by eexists |]);
      (destruct (is_initialize_response _); by eexists). }
  assert (pendingRequests (this w2) = pendingRequests (this w)) as Hq2.
  { unfold w2. rewrite Hh. simpl. rewrite Hqm. unfold w'. simpl.
    by rewrite Hq1, delete_insert_id. }
  assert (promises w2 = <[issued w := settlement_of message]> (promises w)) as Hp2.
  { unfold w2. rewrite Hh. simpl. rewrite Hpm. simpl. by rewrite Hp1, Hnew. }
  split; [by rewrite Hq1, lookup_insert_eq |].
  split; [by rewrite Hp1 |].
  split; [by rewrite Hh |].
  split; [by rewrite Hp2, lookup_insert_eq |].
  split; [intros q Hne; by rewrite Hp2, lookup_insert_ne |].
  split; [done |].
  assert (pending_for (prop message "id") (this w2) = None) as Hnone.
  { unfold pending_for. rewrite Hid. simpl. by rewrite Hpos, Hq2, Hfresh. }
  by apply handleMessage_no_match.
Qed.

End OutstandingRequests.

Section OutstandingRequestScenarios.
Import JsString Js Client Requests Sample.

(** A [tools/list] request is outstanding when [disconnect()] is called;
    its timer fires later and the response arrives after that. *)
Lemma disconnect_abandons_outstanding_requests_witness :
  let w := @run platform FirecrawlMCPClient
             [CallConnect; StderrData 0 firecrawl_banner;
              CallSendRequest "tools/list" None]
             (new_world "firecrawl") in
  let later := [TimerFires (TRequest 1 0);
                StdoutData 0 (response_line +:+ eol)] in
  pendingRequests (this w) !! 1%Z = Some 0 ∧
  promises (@run platform FirecrawlMCPClient later
              (@step platform FirecrawlMCPClient CallDisconnect w)) !! 0 = None.
Proof.
  intros w later.
  assert (isConnected (this w) = true) as Hc by (vm_compute; reflexivity).
  assert (pendingRequests (this w) !! 1%Z = Some 0) as Hp by (vm_compute; reflexivity).
  split; [exact Hp |].
  destruct (@disconnect_abandons_outstanding_requests platform FirecrawlMCPClient
              "firecrawl"
              [CallConnect; StderrData 0 firecrawl_banner;
               CallSendRequest "tools/list" None] 1%Z 0 later Hc Hp)
    as (_ & _ & _ & Hnone & _).
  exact Hnone.
Defined.

(** The second request of a wrapper, answered by [response_message]. *)
Lemma response_settles_its_request_witness :
  let w := @run platform MCPClient
             [CallConnect; TimerFires (TInitialize 0)] (new_world "firecrawl") in
  let w1 := sendRequest MCPClient "tools/list" None w in
  requestId (this w) = 2%Z ∧
  promises (handleMessage MCPClient response_message w1).1 !! 0
    = Some (Resolved (Some (JObj []))).
Proof.
  intros w w1.
  assert (is_Some (process (this w))) as Hpid by (exists 0; vm_compute; reflexivity).
  assert (prop response_message "id" = Some (JNum (requestId (this w)))) as Hid
    by (vm_compute; reflexivity).
  split; [vm_compute; reflexivity |].
  destruct (@response_settles_its_request platform MCPClient "firecrawl"
              [CallConnect; TimerFires (TInitialize 0)] "tools/list" None
              response_message Hpid Hid)
    as (_ & _ & _ & Hsettled & _).
  exact Hsettled.
Defined.

End OutstandingRequestScenarios.

(** ** [FirecrawlMCPClient]: what makes it connected *)

Section FirecrawlHandshake.
Import JsString Js Client Requests Sample.
Context `{Platform}.

Lemma firecrawl_timers_step e w :
  Forall firecrawl_timer (timers w) →
  Forall firecrawl_timer (timers (step FirecrawlMCPClient e w)).
Proof.
  intros Ht.
  destruct e as [| method params | | pid chunk | pid chunk | pid | pid | t]; simpl.
  - unfold connect. destruct (isConnected (this w)); [done |]. simpl.
    apply Forall_app. split; [done | by repeat constructor].
  - unfold sendRequest. destruct (process (this w)); simpl; [|done].
    apply Forall_app. split; [done | by repeat constructor].
  - unfold disconnect. destruct (isConnected (this w)); [|done].
    by destruct (process (this w)).
  - destruct (is_open pid w); [|done].
    by rewrite (so_timers _ _ (ready_listener_settles_only _ pid chunk w)).
  - destruct (is_open pid w); [|done].
    by rewrite (so_timers _ _ (stdout_data_settles_only _ pid chunk w)).
  - by destruct (is_initialized pid w).
  - by destruct (is_open pid w).
  - case_decide as Hin; [|done].
    assert (Forall firecrawl_timer (cancel t (timers w))) as Hc.
    { apply Forall_forall. intros x Hx. rewrite Forall_forall in Ht.
      by eapply Ht, elem_of_cancel. }
    rewrite Forall_forall in Ht. specialize (Ht _ Hin).
    destruct t as [pid | pid | pid | id p]; try done; simpl.
    + unfold handshake_timeout. by destruct (is_initialized _ _).
    + unfold request_timeout. simpl. by destruct (pendingRequests (this w) !! id).
Qed.

Lemma firecrawl_codec_keeps_flag pid i chunk w :
  isConnected (this (run_codec FirecrawlMCPClient pid i chunk w))
  = isConnected (this w).
Proof.
  unfold run_codec. destruct (_ ≫= _) as [buffer|]; [|done]. simpl.
  unfold Codec.on_data. simpl.
  apply (drain_preserves (on_line FirecrawlMCPClient)
           (λ st, isConnected (this st) = isConnected (this w))); [|done].
  intros line st Hst. unfold on_line.
  destruct (JSON_parse line) as [message|]; [|done].
  unfold handleMessage.
  destruct message; try done;
    (destruct (pending_for _ _) as [[k p]|]; [|done]);
    repeat case_match; simpl; done.
Qed.

Lemma firecrawl_step_flag e w :
  Forall firecrawl_timer (timers w) →
  isConnected (this (step FirecrawlMCPClient e w)) = true →
  isConnected (this w) = true ∨ is_banner FirecrawlMCPClient e = true.
Proof.
  intros Ht.
  destruct e as [| method params | | pid chunk | pid chunk | pid | pid | t]; simpl.
  - unfold connect. destruct (isConnected (this w)) eqn:E; [by left |].
    simpl. by rewrite E.
  - unfold sendRequest. destruct (process (this w)); simpl; by left.
  - unfold disconnect. destruct (isConnected (this w)) eqn:E; [by left |].
    simpl. congruence.
  - destruct (is_open pid w); [|by left].
    unfold ready_listener.
    match goal with
    | |- context [if ?c then _ else _] => destruct c eqn:E
    end; [|by left].
    apply andb_true_iff in E as [E _]. intros _. right. exact E.
  - destruct (is_open pid w); [|by left].
    unfold stdout_data. destruct (children w !! pid) as [ch|]; [|by left].
    generalize (seq 0 (length (codecs ch))) as listening. intros listening.
    intros Hc. left. revert w Ht Hc.
    induction listening as [|i rest IH] using rev_ind; intros w Ht; simpl; [done |].
    rewrite foldl_app. simpl. rewrite firecrawl_codec_keeps_flag. by apply IH.
  - destruct (is_initialized pid w); by left.
  - by destruct (is_open pid w); [|left].
  - case_decide as Hin; [|by left].
    rewrite Forall_forall in Ht. specialize (Ht _ Hin).
    destruct t as [pid | pid | pid | id p]; try done; simpl.
    + unfold handshake_timeout. destruct (is_initialized _ _); by left.
    + unfold request_timeout. simpl.
      destruct (pendingRequests (this w) !! id); by left.
Qed.

(** X6. A [FirecrawlMCPClient] is connected only after a chunk on the
    stderr of one of its children held the banner of the server: no call,
    no output on stdout, no timer and no exit sets the flag. *)
Theorem FirecrawlMCPClient_connected_only_after_banner name es :
  isConnected (this (run FirecrawlMCPClient es (new_world name))) = true →
  existsb (is_banner FirecrawlMCPClient) es = true.
Proof.
  assert (∀ w, Forall firecrawl_timer (timers w) →
            isConnected (this (run FirecrawlMCPClient es w)) = true →
            isConnected (this w) = true
            ∨ existsb (is_banner FirecrawlMCPClient) es = true) as Hgen.
  { induction es as [|e es IH]; intros w Ht Hc; simpl in *; [by left |].
    destruct (IH _ (firecrawl_timers_step e w Ht) Hc) as [Hs|He].
    - destruct (firecrawl_step_flag e w Ht Hs) as [Hw | ->]; [by left | by right].
    - right. rewrite He. apply orb_true_r. }
  intros Hc.
  by destruct (Hgen (new_world name) (List.Forall_nil firecrawl_timer) Hc).
Qed.

End FirecrawlHandshake.

Section FirecrawlHandshakeScenario.
Import JsString Js Client Requests Sample.

Lemma FirecrawlMCPClient_connected_only_after_banner_witness :
  existsb (is_banner FirecrawlMCPClient)
    [CallConnect; StderrData 0 firecrawl_banner] = true.
Proof.
  apply (@FirecrawlMCPClient_connected_only_after_banner platform "firecrawl").
  vm_compute. reflexivity.
Defined.

End FirecrawlHandshakeScenario.

(** ** [FirecrawlMCPClient]: the two ends of a handshake *)

Section FirecrawlConnect.
Import JsString Js Client Requests Sample.
Context `{Platform}.

Lemma with_child_lookup pid f w :
  children (with_child pid f w) !! pid = f <$> children w !! pid.
Proof. simpl. apply list_lookup_alter_eq. Qed.

(** X7. [connect()] on a [FirecrawlMCPClient] that is not connected
    spawns a child.  When the banner then arrives on the stderr of that
    child, the wrapper is connected, the promise of [connect()] is
    resolved and the child has exactly one [data] listener on its stdout,
    and the handshake timer, when it fires afterwards, changes nothing of
    this.  When instead the timer fires first, the promise is rejected,
    and the child is neither killed nor forgotten: it stays the process
    of the wrapper, which stays not connected. *)
Theorem FirecrawlMCPClient_handshake w chunk :
  isConnected (this w) = false →
  has_marker FirecrawlMCPClient chunk = true →
  let pid := length (children w) in
  let w1 := step FirecrawlMCPClient CallConnect w in
  let w2 := step FirecrawlMCPClient (StderrData pid chunk) w1 in
  let w3 := step FirecrawlMCPClient (TimerFires (THandshake pid)) w1 in
  (children w1 !! pid = Some new_child ∧ process (this w1) = Some pid ∧
   isConnected (this w1) = false) ∧
  (isConnected (this w2) = true ∧ process (this w2) = Some pid ∧
   children w2 !! pid =
     Some {| initialized := true; connectPromise := Some (Resolved None);
             codecs := [EmptyString]; stdin := []; killed := false;
             closed := false |} ∧
   children (step FirecrawlMCPClient (TimerFires (THandshake pid)) w2) = children w2 ∧
   this (step FirecrawlMCPClient (TimerFires (THandshake pid)) w2) = this w2) ∧
  (isConnected (this w3) = false ∧ process (this w3) = Some pid ∧
   children w3 !! pid =
     Some {| initialized := false;
             connectPromise :=
               Some (Rejected (Error "MCP server failed to initialize within timeout"));
             codecs := []; stdin := []; killed := false; closed := false |}).
Proof.
  intros Hc Hm pid w1 w2 w3.
  assert (w1 = with_timers (λ ts, ts ++ [THandshake pid])
                 (with_this (set_process (Some pid))
                    (with_children (λ cs, cs ++ [new_child]) w))) as Hw1.
  { unfold w1. simpl. unfold connect. by rewrite Hc. }
  assert (children w1 !! pid = Some new_child) as Hch.
  { rewrite Hw1. simpl. by apply list_lookup_middle. }
  assert (process (this w1) = Some pid) as Hp1 by by rewrite Hw1.
  assert (isConnected (this w1) = false) as Hc1 by by rewrite Hw1.
  assert (THandshake pid ∈ timers w1) as Ht1.
  { rewrite Hw1. simpl. apply elem_of_app. right. by left. }
  assert (is_open pid w1 = true) as Ho1 by (unfold is_open; by rewrite Hch).
  assert (is_initialized pid w1 = false) as Hi1
    by (unfold is_initialized; by rewrite Hch).
  split; [done |]. split.
  - assert (w2 = with_child pid (settle_connect (Resolved None))
                   (with_this (set_isConnected true)
                      (setupMessageHandling (with_child pid set_initialized w1))))
      as Hw2.
    { unfold w2. simpl. rewrite Ho1. unfold ready_listener. by rewrite Hm, Hi1. }
    assert (setupMessageHandling (with_child pid set_initialized w1)
            = with_child pid (λ ch, set_codecs (codecs ch ++ [EmptyString]) ch)
                (with_child pid set_initialized w1)) as Hs.
    { unfold setupMessageHandling. simpl. by rewrite Hp1. }
    rewrite Hs in Hw2.
    assert (children w2 !! pid =
            Some {| initialized := true; connectPromise := Some (Resolved None);
                    codecs := [EmptyString]; stdin := []; killed := false;
                    closed := false |}) as Hch2.
    { rewrite Hw2. rewrite with_child_lookup. simpl.
      rewrite !list_lookup_alter_eq, Hch. done. }
    split; [by rewrite Hw2 |]. split; [by rewrite Hw2 |]. split; [done |].
    simpl. case_decide; [|done]. simpl. unfold handshake_timeout, is_initialized.
    simpl. by rewrite Hch2.
  - assert (w3 = with_child pid
                   (settle_connect
                      (Rejected (handshake_timeout_error FirecrawlMCPClient
                                   (serverName (this w1)))))
                   (with_timers (cancel (THandshake pid)) w1)) as Hw3.
    { unfold w3. simpl. rewrite decide_True by done. simpl.
      unfold handshake_timeout, is_initialized. simpl. by rewrite Hch. }
    split; [by rewrite Hw3 |]. split; [by rewrite Hw3 |].
    rewrite Hw3, with_child_lookup. simpl. by rewrite Hch.
Qed.

End FirecrawlConnect.

Section FirecrawlConnectScenario.
Import JsString Js Client Requests Sample.

Lemma FirecrawlMCPClient_handshake_witness :
  let w1 := @step platform FirecrawlMCPClient CallConnect (new_world "firecrawl") in
  let w2 := @step platform FirecrawlMCPClient (StderrData 0 firecrawl_banner) w1 in
  isConnected (this w2) = true ∧ process (this w2) = Some 0.
Proof.
  intros w1 w2.
  destruct (@FirecrawlMCPClient_handshake platform (new_world "firecrawl")
              firecrawl_banner eq_refl eq_refl)
    as (_ & (Hc & Hp & _) & _).
  split; [exact Hc | exact Hp].
Defined.

End FirecrawlConnectScenario.

(** ** The dispatcher: a prefixed name finds its server *)

Section Forwarding.
Import JsString Js Client Multi Fleet.
Context `{Servers}.

Local Ltac run_M :=
  unfold mbind, M_bind, mret, M_ret, get, put, tell, on_client, on_multi,
    on_firecrawl in *; simpl in *.

(** X8. The prefix [getAllTools] puts on a name is undone by
    [executeTool]: for a connected server other than [excel-mcp] whose
    name holds no separator, executing the prefixed name of a tool writes
    one [tools/call] request to that server, with the tool's own name
    (separators in it included) and the arguments as given, returns what
    the server answers, and advances the request counter of that wrapper
    only. *)
Theorem executeTool_reaches_the_owner s tool args st client pid :
  has_char underscore s = false →
  String.eqb s "excel-mcp" = false →
  map_get s (clients st) = Some client →
  isConnected client = true →
  process client = Some pid →
  let request := call_request (requestId client) (tool_name tool) args in
  executeTool (tool_name (prefixed s tool)) args st =
    (call_reply (Server s) request,
     set_clients (map_set s (set_requestId (requestId client + 1)%Z client)
                    (clients st)) st,
     [Wrote (Server s) request]).
Proof.
  intros Hs Hx Hc Hconn Hp request. unfold executeTool.
  change (tool_name (prefixed s tool)) with (s +:+ String underscore (tool_name tool)).
  destruct (executeTool_parts s (tool_name tool) Hs) as [Hhd Htl].
  unfold underscore in *. rewrite Hhd, Htl.
  run_M. rewrite Hc, Hconn, Hx. simpl.
  unfold callTool, await_sendRequest. by rewrite Hp.
Qed.

(** X9. Nothing is ever sent to [excel-mcp]: for a connected [excel-mcp],
    [executeTool] runs the local implementation when the tool is one of the
    four that have one, and fails otherwise; it writes no request and
    changes no state.  Of the 23 tools that [getAllTools] lists for
    [excel-mcp], these four are the only ones that can be executed. *)
Theorem executeTool_excel_is_local rest args st client :
  map_get "excel-mcp" (clients st) = Some client →
  isConnected client = true →
  executeTool ("excel-mcp_" +:+ rest) args st =
    (if bool_decide (rest ∈ excel_fallback_tools)
     then excel_fallback rest args
     else Throw (Error ("Excel MCP tool " +:+ rest
                        +:+ " not implemented in fallback")),
     st, []) ∧
  length getExcelMCPServerTools = 23 ∧
  map tool_name
    (List.filter (λ t, bool_decide (tool_name t ∈ excel_fallback_tools))
       getExcelMCPServerTools)
  = ["read_data_from_excel"; "get_workbook_metadata";
     "search_excel_files"; "get_common_excel_locations"].
Proof.
  intros Hc Hconn. split; [|by vm_compute].
  unfold executeTool.
  change ("excel-mcp_" +:+ rest) with ("excel-mcp" +:+ String underscore rest).
  destruct (executeTool_parts "excel-mcp" rest eq_refl) as [Hhd Htl].
  unfold underscore in *. rewrite Hhd, Htl.
  run_M. rewrite Hc, Hconn. simpl. by case_bool_decide.
Qed.

End Forwarding.

Section ForwardingScenarios.
Import JsString Js Client Multi Fleet SampleServers.

Lemma executeTool_reaches_the_owner_witness :
  (@executeTool listing "firecrawl_crawl" (Some (JObj []))
     (with_connected ["firecrawl"])).2
  = [Wrote (Server "firecrawl") (call_request 1 "crawl" (Some (JObj [])))].
Proof.
  pose proof (@executeTool_reaches_the_owner listing "firecrawl" crawl
                (Some (JObj [])) (with_connected ["firecrawl"])
                (connected "firecrawl") 0 eq_refl eq_refl eq_refl eq_refl eq_refl)
    as Hexec.
  exact (f_equal snd Hexec).
Defined.

Lemma executeTool_excel_is_local_witness :
  @executeTool listing "excel-mcp_create_chart" None (with_connected ["excel-mcp"])
  = (Throw (Error "Excel MCP tool create_chart not implemented in fallback"),
     with_connected ["excel-mcp"], []).
Proof.
  destruct (@executeTool_excel_is_local listing "create_chart" None
              (with_connected ["excel-mcp"]) (connected "excel-mcp")
              eq_refl eq_refl) as [Hexec _].
  exact Hexec.
Defined.

End ForwardingScenarios.

(** ** Connecting and disconnecting every server *)

Section FleetFacts.
Import JsString Js Client Multi Fleet.
Context `{Servers} `{Initialization}.

Local Ltac run_M :=
  unfold mbind, M_bind, mret, M_ret, get, put, tell, on_client, on_multi,
    on_firecrawl in *; simpl in *.

Lemma map_get_is_Some {V} k (m : list (string * V)) :
  k ∈ map fst m → is_Some (map_get k m).
Proof.
  induction m as [|[k' v] m IH]; simpl; [by intros ?%elem_of_nil |].
  destruct (String.eqb k' k) eqn:E; [by eexists |].
  intros [Heq|Hin]%elem_of_cons; [|by apply IH].
  apply String.eqb_neq in E. by subst.
Qed.

Lemma connected_to_set name c st n :
  is_Some (map_get name (clients st)) →
  connected_to (set_clients (map_set name c (clients st)) st) n
  = if String.eqb name n then isConnected c else connected_to st n.
Proof.
  intros Hs. unfold connected_to. simpl.
  destruct (String.eqb name n) eqn:E.
  - apply String.eqb_eq in E as <-. by rewrite map_get_set_eq.
  - apply String.eqb_neq in E. by rewrite map_get_set_ne.
Qed.

(** One arrow of [connectAll]. *)
Lemma connect_one_spec next name st :
  is_Some (map_get name (clients st)) →
  ∃ st', connect_one next tt name st
         = (tt, st', if connected_to st name then []
                     else attempt_effects next st name) ∧
    map fst (clients st') = map fst (clients st) ∧
    (∀ n, connected_to st' n
          = if String.eqb name n
            then connected_to st name || ends_connected next name
            else connected_to st n) ∧
    (∀ n, n ≠ name → map_get n (clients st') = map_get n (clients st)) ∧
    toolsCache st' = toolsCache st ∧
    lastToolsRefresh st' = lastToolsRefresh st.
Proof.
  intros [c Hc].
  unfold connect_one, MCPClient_await_connect, ends_connected, attempt_effects.
  run_M. rewrite Hc.
  assert (connected_to st name = isConnected c) as Hcn
    by (unfold connected_to; by rewrite Hc).
  rewrite Hcn.
  destruct (isConnected c) eqn:Hconn; simpl;
    [|destruct (handshake (Server name) (next name)) as [|e exited]; simpl;
      [|destruct exited]; destruct (sent_initialize _); simpl];
    (eexists; split; [done |]; simpl;
     split; [apply map_set_keys_present; by rewrite Hc |];
     split; [|split; [|done]];
     [intros n; rewrite connected_to_set by (by rewrite Hc); simpl;
      by rewrite ?Hconn
     |intros n Hne; by apply map_get_set_ne]).
Qed.

(** All the arrows, in order. *)
Lemma for_each_connect_spec next names st :
  NoDup names →
  (∀ n, n ∈ names → is_Some (map_get n (clients st))) →
  ∃ st', for_each (connect_one next) tt names st
         = (tt, st',
            concat (map (attempt_effects next st)
                      (List.filter (λ n, negb (connected_to st n)) names))) ∧
    map fst (clients st') = map fst (clients st) ∧
    (∀ n, connected_to st' n
          = connected_to st n || (bool_decide (n ∈ names) && ends_connected next n)) ∧
    toolsCache st' = toolsCache st ∧
    lastToolsRefresh st' = lastToolsRefresh st.
Proof.
  revert st. induction names as [|name names IH]; intros st Hnd Hreg.
  - exists st. simpl. split; [done |]. split; [done |]. split; [|done].
    intros n. rewrite ?bool_decide_eq_false_2 by apply not_elem_of_nil.
    simpl. by rewrite orb_false_r.
  - apply NoDup_cons in Hnd as [Hnotin Hnd].
    destruct (connect_one_spec next name st)
      as (st1 & Hrun & Hk1 & Hc1 & Ho1 & Ht1 & Hl1).
    { apply Hreg. by left. }
    destruct (IH st1 Hnd) as (st2 & Hrun2 & Hk2 & Hc2 & Ht2 & Hl2).
    { intros n Hn. apply map_get_is_Some. rewrite Hk1.
      destruct (Hreg n) as [c Hc]; [by right |].
      clear -Hc. induction (clients st) as [|[k v] m IHm]; simpl in *; [done |].
      destruct (String.eqb k n) eqn:E.
      - apply String.eqb_eq in E as ->. by left.
      - right. by apply IHm. }
    exists st2. simpl. unfold mbind, M_bind. rewrite Hrun, Hrun2.
    assert (List.filter (λ n, negb (connected_to st1 n)) names
            = List.filter (λ n, negb (connected_to st n)) names) as ->.
    { apply List.filter_ext_in. intros n Hn. rewrite Hc1.
      destruct (String.eqb name n) eqn:E; [|done].
      apply String.eqb_eq in E as <-. by apply list_elem_of_In in Hn. }
    assert (map (attempt_effects next st1)
              (List.filter (λ n, negb (connected_to st n)) names)
            = map (attempt_effects next st)
                (List.filter (λ n, negb (connected_to st n)) names)) as ->.
    { apply map_ext_in. intros n [Hn _]%List.filter_In.
      unfold attempt_effects. rewrite Ho1; [done |].
      intros ->. by apply list_elem_of_In in Hn. }
    split.
    { f_equal. by destruct (connected_to st name). }
    split; [congruence |]. split; [|split; congruence].
    intros n. rewrite Hc2, Hc1.
    destruct (String.eqb name n) eqn:E.
    + apply String.eqb_eq in E as <-.
      rewrite (bool_decide_eq_false_2 _ Hnotin).
      rewrite (bool_decide_eq_true_2 (name ∈ name :: names)) by by left.
      simpl. by rewrite orb_false_r.
    + apply String.eqb_neq in E.
      assert (bool_decide (n ∈ name :: names) = bool_decide (n ∈ names)) as ->; [|done].
      apply bool_decide_ext. rewrite elem_of_cons. naive_solver.
Qed.



Lemma map_get_map {V} (f : V → V) k (m : list (string * V)) :
  map_get k (map (λ entry, (entry.1, f entry.2)) m) = f <$> map_get k m.
Proof.
  induction m as [|[k' v] m IH]; simpl; [done |].
  by destruct (String.eqb k' k).
Qed.

Lemma for_each_refresh_none acc names st :
  (∀ n, connected_to st n = false) →
  for_each refresh_server acc names st = (acc, st, []).
Proof.
  intros Hnone. induction names as [|name names IH]; [done |].
  simpl. unfold mbind, M_bind. by rewrite refresh_server_skips, IH.
Qed.

(** X11. After [disconnectAll()] no server is connected and the cache is
    empty, so [getAllTools()] returns the empty list whatever the time,
    writing no request.  A wrapper that was connected has lost its
    process; a wrapper that was not connected is left exactly as it was,
    with the process of a handshake that is still in flight or has failed
    still in place. *)
Theorem disconnectAll_leaves_nothing_listed now st :
  let r := disconnectAll st in
  let st1 := r.1.2 in
  r.2 = [] ∧
  getConnectedServers st1 = [] ∧
  toolsCache st1 = [] ∧
  map fst (clients st1) = map fst (clients st) ∧
  lastToolsRefresh st1 = lastToolsRefresh st ∧
  (∀ name c, map_get name (clients st) = Some c →
     map_get name (clients st1)
     = Some (if isConnected c
             then set_pendingRequests ∅
                    (set_isConnected false (set_process None c))
             else c)) ∧
  getAllTools now st1 = ([], set_lastToolsRefresh now st1, [Stamped now]).
Proof.
  intros r st1.
  assert (∀ c, isConnected (disconnect_fields c) = false) as Hoff.
  { intros c. unfold disconnect_fields. by destruct (isConnected c) eqn:E. }
  assert (∀ n, connected_to st1 n = false) as Hnone.
  { intros n. unfold connected_to, st1. simpl. rewrite map_get_map.
    destruct (map_get n (clients st)); simpl; [apply Hoff | done]. }
  split; [done |]. split.
  { unfold getConnectedServers, st1. simpl.
    induction (clients st) as [|[k c] m IH]; simpl; [done |]. by rewrite Hoff. }
  split; [done |]. split.
  { unfold st1. simpl. rewrite map_map. by apply map_ext. }
  split; [done |]. split.
  { intros name c Hc. unfold st1. simpl. rewrite map_get_map, Hc. done. }
  unfold getAllTools. run_M. rewrite andb_false_r.
  change (for_each refresh_server [] _ _)
    with (for_each refresh_server [] (map fst (clients st1)) st1).
  by rewrite (for_each_refresh_none [] _ st1 Hnone).
Qed.

(** X12. [getServerTools(serverName)] returns the empty list, without
    touching anything, for a server that is unknown or not connected.
    Otherwise what it returns is the empty list or a list the server sent
    in answer to [tools/list], with the names as the server gave them; when
    the requests fail it is the empty list, for [excel-mcp] too: the static
    list in its [catch] is never used, because [listTools] does not
    throw. *)
Theorem getServerTools_returns_what_the_server_lists name st :
  let r := getServerTools name st in
  (connected_to st name = false → r = ([], st, [])) ∧
  (r.1.1 = [] ∨ ∃ request, list_reply (Server name) request = Normal (Tools r.1.1)) ∧
  ((∀ request, ∃ e, list_reply (Server name) request = Throw e) → r.1.1 = []) ∧
  Forall (discovers (Server name)) r.2 ∧ length r.2 ≤ 2.
Proof.
  intros r. unfold r, getServerTools, connected_to. run_M.
  destruct (map_get name (clients st)) as [c|] eqn:Hc.
  2:{ split; [done |]. split; [by left |]. split; [done |].
      split; [constructor | simpl; lia]. }
  destruct (isConnected c) eqn:Hconn; simpl.
  2:{ split; [done |]. split; [by left |]. split; [done |].
      split; [constructor | simpl; lia]. }
  destruct (listTools_spec (Server name) c)
    as (tools & c' & es & -> & _ & _ & _ & Htools & Hes & Hlen & _).
  simpl. rewrite app_nil_r. split; [done |]. split; [done |]. split; [|done].
  intros Hfail. destruct Htools as [->|[request Hr]]; [done |].
  destruct (Hfail request) as [e He]. congruence.
Qed.

End FleetFacts.

Section FleetScenarios.
Import JsString Js Client Multi Fleet Sample SampleServers SampleHandshakes.


(** The events behind that outcome, on one wrapper: the child is spawned,
    the [initialize] request is written, the child answers it without
    printing a marker, and the 30000 ms timer rejects [connect()].  The
    wrapper, the error and what was written are those of
    [MCPClient_await_connect]. *)
Lemma MCPClient_await_connect_agrees_with_events :
  let w := @run initialize_platform MCPClient
             [CallConnect; TimerFires (TInitialize 0);
              StdoutData 0 (initialize_line +:+ eol);
              TimerFires (THandshake 0)] (new_world "firecrawl") in
  let r := @MCPClient_await_connect unmarked answering (Server "firecrawl") 0
             (new_wrapper "firecrawl") in
  let e := Error "MCP server firecrawl failed to initialize within timeout" in
  this w = r.1.2 ∧
  isConnected (this w) = true ∧
  connectPromise <$> children w !! 0 = Some (Some (Rejected e)) ∧
  r.1.1 = Throw e ∧
  stdin <$> children w !! 0 = Some [initialize_request 1] ∧
  r.2 = [Spawned (Server "firecrawl");
         Wrote (Server "firecrawl") (initialize_request 1)].
Proof. vm_compute. repeat split; reflexivity. Qed.

End FleetScenarios.

(** ** The cache keeps what a refresh does not replace *)

Section StaleSlices.
Import JsString Js Client Multi Fleet.
Context `{Servers}.

Local Ltac run_M :=
  unfold mbind, M_bind, mret, M_ret, get, put, tell, on_client, on_multi,
    on_firecrawl in *; simpl in *.

(** The loop of [getAllTools] only does something for the servers that
    are connected. *)
Lemma for_each_refresh_connected acc names st :
  for_each refresh_server acc names st
  = for_each refresh_server acc (List.filter (connected_to st) names) st.
Proof.
  revert acc st. induction names as [|name names IH]; intros acc st; [done |].
  simpl. destruct (connected_to st name) eqn:Hc.
  - simpl. unfold mbind, M_bind.
    destruct (refresh_server_spec acc name st)
      as (slice & st1 & es1 & -> & _ & Hc1 & _).
    rewrite IH.
    assert (List.filter (connected_to st1) names
            = List.filter (connected_to st) names) as ->; [|done].
    apply List.filter_ext. intros n. apply Hc1.
  - unfold mbind, M_bind. rewrite (refresh_server_skips acc name st Hc).
    rewrite IH. by destruct (for_each _ _ _ _) as [[? ?] ?].
Qed.

Lemma store_slices_other name slices (cache : list (string * list Tool)) :
  name ∉ map fst slices →
  map_get name (store_slices slices cache) = map_get name cache.
Proof.
  revert cache. induction slices as [|[s slice] slices IH]; intros cache Hn; [done |].
  simpl in *. apply not_elem_of_cons in Hn as [Hne Hn].
  rewrite IH by done. by apply map_get_set_ne.
Qed.

Lemma map_get_concat name (cache : list (string * list Tool)) slice t :
  map_get name cache = Some slice → t ∈ slice → t ∈ concat (map snd cache).
Proof.
  induction cache as [|[k v] cache IH]; simpl; [done |].
  destruct (String.eqb k name).
  - intros [= ->] Ht. apply elem_of_app. by left.
  - intros Hg Ht. apply elem_of_app. right. by apply IH.
Qed.

(** X13. A refresh replaces the slices of the servers it polls and
    removes none: when a server is not connected, the tools that
    [getAllTools] returns from a refresh include none of its tools, but
    its slice stays in the cache, and the next call that is served from
    the cache returns those tools again. *)
Theorem getAllTools_serves_stale_tools_of_disconnected_server now st name slice :
  connected_to st name = false →
  cache_is_fresh now st = false →
  map_get name (toolsCache st) = Some slice →
  let r := getAllTools now st in
  (∀ t, t ∈ r.1.1 → tool_serverName t ≠ Some name) ∧
  map_get name (toolsCache r.1.2) = Some slice ∧
  ∀ now', cache_is_fresh now' r.1.2 = true →
          ∀ t, t ∈ slice → t ∈ (getAllTools now' r.1.2).1.1.
Proof.
  intros Hoff Hstale Hslice r.
  unfold r, getAllTools. unfold cache_is_fresh in Hstale. run_M. rewrite Hstale.
  rewrite for_each_refresh_connected.
  destruct (for_each_refresh_spec (List.filter (connected_to st) (map fst (clients st))) [] st)
    as (slices & st' & es & -> & _ & _ & _ & _ & _ & _ & Hsub & Hsl & Hcache).
  simpl.
  assert (name ∉ map fst slices) as Hnotin.
  { intros Hin. eapply elem_of_sublist in Hin; [|exact Hsub].
    apply list_elem_of_In, List.filter_In in Hin as [_ Hin]. congruence. }
  assert (map_get name (toolsCache st') = Some slice) as Hkept
    by by rewrite Hcache, store_slices_other.
  split.
  { intros t Ht.
    apply list_elem_of_In, in_concat in Ht as (sl & Hsl' & Ht).
    apply list_elem_of_In in Hsl', Ht.
    apply list_elem_of_fmap in Hsl' as ([s sl0] & -> & Hin).
    rewrite Forall_forall in Hsl. destruct (Hsl _ Hin) as (tools & _ & Heq).
    simpl in *. subst sl0. apply list_elem_of_fmap in Ht as (t0 & -> & _).
    simpl. intros [= ->]. apply Hnotin. apply list_elem_of_fmap.
    by exists (name, map (prefixed name) tools). }
  split; [done |].
  intros now' Hfresh t Ht. unfold cache_is_fresh in Hfresh. simpl in Hfresh.
  rewrite Hfresh. simpl. by eapply map_get_concat.
Qed.

End StaleSlices.

Section StaleSlicesScenario.
Import JsString Js Client Multi Fleet SampleServers.

(** The slice of [firecrawl] was cached while it was connected; it is not
    connected any more and the cache is ten minutes old. *)
Lemma getAllTools_serves_stale_tools_of_disconnected_server_witness :
  let st := set_toolsCache [("firecrawl", [prefixed "firecrawl" scrape])]
              (with_connected ["excel-mcp"]) in
  let r := @getAllTools listing 600000 st in
  (prefixed "firecrawl" scrape ∉ r.1.1) ∧
  (prefixed "firecrawl" scrape ∈ (@getAllTools listing 600001 r.1.2).1.1).
Proof.
  intros st r.
  destruct (@getAllTools_serves_stale_tools_of_disconnected_server listing
              600000 st "firecrawl" [prefixed "firecrawl" scrape]
              eq_refl eq_refl eq_refl) as (Hnone & _ & Hagain).
  split.
  - intros Hin. by apply (Hnone _ Hin).
  - apply (Hagain 600001%Z); [vm_compute; reflexivity |]. by left.
Defined.

End StaleSlicesScenario.

(** ** From the advertised tools to the chat route and back *)

Section Advertising.
Import JsString Js Client Multi Fleet Integration.
Context `{Servers} `{Initialization}.

Local Ltac run_M :=
  unfold mbind, M_bind, mret, M_ret, get, put, tell, on_client, on_multi,
    on_firecrawl in *; simpl in *.

Lemma prefix_app p s :
  String.prefix p s = true → ∃ rest, s = p +:+ rest.
Proof.
  revert s. induction p as [|a p IH]; intros s.
  - intros _. by exists s.
  - destruct s as [|b s]; [done |]. simpl.
    destruct (Ascii.ascii_dec a b) as [<-|]; [|done].
    intros [rest ->]%IH. by exists rest.
Qed.

Lemma prefix_app_self p x : String.prefix p (p +:+ x) = true.
Proof.
  induction p as [|a p IH]; [apply prefix_empty |].
  rewrite str_app_cons. simpl. by destruct (Ascii.ascii_dec a a).
Qed.

(** A name with the prefix of a configured server. *)
Lemma configured_prefix_accepted s x :
  s ∈ map fst loadConfiguration →
  is_mcp_function (s +:+ "_" +:+ x) = true.
Proof.
  intros Hs. change (map fst loadConfiguration)
    with ["firecrawl"; "columbia-lake-agents"; "excel-mcp"] in Hs.
  unfold is_mcp_function, startsWith.
  apply elem_of_cons in Hs as [->|Hs].
  { change ("firecrawl" +:+ "_" +:+ x) with ("firecrawl_" +:+ x).
    by rewrite prefix_app_self. }
  apply elem_of_cons in Hs as [->|Hs].
  { change ("columbia-lake-agents" +:+ "_" +:+ x)
      with ("columbia-lake-agents_" +:+ x).
    rewrite (prefix_app_self "columbia-lake-agents_"). by vm_compute. }
  apply elem_of_cons in Hs as [->|Hs].
  { change ("excel-mcp" +:+ "_" +:+ x) with ("excel-mcp_" +:+ x).
    rewrite (prefix_app_self "excel-mcp_"). by vm_compute. }
  by apply elem_of_nil in Hs.
Qed.

(** A name the route accepts starts with the name of a configured server
    and the separator. *)
Lemma accepted_prefix functionName :
  is_mcp_function functionName = true →
  ∃ s rest, s ∈ map fst loadConfiguration ∧
            functionName = s +:+ String underscore rest.
Proof.
  unfold is_mcp_function, startsWith.
  intros [[Hp|Hp]%orb_true_iff|Hp]%orb_true_iff;
    apply prefix_app in Hp as [rest ->].
  - exists "firecrawl", rest. split; [|done]. by left.
  - exists "columbia-lake-agents", rest. split; [|done]. right. by left.
  - exists "excel-mcp", rest. split; [|done]. right. right. by left.
Qed.

Lemma store_slices_Forall (P : string * list Tool → Prop) slices cache :
  Forall P slices → Forall P cache → Forall P (store_slices slices cache).
Proof.
  revert cache. induction slices as [|[s slice] slices IH]; intros cache; [done |].
  intros [Hs Hsl]%Forall_cons Hc. simpl. apply IH; [done |].
  by apply map_set_Forall.
Qed.

(** What [getAllTools] returns on a configured client. *)
Lemma getAllTools_configured now st :
  configured st →
  Forall (λ t, ∃ s x, s ∈ map fst loadConfiguration ∧
                      tool_name t = s +:+ "_" +:+ x) (getAllTools now st).1.1 ∧
  configured (getAllTools now st).1.2.
Proof.
  intros [Hkeys Hcache]. unfold getAllTools. run_M.
  assert (∀ slices : list (string * list Tool),
            Forall (λ entry, entry.1 ∈ map fst (clients st) ∧
                             ∃ tools, entry.2 = map (prefixed entry.1) tools) slices →
            Forall (λ t, ∃ s x, s ∈ map fst loadConfiguration ∧
                                tool_name t = s +:+ "_" +:+ x)
              (concat (map snd slices))) as Hnames.
  { intros slices Hsl. induction Hsl as [|[s slice] slices [Hs [tools Ht]] _ IH];
      simpl; [constructor |].
    apply Forall_app. split; [|done]. simpl in *. subst slice.
    apply Forall_forall. intros t (t0 & -> & _)%list_elem_of_fmap.
    exists s, (tool_name t0). split; [by rewrite <- Hkeys | done]. }
  destruct (_ && _); simpl.
  - split; [by apply Hnames | done].
  - destruct (for_each_refresh_spec (map fst (clients st)) [] st)
      as (slices & st' & es & -> & Hk & _ & _ & _ & _ & _ & Hsub & Hsl & Hc).
    simpl.
    assert (Forall (λ entry : string * list Tool,
                      entry.1 ∈ map fst (clients st) ∧
                      ∃ tools, entry.2 = map (prefixed entry.1) tools) slices) as Hok.
    { apply Forall_forall. intros entry Hin. split.
      - eapply elem_of_sublist; [|exact Hsub]. by apply list_elem_of_fmap_2.
      - rewrite Forall_forall in Hsl. destruct (Hsl _ Hin) as (tools & _ & Heq).
        by exists tools. }
    split; [by apply Hnames |].
    split; simpl; [congruence |]. rewrite Hk, Hc. by apply store_slices_Forall.
Qed.

Lemma generateSystemPrompt_named tools :
  Forall (λ f, fn_name f ≠ EmptyString) tools →
  ∃ prompt, generateSystemPrompt tools = Normal prompt.
Proof.
  intros Hnamed. unfold generateSystemPrompt.
  destruct (Nat.eqb (length tools) 0); [by eexists |].
  assert (existsb (λ t, is_empty (fn_name t)) tools = false) as ->; [|by eexists].
  induction Hnamed as [|f tools Hf _ IH]; simpl; [done |].
  rewrite IH, orb_false_r. by destruct (fn_name f).
Qed.

(** X14. Every tool [getMCPTools()] advertises passes the test by which
    the chat route recognises an MCP tool call, and
    [generateSystemPrompt] does not throw on what [getMCPTools()]
    returns.  The client is left configured, and the singleton client is
    not touched. *)
Theorem getMCPTools_names_pass_the_route_test next now app :
  configured (multiMCPClient app) →
  let r := getMCPTools next now app in
  Forall (λ f, is_mcp_function (fn_name f) = true) r.1.1 ∧
  (∃ prompt, generateSystemPrompt r.1.1 = Normal prompt) ∧
  configured (multiMCPClient r.1.2) ∧
  firecrawlMCPClient r.1.2 = firecrawlMCPClient app ∧
  firecrawl_children r.1.2 = firecrawl_children app.
Proof.
  intros [Hkeys Hcache] r.
  assert (NoDup (map fst (clients (multiMCPClient app)))) as Hnd.
  { rewrite Hkeys. apply (bool_decide_unpack _). by vm_compute. }
  destruct (for_each_connect_spec next _ (multiMCPClient app) Hnd)
    as (st1 & Hrun & Hk1 & _ & Ht1 & _).
  { intros n. apply map_get_is_Some. }
  assert (configured st1) as Hconf1.
  { split; [congruence |]. by rewrite Hk1, Ht1. }
  destruct (getAllTools_configured now st1 Hconf1) as [Hnames Hconf2].
  assert (r = (map to_function (getAllTools now st1).1.1,
               {| multiMCPClient := (getAllTools now st1).1.2;
                  firecrawlMCPClient := firecrawlMCPClient app;
                  firecrawl_children := firecrawl_children app |},
               concat (map (attempt_effects next (multiMCPClient app))
                         (List.filter (λ n, negb (connected_to (multiMCPClient app) n))
                            (map fst (clients (multiMCPClient app)))))
               ++ (getAllTools now st1).2 ++ [])) as ->.
  { unfold r, getMCPTools, connectAll. run_M. rewrite Hrun. simpl.
    by destruct (getAllTools now st1) as [[tools st2] es2]. }
  simpl.
  assert (Forall (λ f, is_mcp_function (fn_name f) = true)
            (map to_function (getAllTools now st1).1.1)) as Hacc.
  { apply Forall_fmap. eapply Forall_impl; [exact Hnames |].
    intros t (s & x & Hs & Hn). simpl. rewrite Hn.
    by apply configured_prefix_accepted. }
  split; [done |]. split; [|done].
  apply generateSystemPrompt_named. eapply Forall_impl; [exact Hacc |].
  intros f Hf Hempty. cbv beta in Hf. rewrite Hempty in Hf. done.
Qed.

(** X15. A function name the chat route accepts is dispatched to the
    [MultiMCPClient], never to the singleton client, and the server
    [executeTool] looks up for it is the configured server whose prefix
    the route saw, so the call cannot fail for an unknown server. *)
Theorem accepted_function_reaches_a_configured_server functionName args app :
  is_mcp_function functionName = true →
  map fst (clients (multiMCPClient app)) = map fst loadConfiguration →
  let serverName := hd EmptyString (split underscore functionName) in
  let r := executeMCPTool functionName args app in
  serverName ∈ map fst loadConfiguration ∧
  startsWith (serverName +:+ "_") functionName = true ∧
  is_Some (map_get serverName (clients (multiMCPClient app))) ∧
  r = on_multi (executeTool functionName args) app ∧
  firecrawlMCPClient r.1.2 = firecrawlMCPClient app ∧
  firecrawl_children r.1.2 = firecrawl_children app.
Proof.
  intros Hacc Hkeys serverName r.
  destruct (accepted_prefix _ Hacc) as (s & rest & Hs & Heq).
  assert (has_char underscore s = false) as Hsep.
  { change (map fst loadConfiguration)
      with ["firecrawl"; "columbia-lake-agents"; "excel-mcp"] in Hs.
    repeat (apply elem_of_cons in Hs as [->|Hs]; [by vm_compute |]).
    by apply elem_of_nil in Hs. }
  assert (serverName = s) as Hname.
  { unfold serverName. rewrite Heq. by apply executeTool_parts. }
  assert (has_char underscore functionName = true) as Hhas.
  { rewrite Heq. clear -Hsep. induction s as [|a s IH].
    - rewrite str_app_nil_l, has_char_cons. by rewrite Ascii.eqb_refl.
    - rewrite str_app_cons, has_char_cons. rewrite has_char_cons in Hsep.
      apply orb_false_elim in Hsep as [-> Hsep]. by apply IH. }
  assert (r = on_multi (executeTool functionName args) app) as Hr.
  { unfold r, executeMCPTool. by rewrite includes_underscore, Hhas. }
  rewrite Hname. split; [done |]. split.
  { rewrite Heq. unfold startsWith. clear. induction s as [|a s IH].
    - rewrite !str_app_nil_l. simpl.
      destruct (Ascii.ascii_dec "_" "_"); [apply prefix_empty | done].
    - rewrite !str_app_cons. simpl.
      destruct (Ascii.ascii_dec a a); [apply IH | done]. }
  split; [apply map_get_is_Some; by rewrite Hkeys |].
  split; [done |]. rewrite Hr. unfold on_multi.
  by destruct (executeTool functionName args (multiMCPClient app)) as [[? ?] ?].
Qed.

End Advertising.

(** ** The system prompt *)

Section SystemPrompt.
Import JsString Js Client Multi Fleet Integration.

Lemma prompt_not_empty names rest : prompt_head names +:+ rest ≠ EmptyString.
Proof. unfold prompt_head. by rewrite !str_app_cons. Qed.

(** X16. [generateSystemPrompt] returns the empty string exactly when
    there is no tool.  With tools it throws a [TypeError] when one of them
    has the empty string as its name, and returns a prompt otherwise. *)
Theorem generateSystemPrompt_is_empty_only_without_tools tools :
  (generateSystemPrompt tools = Normal EmptyString ↔ tools = []) ∧
  ((∃ e, generateSystemPrompt tools = Throw e)
   ↔ ∃ f, f ∈ tools ∧ fn_name f = EmptyString).
Proof.
  unfold generateSystemPrompt. destruct tools as [|f tools]; simpl.
  { split; [done |]. split; [by intros [? ?] |].
    by intros (f & Hf%elem_of_nil & _). }
  set (all := f :: tools).
  change (is_empty (fn_name f) || existsb (λ t, is_empty (fn_name t)) tools)
    with (existsb (λ t, is_empty (fn_name t)) all).
  destruct (existsb (λ t, is_empty (fn_name t)) all) eqn:E.
  - split; [done |]. split; [|by eexists]. intros _.
    apply existsb_exists in E as (f' & Hin & He).
    exists f'. split; [by apply list_elem_of_In |]. by destruct (fn_name f').
  - split.
    + split; [|done]. intros [= Hp]; by apply prompt_not_empty in Hp.
    + split; [by intros [? ?] |]. intros (f' & Hin & Hempty).
      assert (existsb (λ t, is_empty (fn_name t)) all = true); [|congruence].
      apply existsb_exists. exists f'. split; [by apply list_elem_of_In |].
      by rewrite Hempty.
Qed.

Lemma prefix_cons c p a s :
  String.prefix (String c p) (String a s)
  = if Ascii.ascii_dec c a then String.prefix p s else false.
Proof. reflexivity. Qed.

Lemma prefixes_exclusive name :
  (startsWith "firecrawl_" name = true →
   startsWith "columbia-lake-agents_" name = false
   ∧ startsWith "excel-mcp_" name = false) ∧
  (startsWith "columbia-lake-agents_" name = true →
   startsWith "excel-mcp_" name = false).
Proof.
  unfold startsWith. destruct name as [|a name]; [done |].
  rewrite !prefix_cons.
  destruct (Ascii.ascii_dec "f" a) as [Hf|], (Ascii.ascii_dec "c" a) as [Hc|],
    (Ascii.ascii_dec "e" a) as [He|];
    repeat split; intros; try done; by subst.
Qed.

(** X17. The three categories of the prompt do not overlap, and each tool
    whose name the chat route accepts is listed in exactly one of them:
    the sizes of the three categories add up to the number of tools. *)
Theorem prompt_categories_partition_the_tools tools :
  Forall (λ f, is_mcp_function (fn_name f) = true) tools →
  length (firecrawlTools tools) + length (columbiaLakeTools tools)
  + length (excelTools tools) = length tools ∧
  (∀ f, f ∈ firecrawlTools tools →
        (f ∉ columbiaLakeTools tools) ∧ (f ∉ excelTools tools)) ∧
  (∀ f, f ∈ columbiaLakeTools tools → f ∉ excelTools tools).
Proof.
  intros Hacc. split.
  - unfold firecrawlTools, columbiaLakeTools, excelTools.
    induction Hacc as [|f tools Hf _ IH]; simpl; [done |].
    unfold is_mcp_function in Hf.
    destruct (prefixes_exclusive (fn_name f)) as [H1 H2].
    destruct (startsWith "firecrawl_" (fn_name f)) eqn:E1.
    { destruct (H1 eq_refl) as [-> ->]. simpl. lia. }
    destruct (startsWith "columbia-lake-agents_" (fn_name f)) eqn:E2.
    { rewrite (H2 eq_refl). simpl. lia. }
    simpl in Hf. rewrite Hf. simpl. lia.
  - unfold firecrawlTools, columbiaLakeTools, excelTools. split.
    + intros f [_ Hf]%list_elem_of_In%List.filter_In.
      destruct (prefixes_exclusive (fn_name f)) as [H1 _].
      destruct (H1 Hf) as [Hc He].
      split; intros [_ Hin]%list_elem_of_In%List.filter_In; congruence.
    + intros f [_ Hf]%list_elem_of_In%List.filter_In.
      destruct (prefixes_exclusive (fn_name f)) as [_ H2].
      intros [_ Hin]%list_elem_of_In%List.filter_In. rewrite (H2 Hf) in Hin. done.
Qed.

End SystemPrompt.

Section AdvertisingScenarios.
Import JsString Js Client Multi Fleet Integration SampleServers SampleHandshakes.

(** The application at start-up: nothing connected, nothing cached. *)
Lemma getMCPTools_names_pass_the_route_test_witness :
  let app := {| multiMCPClient := new_MultiMCPClient;
                firecrawlMCPClient := new_wrapper "firecrawl";
                firecrawl_children := 0 |} in
  Forall (λ f, is_mcp_function (fn_name f) = true)
    (@getMCPTools listing early (λ _, 0) 1000000 app).1.1.
Proof.
  intros app.
  assert (configured (multiMCPClient app)) as Hconf.
  { split; [reflexivity | constructor]. }
  exact (proj1 (@getMCPTools_names_pass_the_route_test listing early (λ _, 0)
                  1000000%Z app Hconf)).
Defined.

Lemma accepted_function_reaches_a_configured_server_witness :
  let app := {| multiMCPClient := new_MultiMCPClient;
                firecrawlMCPClient := new_wrapper "firecrawl";
                firecrawl_children := 0 |} in
  @executeMCPTool listing "excel-mcp_create_chart" None app
  = on_multi (@executeTool listing "excel-mcp_create_chart" None) app.
Proof.
  intros app.
  destruct (@accepted_function_reaches_a_configured_server listing
              "excel-mcp_create_chart" None app eq_refl eq_refl)
    as (_ & _ & _ & Hr & _).
  exact Hr.
Defined.

Lemma prompt_categories_partition_the_tools_witness :
  let tools := map to_function
                 [prefixed "firecrawl" scrape; prefixed "excel-mcp" crawl;
                  prefixed "firecrawl" crawl] in
  length (firecrawlTools tools) + length (columbiaLakeTools tools)
  + length (excelTools tools) = length tools.
Proof.
  intros tools.
  assert (Forall (λ f, is_mcp_function (fn_name f) = true) tools) as Hacc.
  { repeat constructor. }
  exact (proj1 (prompt_categories_partition_the_tools tools Hacc)).
Defined.

End AdvertisingScenarios.

(** ** [FirecrawlMCPClient]: one parse event per line *)

Section FirecrawlDecoding.
Import JsString Js Client Codec Requests.
Context `{Platform}.

Lemma handleMessage_with_child cls pid f message w :
  handleMessage cls message (with_child pid f w)
  = (with_child pid f (handleMessage cls message w).1,
     (handleMessage cls message w).2).
Proof.
  unfold handleMessage.
  destruct message; try done;
    change (this (with_child pid f w)) with (this w);
    (destruct (pending_for _ (this w)) as [[k p]|];
     [|destruct cls; [done |]; by destruct (is_initialize_response _)]);
    (destruct cls; [|destruct (is_initialize_response _)]);
    repeat case_match; done.
Qed.

Lemma on_line_with_child cls pid f line w :
  on_line cls line (with_child pid f w) = with_child pid f (on_line cls line w).
Proof.
  unfold on_line. destruct (JSON_parse line) as [message|]; [|done].
  change (report (Received message) (with_child pid f w))
    with (with_child pid f (report (Received message) w)).
  rewrite handleMessage_with_child.
  by destruct (handleMessage cls message (report (Received message) w)) as [w' [e|]].
Qed.

Lemma drain_with_child cls pid f buffer w :
  drain (on_line cls) buffer (with_child pid f w)
  = ((drain (on_line cls) buffer w).1,
     with_child pid f (drain (on_line cls) buffer w).2).
Proof.
  unfold drain. generalize (String.length buffer) as fuel. intros fuel.
  revert buffer w. induction fuel as [|fuel IH]; intros buffer w; simpl; [done |].
  destruct (indexOf newline buffer); [|done].
  destruct (is_empty _); [apply IH |]. rewrite on_line_with_child. apply IH.
Qed.

Lemma feed_with_child cls pid f chunks buffer w :
  feed (on_line cls) chunks (buffer, with_child pid f w)
  = ((feed (on_line cls) chunks (buffer, w)).1,
     with_child pid f (feed (on_line cls) chunks (buffer, w)).2).
Proof.
  revert buffer w. induction chunks as [|chunk chunks IH]; intros buffer w; [done |].
  change (feed (on_line cls) (chunk :: chunks) (buffer, with_child pid f w))
    with (feed (on_line cls) chunks
            (drain (on_line cls) (buffer +:+ chunk) (with_child pid f w))).
  change (feed (on_line cls) (chunk :: chunks) (buffer, w))
    with (feed (on_line cls) chunks (drain (on_line cls) (buffer +:+ chunk) w)).
  rewrite drain_with_child.
  destruct (drain (on_line cls) (buffer +:+ chunk) w) as [b' w']. apply IH.
Qed.

Lemma handleMessage_log cls message w :
  log (handleMessage cls message w).1 = log w.
Proof.
  unfold handleMessage.
  destruct message; try done;
    (destruct (pending_for _ (this w)) as [[k p]|];
     [|destruct cls; [done |]; by destruct (is_initialize_response _)]);
    (destruct cls; [|destruct (is_initialize_response _)]);
    repeat case_match; done.
Qed.

Lemma handleMessage_children cls message w :
  children (handleMessage cls message w).1 = children w.
Proof.
  unfold handleMessage.
  destruct message; try done;
    (destruct (pending_for _ (this w)) as [[k p]|];
     [|destruct cls; [done |]; by destruct (is_initialize_response _)]);
    (destruct cls; [|destruct (is_initialize_response _)]);
    repeat case_match; done.
Qed.

Lemma handleMessage_throws cls message w :
  (handleMessage cls message w).2 = None ↔ message ≠ JNull.
Proof.
  unfold handleMessage.
  destruct message; try done;
    (destruct cls; [|destruct (is_initialize_response _)]); done.
Qed.

Lemma on_line_log cls line w :
  log (on_line cls line w) = log w ++ entries_of line.
Proof.
  unfold on_line, entries_of. destruct (JSON_parse line) as [message|]; [|done].
  pose proof (handleMessage_log cls message (report (Received message) w)) as Hl.
  pose proof (handleMessage_throws cls message (report (Received message) w)) as Ht.
  destruct (handleMessage cls message (report (Received message) w)) as [w' [e|]];
    simpl in *.
  - destruct message; try discriminate (proj2 Ht ltac:(done)).
    rewrite Hl. simpl. by rewrite <- app_assoc.
  - destruct message; [exfalso; by apply (proj1 Ht) | done..].
Qed.

Lemma on_line_children cls line w :
  children (on_line cls line w) = children w.
Proof.
  unfold on_line. destruct (JSON_parse line) as [message|]; [|done].
  pose proof (handleMessage_children cls message (report (Received message) w)) as Hc.
  by destruct (handleMessage cls message (report (Received message) w)) as [w' [e|]].
Qed.

(** One [data] event on a child that has one listener. *)
Lemma stdout_data_single pid ch buffer chunk w :
  children w !! pid = Some ch → codecs ch = [buffer] → closed ch = false →
  let r := on_data (on_line FirecrawlMCPClient) chunk (buffer, w) in
  step FirecrawlMCPClient (StdoutData pid chunk) w
  = with_child pid (set_codecs [r.1]) r.2.
Proof.
  intros Hch Hco Hcl r. simpl. unfold is_open, stdout_data. rewrite Hch, Hcl, Hco.
  simpl. unfold run_codec. rewrite Hch. simpl. rewrite Hco. simpl. fold r.
  unfold with_child, with_children. f_equal.
  assert (children r.2 = children w) as Hsame.
  { unfold r, on_data. simpl.
    apply (drain_preserves (on_line FirecrawlMCPClient)
             (λ st, children st = children w)); [|done].
    intros line st Hst. by rewrite on_line_children. }
  rewrite Hsame. apply list_eq. intros i.
  destruct (decide (i = pid)) as [->|Hne].
  - rewrite !list_lookup_alter_eq, Hch. simpl. by rewrite Hco.
  - by rewrite !list_lookup_alter_ne.
Qed.

Lemma run_stdout_single pid chunks :
  ∀ w ch buffer,
    children w !! pid = Some ch → codecs ch = [buffer] → closed ch = false →
    log (run FirecrawlMCPClient (map (StdoutData pid) chunks) w)
    = log (feed (on_line FirecrawlMCPClient) chunks (buffer, w)).2.
Proof.
  induction chunks as [|chunk chunks IH]; intros w ch buffer Hch Hco Hcl; [done |].
  change (run FirecrawlMCPClient (map (StdoutData pid) (chunk :: chunks)) w)
    with (run FirecrawlMCPClient (map (StdoutData pid) chunks)
            (step FirecrawlMCPClient (StdoutData pid chunk) w)).
  rewrite (stdout_data_single pid ch buffer chunk w Hch Hco Hcl).
  set (r := on_data (on_line FirecrawlMCPClient) chunk (buffer, w)).
  assert (children r.2 = children w) as Hsame.
  { unfold r, on_data. simpl.
    apply (drain_preserves (on_line FirecrawlMCPClient)
             (λ st, children st = children w)); [|done].
    intros line st Hst. by rewrite on_line_children. }
  rewrite (IH _ (set_codecs [r.1] ch) r.1).
  - rewrite feed_with_child. simpl.
    change (feed (on_line FirecrawlMCPClient) (chunk :: chunks) (buffer, w))
      with (feed (on_line FirecrawlMCPClient) chunks r).
    assert (∀ x : string * World, (x.1, x.2) = x) as Hpair by by intros [].
    by rewrite Hpair.
  - rewrite with_child_lookup, Hsame, Hch. done.
  - done.
  - done.
Qed.

(** X18. The property of the line protocol codec, on a
    [FirecrawlMCPClient]: when the child has the one listener that the
    handshake installed, with an empty buffer, and the chunks on its
    stdout, concatenated, are newline-terminated lines, then whatever the
    chunk boundaries the wrapper decodes every line that is not blank
    exactly once and in order: a line that parses is handed to
    [handleMessage], a line that does not is reported and skipped, and
    the lines after it are still processed. *)
Theorem FirecrawlMCPClient_decodes_each_line_once w pid ch chunks lines :
  children w !! pid = Some ch → codecs ch = [EmptyString] → closed ch = false →
  Forall (λ l, indexOf newline l = None) lines →
  concat_chunks chunks = unlines lines →
  log (run FirecrawlMCPClient (map (StdoutData pid) chunks) w)
  = log w ++ concat (map (λ l, if is_empty (trim l) then []
                               else entries_of (trim l)) lines).
Proof.
  intros Hch Hco Hcl Hlines Hcat.
  rewrite (run_stdout_single pid chunks w ch EmptyString Hch Hco Hcl).
  rewrite feed_chunks. unfold on_data. simpl. rewrite str_app_nil_l, Hcat.
  rewrite (drain_unlines _ _ _ Hlines). simpl.
  clear. revert w. induction lines as [|l lines IH]; intros w; simpl.
  - by rewrite app_nil_r.
  - rewrite IH. destruct (is_empty (trim l)); [done |].
    by rewrite on_line_log, <- app_assoc.
Qed.

End FirecrawlDecoding.

Section FirecrawlDecodingScenario.
Import JsString Js Client Codec Requests Sample.

(** A response that arrives in two chunks, cut inside the object. *)
Lemma FirecrawlMCPClient_decodes_each_line_once_witness :
  let w := @run platform FirecrawlMCPClient
             [CallConnect; StderrData 0 firecrawl_banner] (new_world "firecrawl") in
  let chunks := [slice_to 10 response_line;
                 slice_from 10 response_line +:+ eol] in
  log (@run platform FirecrawlMCPClient (map (StdoutData 0) chunks) w)
  = [Received response_message].
Proof.
  intros w chunks.
  assert (children w !! 0 =
          Some {| initialized := true; connectPromise := Some (Resolved None);
                  codecs := [EmptyString]; stdin := []; killed := false;
                  closed := false |}) as Hch by (vm_compute; reflexivity).
  assert (Forall (λ l, indexOf newline l = None) [response_line]) as Hl
    by (repeat constructor).
  assert (concat_chunks chunks = unlines [response_line]) as Hcat
    by (vm_compute; reflexivity).
  rewrite (@FirecrawlMCPClient_decodes_each_line_once platform w 0 _ chunks
             [response_line] Hch eq_refl eq_refl Hl Hcat).
  vm_compute. reflexivity.
Defined.

End FirecrawlDecodingScenario.

(** ** Without a process *)

Section WithoutProcess.
Import JsString Js Client Requests Sample.
Context `{Platform} (cls : client_class).

(** Only [connect()] gives the wrapper a process. *)
Lemma process_none_step e w :
  process (this w) = None → is_connect e = false →
  process (this (step cls e w)) = None.
Proof.
  intros Hp He.
  destruct e as [| method params | | pid chunk | pid chunk | pid | pid | t];
    simpl; try done.
  - unfold sendRequest. by rewrite Hp.
  - unfold disconnect. by destruct (isConnected (this w)); [rewrite Hp |].
  - destruct (is_open pid w); [|done].
    by rewrite (so_process _ _ (ready_listener_settles_only cls pid chunk w)).
  - destruct (is_open pid w); [|done].
    by rewrite (so_process _ _ (stdout_data_settles_only cls pid chunk w)).
  - by destruct (is_initialized pid w).
  - by destruct (is_open pid w).
  - case_decide; [|done]. destruct t as [pid | pid | pid | id p]; simpl.
    + unfold send_initialize. simpl. by rewrite Hp.
    + unfold assume_ready. by destruct (is_initialized _ _).
    + unfold handshake_timeout. by destruct (is_initialized _ _).
    + unfold request_timeout. simpl. by destruct (pendingRequests (this w) !! id).
Qed.

Lemma process_none_run es w :
  process (this w) = None → forallb (λ e, negb (is_connect e)) es = true →
  process (this (run cls es w)) = None.
Proof.
  revert w. induction es as [|e es IH]; intros w Hp Hes; [done |].
  simpl in Hes. apply andb_true_iff in Hes as [He Hes].
  simpl. apply IH; [|done]. apply process_none_step; [done |].
  by apply negb_true_iff.
Qed.

(** X19. A wrapper that has no process (it was never connected, it was
    disconnected, or its child exited) stays without one until
    [connect()] is called, whatever happens in between; [sendRequest] on
    it is rejected at once with the not-connected error, and takes no
    request id, registers nothing, sets no timer and writes nothing. *)
Theorem sendRequest_fails_fast_without_process name es es' method params :
  let w := run cls es (new_world name) in
  process (this w) = None →
  forallb (λ e, negb (is_connect e)) es' = true →
  let w1 := run cls es' w in
  let w2 := sendRequest cls method params w1 in
  process (this w1) = None ∧
  promises w1 !! issued w1 = None ∧
  promises w2 !! issued w1 = Some (Rejected (not_connected_error cls name)) ∧
  this w2 = this w1 ∧ timers w2 = timers w1 ∧ children w2 = children w1 ∧
  allocated w2 = allocated w1.
Proof.
  intros w Hp Hes w1 w2.
  assert (process (this w1) = None) as Hp1 by by apply process_none_run.
  assert (Inv w1) as Hinv by (apply Inv_run, Inv_run, Inv_new).
  assert (promises w1 !! issued w1 = None) as Hnew.
  { destruct (promises w1 !! issued w1) eqn:E; [|done].
    assert (issued w1 < issued w1); [|lia]. apply (inv_settled _ Hinv). by rewrite E. }
  assert (serverName (this w1) = name) as Hname.
  { unfold w1, w. by rewrite !run_serverName. }
  split; [done |]. split; [done |].
  unfold w2, sendRequest. rewrite Hp1. simpl. rewrite Hnew, lookup_insert_eq, Hname.
  done.
Qed.

End WithoutProcess.

Section WithoutProcessScenario.
Import JsString Js Client Requests Sample.

(** After [disconnect()], with a late chunk on stdout in between. *)
Lemma sendRequest_fails_fast_without_process_witness :
  let w1 := @run platform MCPClient
              [CallConnect; StderrData 0 firecrawl_banner; CallDisconnect;
               StdoutData 0 (response_line +:+ eol)] (new_world "firecrawl") in
  promises (sendRequest MCPClient "tools/list" None w1) !! issued w1
  = Some (Rejected (Error "MCP client (firecrawl) not connected")).
Proof.
  intros w1.
  destruct (@sendRequest_fails_fast_without_process platform MCPClient "firecrawl"
              [CallConnect; StderrData 0 firecrawl_banner; CallDisconnect]
              [StdoutData 0 (response_line +:+ eol)] "tools/list" None
              eq_refl eq_refl) as (_ & _ & Hrej & _).
  exact Hrej.
Defined.

End WithoutProcessScenario.

(** ** [MCPClient]: the [initialize] request and the assumed readiness *)

Section MCPClientInitialize.
Import JsString Js Client Requests Sample.
Context `{Platform}.

(** X20. One second after [MCPClient.connect()] spawned a child, the
    wrapper writes an [initialize] request to it, with the next request id,
    and does not register it in the pending map.  This does not connect
    the wrapper.  For [excel-mcp], and for no other server, a second timer
    is set, and when it fires the wrapper is connected and the promise of
    [connect()] is resolved, although the child has not written
    anything. *)
Theorem MCPClient_initialize_then_assumed_ready w :
  isConnected (this w) = false →
  let pid := length (children w) in
  let w1 := step MCPClient CallConnect w in
  let w2 := step MCPClient (TimerFires (TInitialize pid)) w1 in
  let w3 := step MCPClient (TimerFires (TAssumeReady pid)) w2 in
  stdin <$> children w2 !! pid
    = Some [{| rq_id := requestId (this w); rq_method := "initialize";
               rq_params := Some initialize_params |}] ∧
  requestId (this w2) = (requestId (this w) + 1)%Z ∧
  pendingRequests (this w2) = pendingRequests (this w) ∧
  isConnected (this w2) = false ∧
  if String.eqb (serverName (this w)) "excel-mcp" then
    timers w2 = cancel (TInitialize pid) (timers w1) ++ [TAssumeReady pid] ∧
    isConnected (this w3) = true ∧
    connectPromise <$> children w3 !! pid = Some (Some (Resolved None)) ∧
    stdin <$> children w3 !! pid = stdin <$> children w2 !! pid
  else
    timers w2 = cancel (TInitialize pid) (timers w1).
Proof.
  intros Hc pid w1 w2 w3.
  set (w0 := with_this (set_process (Some pid))
               (with_children (λ cs, cs ++ [new_child]) w)).
  assert (w1 = with_timers (λ ts, ts ++ [TInitialize pid; THandshake pid])
                 (with_child pid (λ ch, set_codecs (codecs ch ++ [EmptyString]) ch) w0))
    as Hw1.
  { unfold w1. simpl. unfold connect. rewrite Hc. by unfold setupMessageHandling. }
  assert ((children w ++ [new_child]) !! pid = Some new_child) as Hch0
    by by apply list_lookup_middle.
  assert (children w1 !! pid = Some (set_codecs [EmptyString] new_child)) as Hch1.
  { rewrite Hw1. simpl. by rewrite list_lookup_alter_eq, Hch0. }
  assert (TInitialize pid ∈ timers w1) as Hin.
  { rewrite Hw1. simpl. apply elem_of_app. right. by left. }
  set (request := {| rq_id := requestId (this w); rq_method := "initialize";
                     rq_params := Some initialize_params |}).
  set (w1' := with_timers (cancel (TInitialize pid)) w1).
  assert (w2 = let wr := with_child pid (write request) (next_id w1').2 in
               if String.eqb (serverName (this w)) "excel-mcp"
               then with_timers (λ ts, ts ++ [TAssumeReady pid]) wr else wr) as Hw2.
  { unfold w2. simpl. rewrite decide_True by done. simpl. fold w1'.
    unfold send_initialize, w1'. rewrite Hw1. reflexivity. }
  assert (children w2 !! pid = Some (write request (set_codecs [EmptyString] new_child))
          ∧ requestId (this w2) = (requestId (this w) + 1)%Z
          ∧ pendingRequests (this w2) = pendingRequests (this w)
          ∧ isConnected (this w2) = false) as (Hch2 & Hid2 & Hq2 & Hc2).
  { rewrite Hw2. destruct (String.eqb _ _); simpl;
      rewrite list_lookup_alter_eq, Hch1; by rewrite Hw1. }
  split; [by rewrite Hch2 |]. split; [done |]. split; [done |]. split; [done |].
  destruct (String.eqb (serverName (this w)) "excel-mcp") eqn:Hx.
  - assert (timers w2 = cancel (TInitialize pid) (timers w1) ++ [TAssumeReady pid])
      as Ht2 by by rewrite Hw2.
    split; [done |].
    assert (w3 = assume_ready pid (with_timers (cancel (TAssumeReady pid)) w2)) as Hw3.
    { unfold w3. simpl. rewrite decide_True; [done |].
      rewrite Ht2. apply elem_of_app. right. by left. }
    rewrite Hw3. unfold assume_ready, is_initialized. simpl. rewrite Hch2. simpl.
    rewrite !list_lookup_alter_eq, Hch2. done.
  - by rewrite Hw2.
Qed.

End MCPClientInitialize.

Section MCPClientInitializeScenario.
Import JsString Js Client Requests Sample.

Lemma MCPClient_initialize_then_assumed_ready_witness :
  let w2 := @run platform MCPClient
              [CallConnect; TimerFires (TInitialize 0)] (new_world "excel-mcp") in
  isConnected (this w2) = false ∧
  isConnected (this (@step platform MCPClient (TimerFires (TAssumeReady 0)) w2)) = true.
Proof.
  intros w2.
  destruct (@MCPClient_initialize_then_assumed_ready platform
              (new_world "excel-mcp") eq_refl)
    as (_ & _ & _ & Hoff & _ & Hon & _).
  split; [exact Hoff | exact Hon].
Defined.

End MCPClientInitializeScenario.
